(** * tensorcircuit/experimental.py: differentiation utilities

    A shallow embedding of [src/tensorcircuit/experimental.py] and the
    properties its specification states about it.

    Arrays are row-major: a tensor is a shape together with its flat data.
    The floating-point numbers of the numerical backend are idealised as
    complex numbers over the real line, so the equations proved below are
    the exact-arithmetic ones.  Python exceptions are values of [exn] and
    every operation that can raise returns a [result]. *)

From Stdlib Require Import String Reals Lra Lia Arith ZArith Bool List.
From Stdlib Require Import FunctionalExtensionality.
Import ListNotations.

(** ** Complex scalars *)

Module Cplx.
Local Open Scope R_scope.

Definition C : Type := (R * R)%type.

Definition RtoC (x : R) : C := (x, 0).
Definition Ci : C := (0, 1).
Definition C0 : C := RtoC 0.
Definition C1 : C := RtoC 1.

Definition Cadd (a b : C) : C := (fst a + fst b, snd a + snd b).
Definition Csub (a b : C) : C := (fst a - fst b, snd a - snd b).
Definition Cneg (a : C) : C := (- fst a, - snd a).
Definition Cmul (a b : C) : C :=
  (fst a * fst b - snd a * snd b, fst a * snd b + snd a * fst b).
Definition Cconj (a : C) : C := (fst a, - snd a).
Definition Cnorm2 (a : C) : R := fst a * fst a + snd a * snd a.
Definition Cinv (a : C) : C := (fst a / Cnorm2 a, - snd a / Cnorm2 a).
Definition Cdiv (a b : C) : C := Cmul a (Cinv b).
(** [backend.real]: the real part, kept as a scalar of the same carrier. *)
Definition Creal (a : C) : C := RtoC (fst a).
Definition Cexp (a : C) : C :=
  (exp (fst a) * cos (snd a), exp (fst a) * sin (snd a)).

Definition Csum (l : list C) : C := fold_right Cadd C0 l.

End Cplx.
Import Cplx.

(** ** Exceptions *)

Inductive exn : Type :=
| ValueError (msg : string)
| UnboundLocalError (name : string)
| IndexError
| ZeroDivisionError
| TypeError
| BackendError.

Inductive result (A : Type) : Type :=
| Ok (a : A)
| Raise (e : exn).
Arguments Ok {A} a.
Arguments Raise {A} e.

Definition bind {A B : Type} (m : result A) (k : A -> result B) : result B :=
  match m with
  | Ok a => k a
  | Raise e => Raise e
  end.

Declare Scope py_scope.
Delimit Scope py_scope with py.
Notation "x <- m ;; k" := (bind m (fun x => k))
  (at level 61, m at next level, right associativity) : py_scope.
Notation "' p <- m ;; k" := (bind m (fun x => match x with p => k end))
  (at level 61, p pattern, m at next level, right associativity) : py_scope.
Local Open Scope py_scope.

Fixpoint mapM {A B : Type} (f : A -> result B) (l : list A) : result (list B) :=
  match l with
  | [] => Ok []
  | a :: l' => b <- f a ;; bs <- mapM f l' ;; Ok (b :: bs)
  end.

(** [l[i]] on a Python list. *)
Definition index_list {A : Type} (l : list A) (i : nat) : result A :=
  match nth_error l i with
  | Some a => Ok a
  | None => Raise IndexError
  end.

(** [l[i] = v] on a Python list. *)
Fixpoint setitem_list {A : Type} (l : list A) (i : nat) (v : A) : result (list A) :=
  match l, i with
  | [], _ => Raise IndexError
  | _ :: l', O => Ok (v :: l')
  | a :: l', S i' => r <- setitem_list l' i' v ;; Ok (a :: r)
  end.

Definition enumerate {A : Type} (l : list A) : list (nat * A) :=
  combine (seq 0 (length l)) l.

Definition mem (i : nat) (l : list nat) : bool := existsb (Nat.eqb i) l.

(** ** Tensors *)

Record tensor : Type := mkT { tshape : list nat; tdata : list C }.

Definition prod (sh : list nat) : nat := fold_right Nat.mul 1 sh.

Definition wf (t : tensor) : Prop := length (tdata t) = prod (tshape t).

Definition shape_eq_dec : forall a b : list nat, {a = b} + {a <> b} :=
  list_eq_dec Nat.eq_dec.

Definition scalar (z : C) : tensor := mkT [] [z].

(** [Union[int, Sequence[int]]] *)
Inductive int_or_seq : Type :=
| AInt (i : nat)
| ASeq (l : list nat).

Definition as_seq (a : int_or_seq) : list nat :=
  match a with
  | AInt i => [i]
  | ASeq l => l
  end.

(** A Python callable on a list of positional tensor arguments.  Keyword
    arguments are only ever forwarded untouched to [f], so they are part of
    [f] here. *)
Definition pyfun : Type := list tensor -> result tensor.

(** ** The numerical backend *)

(** Modelled from the spec: the [backend] object imported from
    [tensorcircuit.cons] is not part of this file.  The specification calls
    it "the backend's numerical API" (vectorized map, reshape, stack and
    the like); the operations below give each primitive the row-major array
    meaning it has in every supported engine.  The differentiation
    primitives are left as parameters of the sections that use them; where
    a property is about the derivative itself, [forward] gives [grad] and
    [stop_gradient] their reading by forward accumulation. *)
Module backend.

Definition shape_tuple (t : tensor) : list nat := tshape t.
Definition sizen (t : tensor) : nat := prod (tshape t).

(** [t.shape[0]] *)
Definition shape0 (t : tensor) : result nat := index_list (tshape t) 0.

(** [reshape(t, sh)]: at most one entry of [sh] may be [-1]; it is
    inferred from the size. *)
Definition reshape (t : tensor) (sh : list Z) : result tensor :=
  let size := sizen t in
  if existsb (fun d => (d <? -1)%Z) sh then Raise BackendError else
  match count_occ Z.eq_dec sh (-1)%Z with
  | 0 =>
      let sh' := map Z.to_nat sh in
      if prod sh' =? size then Ok (mkT sh' (tdata t)) else Raise BackendError
  | 1 =>
      let known := prod (map Z.to_nat (filter (fun d => negb (d =? -1)%Z) sh)) in
      if (known =? 0) || negb (size mod known =? 0) then Raise BackendError
      else Ok (mkT (map (fun d => if (d =? -1)%Z then size / known else Z.to_nat d) sh)
                   (tdata t))
  | _ => Raise BackendError
  end.

(** [stack(ts)]: a new leading axis; an empty list is an error. *)
Definition stack (ts : list tensor) : result tensor :=
  match ts with
  | [] => Raise BackendError
  | t0 :: _ =>
      if forallb (fun t => if shape_eq_dec (tshape t) (tshape t0) then true else false) ts
      then Ok (mkT (length ts :: tshape t0) (List.concat (map tdata ts)))
      else Raise BackendError
  end.

Definition lead (t : tensor) : nat := hd 0 (tshape t).

(** [concat(ts)] along the leading axis. *)
Definition concat (ts : list tensor) : result tensor :=
  match ts with
  | [] => Raise BackendError
  | t0 :: _ =>
      match tshape t0 with
      | [] => Raise BackendError
      | _ :: sh =>
          if forallb (fun t => match tshape t with
                               | [] => false
                               | _ :: sh' => if shape_eq_dec sh' sh then true else false
                               end) ts
          then Ok (mkT (fold_right Nat.add 0 (map lead ts) :: sh)
                       (List.concat (map tdata ts)))
          else Raise BackendError
      end
  end.

(** [t[i]] *)
Definition getitem (t : tensor) (i : nat) : result tensor :=
  match tshape t with
  | [] => Raise IndexError
  | n :: sh =>
      if i <? n
      then Ok (mkT sh (firstn (prod sh) (skipn (i * prod sh) (tdata t))))
      else Raise IndexError
  end.

(** [t[-s:]] for [s > 0] *)
Definition slice_last (t : tensor) (s : nat) : result tensor :=
  match tshape t with
  | [] => Raise IndexError
  | n :: sh => Ok (mkT (n - (n - s) :: sh) (skipn ((n - s) * prod sh) (tdata t)))
  end.

(** [t[:-s]] for [s > 0] *)
Definition slice_init (t : tensor) (s : nat) : result tensor :=
  match tshape t with
  | [] => Raise IndexError
  | n :: sh => Ok (mkT (n - s :: sh) (firstn ((n - s) * prod sh) (tdata t)))
  end.

(** [vmap(f, vectorized_argnums)]: [f] is applied to every slice along the
    leading axis of the arguments listed in [vectorized_argnums], the other
    arguments are passed whole, and the outputs are stacked. *)
Definition vmap (f : pyfun) (vectorized_argnums : int_or_seq) : pyfun :=
  fun args =>
    let vs := as_seq vectorized_argnums in
    v0 <- index_list vs 0 ;;
    a0 <- index_list args v0 ;;
    n <- shape0 a0 ;;
    outs <- mapM (fun b =>
                    slices <- mapM (fun '(j, a) => if mem j vs then getitem a b else Ok a)
                                   (enumerate args) ;;
                    f slices)
                 (seq 0 n) ;;
    stack outs.

(** Elementwise maps. *)
Definition tmap (g : C -> C) (t : tensor) : tensor := mkT (tshape t) (map g (tdata t)).

Definition zip_with (op : C -> C -> C) (a b : list C) : list C :=
  map (fun p => op (fst p) (snd p)) (combine a b).

(** Elementwise binary operations: equal shapes, or one operand of rank 0
    that is broadcast; other broadcasts are not needed by this module and
    raise. *)
Definition binop (op : C -> C -> C) (a b : tensor) : result tensor :=
  if shape_eq_dec (tshape a) (tshape b)
  then Ok (mkT (tshape a) (zip_with op (tdata a) (tdata b)))
  else match tshape a, tshape b with
       | [], _ => Ok (tmap (op (hd C0 (tdata a))) b)
       | _, [] => Ok (tmap (fun x => op x (hd C0 (tdata b))) a)
       | _, _ => Raise BackendError
       end.

Definition add := binop Cadd.
Definition sub := binop Csub.
Definition mul := binop Cmul.
Definition div := binop Cdiv.
Definition neg := tmap Cneg.
Definition conj := tmap Cconj.
Definition real := tmap Creal.
Definition exp := tmap Cexp.

(** A Python float times a tensor, and a tensor divided by a Python float. *)
Definition scale (s : R) (t : tensor) : tensor := tmap (Cmul (RtoC s)) t.
Definition div_float (t : tensor) (s : R) : tensor := tmap (fun x => Cdiv x (RtoC s)) t.

(** [cast], [copy] and [jit] do not change the values. *)
Definition cast (t : tensor) : tensor := t.
Definition copy (t : tensor) : tensor := t.
Definition jit {A : Type} (f : A) : A := f.

(** [stop_gradient(x)] has the value of [x].  What it changes is the
    derivative taken through it, which is the business of the
    differentiation primitives; see [forward.stop_gradient] for the reading
    under differentiation. *)
Definition stop_gradient (x : tensor) : tensor := x.

Definition eye (n : nat) : tensor :=
  mkT [n; n]
      (flat_map (fun i => map (fun j => if i =? j then C1 else C0) (seq 0 n)) (seq 0 n)).

Definition ones (sh : list nat) : tensor := mkT sh (repeat C1 (prod sh)).

Fixpoint tile_data (sh reps : list nat) (d : list C) : list C :=
  match sh, reps with
  | n :: sh', r :: reps' =>
      let m := prod sh' in
      let blocks := map (fun k => tile_data sh' reps' (firstn m (skipn (k * m) d)))
                        (seq 0 n) in
      List.concat (repeat (List.concat blocks) r)
  | _, _ => d
  end.

(** [tile(t, reps)] with one repetition count per axis. *)
Definition tile (t : tensor) (reps : list nat) : result tensor :=
  if length reps =? length (tshape t)
  then Ok (mkT (map (fun p => fst p * snd p) (combine (tshape t) reps))
               (tile_data (tshape t) reps (tdata t)))
  else Raise BackendError.

(** All multi-indices of a shape, in row-major order, and the flat
    position of a multi-index. *)
Fixpoint indices (sh : list nat) : list (list nat) :=
  match sh with
  | [] => [[]]
  | n :: sh' => flat_map (fun i => map (cons i) (indices sh')) (seq 0 n)
  end.

Fixpoint flat_index (sh idx : list nat) : nat :=
  match sh, idx with
  | _ :: sh', i :: idx' => i * prod sh' + flat_index sh' idx'
  | _, _ => 0
  end.

(** [transpose(t)] reverses the axes. *)
Definition transpose (t : tensor) : tensor :=
  mkT (rev (tshape t))
      (map (fun idx => nth (flat_index (tshape t) (rev idx)) (tdata t) C0)
           (indices (rev (tshape t)))).

(** [tensordot(a, b, 1)]: the last axis of [a] is contracted with the
    first axis of [b]. *)
Definition tensordot1 (a b : tensor) : result tensor :=
  match rev (tshape a), tshape b with
  | k :: rsa, k' :: sb =>
      if k =? k' then
        let cols := prod sb in
        Ok (mkT (rev rsa ++ sb)
                (flat_map (fun r =>
                   map (fun c =>
                          Csum (map (fun m => Cmul (nth (r * k + m) (tdata a) C0)
                                                   (nth (m * cols + c) (tdata b) C0))
                                    (seq 0 k)))
                       (seq 0 cols))
                   (seq 0 (prod rsa))))
      else Raise BackendError
  | _, _ => Raise BackendError
  end.

(** [a @ b] on two matrices. *)
Definition matmul (a b : tensor) : result tensor :=
  if (length (tshape a) =? 2) && (length (tshape b) =? 2)
  then tensordot1 a b
  else Raise BackendError.

(** A Hamiltonian is handed over as a dense array or in a sparse format;
    the entries are the same. *)
Inductive matrix : Type :=
| Dense (t : tensor)
| Sparse (t : tensor).

Definition is_sparse (h : matrix) : bool :=
  match h with
  | Dense _ => false
  | Sparse _ => true
  end.

Definition entries (h : matrix) : tensor :=
  match h with
  | Dense t => t
  | Sparse t => t
  end.

Definition sparse_dense_matmul (h : matrix) (b : tensor) : result tensor :=
  matmul (entries h) b.

(** [norm(t)]: the 2-norm of the flattened tensor, a rank-0 tensor. *)
Definition norm (t : tensor) : tensor :=
  scalar (RtoC (sqrt (fold_right Rplus 0%R (map Cnorm2 (tdata t))))).

(** Iterating over a tensor yields its slices along the leading axis. *)
Definition iter (t : tensor) : result (list tensor) :=
  match tshape t with
  | [] => Raise TypeError
  | n :: _ => mapM (getitem t) (seq 0 n)
  end.

End backend.

(** ** adaptive_vmap *)

(** [divmod(n, c)] on non-negative integers *)
Definition divmod (n c : nat) : result (nat * nat) :=
  if c =? 0 then Raise ZeroDivisionError else Ok (n / c, n mod c).

Definition adaptive_vmap (f : pyfun) (vectorized_argnums : int_or_seq)
    (chunk_size : option nat) : pyfun :=
  match chunk_size with
  | None => backend.vmap f vectorized_argnums
  | Some chunk_size =>
    let vectorized_argnums := as_seq vectorized_argnums in
    fun args =>
      v0 <- index_list vectorized_argnums 0 ;;
      a0 <- index_list args v0 ;;
      n <- backend.shape0 a0 ;;
      '(s1, s2) <- divmod n chunk_size ;;
      (* repetition, rest *)
      split <- mapM (fun '(i, arg) =>
          if mem i vectorized_argnums then
            '(arg, arg_rest) <-
               (if negb (s2 =? 0)
                then arg_rest <- backend.slice_last arg s2 ;;
                     arg' <- backend.slice_init arg s2 ;;
                     Ok (arg', Some arg_rest)
                else Ok (arg, None)) ;;
            arg <- backend.reshape arg
                     (map Z.of_nat (s1 :: chunk_size :: tl (backend.shape_tuple arg))) ;;
            Ok (arg, arg_rest)
          else Ok (arg, Some arg))
        (enumerate args) ;;
      let reshape_args := map fst split in
      let rest_args := if negb (s2 =? 0)
                       then flat_map (fun p => match snd p with
                                               | Some a => [a]
                                               | None => []
                                               end) split
                       else [] in
      let _vmap := backend.vmap f (ASeq vectorized_argnums) in
      r <- mapM (fun i =>
                   nreshape_args <- mapM (fun '(j, a) =>
                       if mem j vectorized_argnums then backend.getitem a i else Ok a)
                     (enumerate reshape_args) ;;
                   _vmap nreshape_args)
                (seq 0 s1) ;;
      r <- backend.stack r ;;
      let rshape := backend.shape_tuple r in
      r0 <- index_list rshape 0 ;;
      r1 <- index_list rshape 1 ;;
      let nshape := if length rshape =? 2
                    then [Z.of_nat (r0 * r1)]
                    else [Z.of_nat (r0 * r1); (-1)%Z] in
      r <- backend.reshape r nshape ;;
      if negb (s2 =? 0) then
        rest_r <- _vmap rest_args ;;
        backend.concat [r; rest_r]
      else Ok r
  end.

(** ** Quantum natural gradient *)

Definition eps_default : R := (1 / 10000)%R.

Definition _qng_post_process (t : tensor) (eps : R) : result tensor :=
  n <- backend.shape0 t ;;
  t <- backend.add t (backend.scale eps (backend.eye n)) ;;
  let t := backend.real t in
  Ok t.

Definition _id (a : tensor) : tensor := a.

Definition _vdot (i j : tensor) : result tensor :=
  backend.tensordot1 (backend.conj i) j.

(** [Optional[str]] or a callable, as the [postprocess] argument is used. *)
Inductive postprocess_option : Type :=
| PStr (s : string)
| PNone
| PCallable (g : tensor -> tensor).

(** The dispatch on [postprocess] shared by [qng] and [qng2]. *)
Definition select_post_process (postprocess : postprocess_option)
    : result (tensor -> result tensor) :=
  match postprocess with
  | PStr s =>
      if (s =? "qng")%string
      then Ok (fun t => _qng_post_process t eps_default)
      else Raise (ValueError "Unsupported postprocess option")
  | PNone => Ok (fun t => Ok (_id t))
  | PCallable g => Ok (fun t => Ok (g t))
  end.

(** A two-argument closure seen as a callable on an argument list. *)
Definition closure2 (g : tensor -> tensor -> result tensor) : pyfun :=
  fun args => i <- index_list args 0 ;; j <- index_list args 1 ;; g i j.

Section Differentiation.

(** The differentiation primitives of the backend: forward and reverse
    Jacobian, vector-Jacobian product and gradient of a Python function at
    a point. *)
Variables jacfwd jacrev grad : (tensor -> result tensor) -> tensor -> result tensor.
Variable vjp : (tensor -> result tensor) -> tensor -> tensor -> result (tensor * tensor).

(** The state function [f] is a total function on tensors. *)
Definition call (f : tensor -> tensor) : tensor -> result tensor := fun x => Ok (f x).

(** The kernel matrix of [qng], before post-processing. *)
Definition qng_kernel_matrix (f : tensor -> tensor) (kernel mode : string)
    (params : tensor) : result tensor :=
  let params := backend.cast params in (* R->C protection *)
  let psi := f params in
  jac <- (if (mode =? "fwd")%string
          then jacfwd (call f) params
          else jac <- jacrev (call f) params ;;
               Ok (backend.cast jac)) ;;
  let jac := backend.transpose jac in
  let ij : option (tensor -> tensor -> result tensor) :=
    if (kernel =? "qng")%string then
      Some (fun i j =>
              a <- _vdot i j ;;
              b <- _vdot i psi ;;
              c <- _vdot psi j ;;
              bc <- backend.mul b c ;;
              backend.sub a bc)
    else if (kernel =? "dynamics")%string then
      Some (fun i j => _vdot i j)
    else None in
  ij <- match ij with
        | Some g => Ok g
        | None => Raise (UnboundLocalError "ij")
        end ;;
  let vij := backend.vmap (closure2 ij) (AInt 0) in
  let vvij := backend.vmap vij (AInt 1) in
  vvij [jac; jac].

Definition qng (f : tensor -> tensor) (kernel : string)
    (postprocess : postprocess_option) (mode : string) : tensor -> result tensor :=
  fun params =>
    fim <- qng_kernel_matrix f kernel mode params ;;
    _post_process <- select_post_process postprocess ;;
    _post_process fim.

Definition dynamics_matrix (f : tensor -> tensor) (mode : string)
    : tensor -> result tensor :=
  qng f "dynamics" PNone mode.

(** The matrix of [qng2], before post-processing. *)
Definition qng2_kernel_matrix (f : tensor -> tensor) (kernel mode : string)
    (params : tensor) : result tensor :=
  let params2 := backend.copy params in
  let params2 := backend.stop_gradient params2 in
  let outer_loop (params2 : tensor) : result tensor :=
    let inner_product (params params2 : tensor) : result tensor :=
      let s := f params in
      let s2 := f params2 in
      fid <- _vdot s2 s ;;
      if (kernel =? "qng")%string then
        a <- _vdot s2 (backend.stop_gradient s) ;;
        b <- _vdot (backend.stop_gradient s2) s ;;
        ab <- backend.mul a b ;;
        backend.sub fid ab
      else Ok fid in
    '(_, grad) <- vjp (fun p => inner_product p params2) params (backend.ones []) ;;
    Ok grad in
  if (mode =? "fwd")%string
  then jacfwd outer_loop params2
  else jacrev outer_loop params2.

Definition qng2 (f : tensor -> tensor) (kernel : string)
    (postprocess : postprocess_option) (mode : string) : tensor -> result tensor :=
  fun params =>
    fim <- qng2_kernel_matrix f kernel mode params ;;
    _post_process <- select_post_process postprocess ;;
    _post_process fim.

(** ** dynamics_rhs *)

(** By values, with [grad] a parameter; [forward.dynamics_rhs] is the same
    text on traced values. *)
Definition dynamics_rhs (f : tensor -> tensor) (h : backend.matrix)
    : tensor -> result tensor :=
  fun params =>
    let energy (params : tensor) : result tensor :=
      let w := f params in
      let wr := backend.stop_gradient w in
      let wl := backend.conj w in
      wl <- backend.reshape wl [1; -1]%Z ;;
      wr <- backend.reshape wr [-1; 1]%Z ;;
      e <- (if negb (backend.is_sparse h)
            then wlh <- backend.matmul wl (backend.entries h) ;;
                 backend.matmul wlh wr
            else tmp <- backend.sparse_dense_matmul h wr ;;
                 backend.matmul wl tmp) ;;
      e0 <- backend.getitem (backend.real e) 0 ;;
      backend.getitem e0 0 in
    grad energy params.

End Differentiation.

(** ** Parameter shift *)

(** What a gradient function returns: one tensor, or a tuple of them. *)
Inductive grads : Type :=
| Single (g : tensor)
| Tuple (gs : list tensor).

Definition shifts_default : R * R := ((PI / 2)%R, 2%R).

Definition parameter_shift_grad (f : pyfun) (argnums : int_or_seq) (jit : bool)
    (shifts : R * R) : list tensor -> result grads :=
  let f := if jit then backend.jit f else f in
  let argnums := as_seq argnums in
  let vfs := map (fun i => backend.vmap f (AInt i)) argnums in
  fun args =>
    grad_values <- mapM (fun i =>
        a <- index_list args i ;;
        let shape := backend.shape_tuple a in
        let size := backend.sizen a in
        let onehot := backend.eye size in
        let onehot := backend.cast onehot in
        onehot <- backend.reshape onehot (map Z.of_nat (size :: shape)) ;;
        let onehot := backend.scale (fst shifts) onehot in
        let nargs := args in
        arg <- backend.reshape a (map Z.of_nat (1 :: shape)) ;;
        batched_arg <- backend.tile arg (size :: map (fun _ => 1) shape) ;;
        plus <- backend.add batched_arg onehot ;;
        nargs <- setitem_list nargs i plus ;;
        let nargs2 := args in
        minus <- backend.sub batched_arg onehot ;;
        nargs2 <- setitem_list nargs2 i minus ;;
        vf <- index_list vfs i ;;
        r1 <- vf nargs ;;
        r2 <- vf nargs2 ;;
        d <- backend.sub r1 r2 ;;
        let r := backend.div_float d (snd shifts) in
        backend.reshape r (map Z.of_nat shape))
      argnums ;;
    if 1 <? length argnums
    then Ok (Tuple grad_values)
    else g <- index_list grad_values 0 ;; Ok (Single g).

Section RandomKeys.

(** [backend.random_split(key)] returns the next key and a subkey. *)
Variable random_split : tensor -> tensor * tensor.

(** [size] successive splits of [key]: the last key and the subkeys. *)
Fixpoint split_keys (key : tensor) (size : nat) : tensor * list tensor :=
  match size with
  | O => (key, [])
  | S size' =>
      let '(key, subkey) := random_split key in
      let '(key, keys) := split_keys key size' in
      (key, subkey :: keys)
  end.

(** The loop over [random_argnums]: both argument lists get fresh keys. *)
Fixpoint fill_keys (args : list tensor) (size : nat) (random_argnums : list nat)
    (nargs nargs2 : list tensor) : result (list tensor * list tensor) :=
  match random_argnums with
  | [] => Ok (nargs, nargs2)
  | j :: rest =>
      key <- index_list args j ;;
      let '(key, keys) := split_keys key size in
      ks <- backend.stack keys ;;
      nargs <- setitem_list nargs j ks ;;
      let '(_, keys) := split_keys key size in
      ks2 <- backend.stack keys ;;
      nargs2 <- setitem_list nargs2 j ks2 ;;
      fill_keys args size rest nargs nargs2
  end.

Definition parameter_shift_grad_v2 (f : pyfun) (argnums : int_or_seq) (jit : bool)
    (random_argnums : option int_or_seq) (shifts : R * R)
    : list tensor -> result grads :=
  let f := if jit then backend.jit f else f in
  let argnums := as_seq argnums in
  let random_argnums := option_map as_seq random_argnums in
  let vfs :=
    match random_argnums with
    | None => map (fun i => backend.vmap f (AInt i)) argnums
    | Some random_argnums =>
        map (fun i => backend.vmap f (ASeq ([i] ++ random_argnums))) argnums
    end in
  fun args =>
    grad_values <- mapM (fun i =>
        a <- index_list args i ;;
        let shape := backend.shape_tuple a in
        let size := backend.sizen a in
        let onehot := backend.eye size in
        let onehot := backend.cast onehot in
        onehot <- backend.reshape onehot (map Z.of_nat (size :: shape)) ;;
        let onehot := backend.scale (fst shifts) onehot in
        let nargs := args in
        arg <- backend.reshape a (map Z.of_nat (1 :: shape)) ;;
        batched_arg <- backend.tile arg (size :: map (fun _ => 1) shape) ;;
        plus <- backend.add batched_arg onehot ;;
        nargs <- setitem_list nargs i plus ;;
        let nargs2 := args in
        minus <- backend.sub batched_arg onehot ;;
        nargs2 <- setitem_list nargs2 i minus ;;
        '(nargs, nargs2) <-
           match random_argnums with
           | Some random_argnums => fill_keys args size random_argnums nargs nargs2
           | None => Ok (nargs, nargs2)
           end ;;
        vf <- index_list vfs i ;;
        r1 <- vf nargs ;;
        r2 <- vf nargs2 ;;
        d <- backend.sub r1 r2 ;;
        let r := backend.div_float d (snd shifts) in
        backend.reshape r (map Z.of_nat shape))
      argnums ;;
    if 1 <? length argnums
    then Ok (Tuple grad_values)
    else g <- index_list grad_values 0 ;; Ok (Single g).

End RandomKeys.

(** ** hamiltonian_evol *)

Section Evolution.

(** [backend.eigh(h)]: the eigenvalues and the matrix of eigenvectors. *)
Variable eigh : tensor -> tensor * tensor.

Definition hamiltonian_evol (tlist h psi0 : tensor)
    (callback : option (tensor -> tensor)) : result tensor :=
  let '(es, u) := eigh h in
  col0 <- backend.reshape psi0 [-1; 1]%Z ;;
  m <- backend.matmul (backend.transpose u) col0 ;;
  utpsi0 <- backend.reshape m [-1]%Z ;;
  let _evol (t : tensor) : result tensor :=
    tes <- backend.mul (backend.neg t) es ;;
    ebetah_utpsi0 <- backend.mul (backend.exp tes) utpsi0 ;;
    col <- backend.reshape ebetah_utpsi0 [-1; 1]%Z ;;
    psi_exact <- backend.matmul (backend.conj u) col ;;
    psi_exact <- backend.reshape psi_exact [-1]%Z ;;
    psi_exact <- backend.div psi_exact (backend.norm psi_exact) ;;
    match callback with
    | None => Ok psi_exact
    | Some callback => Ok (callback psi_exact)
    end in
  ts <- backend.iter tlist ;;
  states <- mapM _evol ts ;;
  backend.stack states.

End Evolution.

(** * Notions the properties are stated with *)

(** ** Rows of a tensor *)

Definition row (sh : list nat) (d : list C) (k : nat) : tensor :=
  mkT sh (firstn (prod sh) (skipn (k * prod sh) d)).

(** The output of [f] on row [k] of a batch. *)
Definition out_of (f : pyfun) (sh : list nat) (d : list C) (k : nat) : tensor :=
  match f [row sh d k] with
  | Ok o => o
  | Raise _ => scalar C0
  end.

(** The stacked outputs of chunk [i], given the output [g k] of each row. *)
Definition chunk_outputs (g : nat -> tensor) (c : nat) (osh : list nat) (i : nat) : tensor :=
  mkT (c :: osh) (concat (map tdata (map g (seq (i * c) c)))).

Definition shapes_match (args : list tensor) (argnums : list nat) (gs : list tensor) : Prop :=
  Forall2 (fun i g => exists a, nth_error args i = Some a /\ tshape g = tshape a) argnums gs.

Definition shape_and_arity (args : list tensor) (argnums : int_or_seq) (res : grads) : Prop :=
  match res with
  | Tuple gs => 1 < length (as_seq argnums) /\ shapes_match args (as_seq argnums) gs
  | Single g => length (as_seq argnums) = 1 /\ shapes_match args (as_seq argnums) [g]
  end.

(** ** The parameter-shift formula *)

Definition one_hot (sh : list nat) (k : nat) : tensor :=
  mkT sh (map (fun j => if k =? j then C1 else C0) (seq 0 (prod sh))).

Definition shift_by (op : C -> C -> C) (x : tensor) (s0 : R) (k : nat) : tensor :=
  mkT (tshape x)
      (backend.zip_with op (tdata x) (tdata (backend.scale s0 (one_hot (tshape x) k)))).

Definition value_of (r : result tensor) : C :=
  match r with
  | Ok t => hd C0 (tdata t)
  | Raise _ => C0
  end.

(** ** Inner products and columns *)

(** <a|b>, the sum of conj(a_k) * b_k *)
Definition inner (a b : list C) : C :=
  Csum (backend.zip_with (fun x y => Cmul (Cconj x) y) a b).

(** Column [i] of a [d] x [n] matrix stored row by row. *)
Definition column (J : list C) (d n i : nat) : list C :=
  map (fun k => nth (k * n + i) J C0) (seq 0 d).

(** ** The kernel matrix of qng *)

(** Entry (i, j) of the quantum Fisher information, as the specification
    writes it: <d_i psi|d_j psi> - <d_i psi|psi><psi|d_j psi>. *)
Definition fisher (P J : list C) (d n i j : nat) : C :=
  Csub (inner (column J d n i) (column J d n j))
       (Cmul (inner (column J d n i) P) (inner P (column J d n j))).

(** ** Which exceptions the backend operations raise *)

Definition backend_exn (e : exn) : Prop := e = IndexError \/ e = BackendError.

(** ** The post-processing dispatch *)

(** What the wrappers do with the computed matrix [fim]: the ValueError
    for a string other than "qng" and for nothing else, the matrix itself
    for None, the callable applied to it; and no exception of the module's
    own besides that ValueError (the backend may still refuse the default
    post-processing of a matrix that is not square). *)
Definition post_process_contract (run : postprocess_option -> result tensor) (fim : tensor)
    : Prop :=
  (forall p, run p = Raise (ValueError "Unsupported postprocess option")
             <-> exists s, p = PStr s /\ s <> "qng"%string)
  /\ run PNone = Ok fim
  /\ (forall g, run (PCallable g) = Ok (g fim))
  /\ forall p e, run p = Raise e ->
       e = ValueError "Unsupported postprocess option" \/ backend_exn e.

(** ** The energy of dynamics_rhs *)

(** <a|H|b>: the sum over i and j of conj(a_i) * H_ij * b_j, for a
    [d] x [d] matrix stored row by row. *)
Definition bra_h_ket (a H b : list C) (d : nat) : C :=
  Csum (map (fun i =>
          Csum (map (fun j =>
                  Cmul (Cmul (Cconj (nth i a C0)) (nth (i * d + j) H C0)) (nth j b C0))
                (seq 0 d)))
        (seq 0 d)).

Definition adjoint (u : tensor) : tensor := backend.conj (backend.transpose u).

(** The evolution as the specification words it: exp(-t h) psi0 with
    exp(-t h) = u diag(exp(-t es)) u^dagger, normalised, one row per time. *)
Definition exact_evolutions (es u psi0 tlist : tensor) : result tensor :=
  col0 <- backend.reshape psi0 [-1; 1]%Z ;;
  m <- backend.matmul (adjoint u) col0 ;;
  udpsi0 <- backend.reshape m [-1]%Z ;;
  let exact_evolution (t : tensor) : result tensor :=
    tes <- backend.mul (backend.neg t) es ;;
    w <- backend.mul (backend.exp tes) udpsi0 ;;
    col <- backend.reshape w [-1; 1]%Z ;;
    psi <- backend.matmul u col ;;
    psi <- backend.reshape psi [-1]%Z ;;
    backend.div psi (backend.norm psi) in
  ts <- backend.iter tlist ;;
  states <- mapM exact_evolution ts ;;
  backend.stack states.

(** A complex Hermitian matrix with its eigendecomposition, a real start
    state and one time. *)
Local Open Scope R_scope.

Definition u0 : tensor := mkT [2; 2]%nat [(3/5, 0); (0, 4/5); (0, 4/5); (3/5, 0)].
Definition es0 : tensor := mkT [2]%nat [(0, 0); (1, 0)].
Definition h0 : tensor := mkT [2; 2]%nat [(16/25, 0); (0, 12/25); (0, -12/25); (9/25, 0)].
Definition psi_up : tensor := mkT [2]%nat [(1, 0); (0, 0)].
Definition t_one : tensor := mkT [1]%nat [(1, 0)].
Definition eigh0 (h : tensor) : tensor * tensor := (es0, u0).

(** The unnormalised state of the code and of the exact evolution. *)
Definition decay : R := exp (-1).
Definition code_state : tensor :=
  mkT [2]%nat [(9/25 + 16/25 * decay, 0); (0, - (12/25 * (1 - decay)))].
Definition exact_state : tensor :=
  mkT [2]%nat [(9/25 + 16/25 * decay, 0); (0, 12/25 * (1 - decay))].

(** [psi / norm(psi)] for a vector. *)
Definition normalized (psi : tensor) : tensor :=
  backend.tmap (fun x => Cdiv x (hd C0 (tdata (backend.norm psi)))) psi.

(** A tensor whose entries are all real. *)
Definition real_entries (t : tensor) : Prop := Forall (fun z => snd z = 0) (tdata t).

Local Close Scope R_scope.

(** ** dynamics_rhs under differentiation *)

(** Modelled from the spec: [backend.grad] and what [stop_gradient] does
    to it are not part of this file; the specification names them among
    "that backend's autodiff primitives (gradient, vectorized-map,
    forward/reverse Jacobian, vector-Jacobian-product, jit)".  A function
    handed to [grad] is run on traced values: a value together with its
    derivative along one real coordinate of the point of differentiation.
    [conj], [reshape], [real] and indexing are linear and act on both
    parts, a product follows the product rule, a tensor that does not
    depend on the parameters has derivative zero, and [stop_gradient]
    keeps the value and sets the derivative to zero.  [grad] collects, for
    a scalar-valued function, the derivative along every coordinate. *)
Module forward.

Record dual : Type := mkD { primal : tensor; tangent : tensor }.

Definition zeros_like (t : tensor) : tensor := backend.tmap (fun _ => C0) t.

(** A tensor that does not depend on the parameters. *)
Definition constant (t : tensor) : dual := mkD t (zeros_like t).

Definition stop_gradient (x : dual) : dual := mkD (primal x) (zeros_like (primal x)).

Definition conj (x : dual) : dual :=
  mkD (backend.conj (primal x)) (backend.conj (tangent x)).

Definition real (x : dual) : dual :=
  mkD (backend.real (primal x)) (backend.real (tangent x)).

Definition reshape (x : dual) (sh : list Z) : result dual :=
  p <- backend.reshape (primal x) sh ;;
  t <- backend.reshape (tangent x) sh ;;
  Ok (mkD p t).

Definition getitem (x : dual) (i : nat) : result dual :=
  p <- backend.getitem (primal x) i ;;
  t <- backend.getitem (tangent x) i ;;
  Ok (mkD p t).

(** [a @ b]: d(a b) = da b + a db *)
Definition matmul (a b : dual) : result dual :=
  p <- backend.matmul (primal a) (primal b) ;;
  t1 <- backend.matmul (tangent a) (primal b) ;;
  t2 <- backend.matmul (primal a) (tangent b) ;;
  t <- backend.add t1 t2 ;;
  Ok (mkD p t).

Definition sparse_dense_matmul (h : backend.matrix) (b : dual) : result dual :=
  matmul (constant (backend.entries h)) b.

(** The point [x] with the derivative of coordinate [k]. *)
Definition seed (x : tensor) (k : nat) : dual := mkD x (one_hot (tshape x) k).

(** [grad(g)(x)] for a real scalar-valued [g] of real parameters: the
    derivative along every coordinate, in the shape of [x]. *)
Definition grad (g : dual -> result dual) (x : tensor) : result tensor :=
  ds <- mapM (fun k => y <- g (seed x k) ;; Ok (hd C0 (tdata (tangent y))))
             (seq 0 (backend.sizen x)) ;;
  Ok (mkT (tshape x) ds).

Definition dynamics_rhs (f : dual -> dual) (h : backend.matrix) : tensor -> result tensor :=
  fun params =>
    let energy (params : dual) : result dual :=
      let w := f params in
      let wr := stop_gradient w in
      let wl := conj w in
      wl <- reshape wl [1; -1]%Z ;;
      wr <- reshape wr [-1; 1]%Z ;;
      e <- (if negb (backend.is_sparse h)
            then wlh <- matmul wl (constant (backend.entries h)) ;;
                 matmul wlh wr
            else tmp <- sparse_dense_matmul h wr ;;
                 matmul wl tmp) ;;
      e0 <- getitem (real e) 0 ;;
      getitem e0 0 in
    grad energy params.

End forward.

(** p |-> Re (conj(f(p))^T h ket) for a state [ket] that does not depend on
    [p]: the energy of [dynamics_rhs] with the ket held constant. *)
Definition energy_fixed_ket (f : forward.dual -> forward.dual) (h : backend.matrix)
    (ket : tensor) (p : forward.dual) : result forward.dual :=
  let wl := forward.conj (f p) in
  wl <- forward.reshape wl [1; -1]%Z ;;
  wr <- forward.reshape (forward.constant ket) [-1; 1]%Z ;;
  e <- (if negb (backend.is_sparse h)
        then wlh <- forward.matmul wl (forward.constant (backend.entries h)) ;;
             forward.matmul wlh wr
        else tmp <- forward.sparse_dense_matmul h wr ;;
             forward.matmul wl tmp) ;;
  e0 <- forward.getitem (forward.real e) 0 ;;
  forward.getitem e0 0.

(** A traced function of one real parameter: p |-> (p, p^2), with
    derivative (1, 2 p). *)
Definition line_and_square (p : forward.dual) : forward.dual :=
  let x := hd C0 (tdata (forward.primal p)) in
  let dx := hd C0 (tdata (forward.tangent p)) in
  forward.mkD (mkT [2] [x; Cmul x x]) (mkT [2] [dx; Cadd (Cmul dx x) (Cmul x dx)]).

(** ** What the top-level functions return *)

(** A Python object handed back by a top-level function of the module: a
    tensor, or a function still to be called. *)
Inductive pyobj : Type :=
| PyTensor (t : tensor)
| PyFunction (w : list tensor -> result tensor)
| PyWrapper (w : tensor -> result tensor)
| PyGradFunction (w : list tensor -> result grads).



(** [Union[int, Sequence[int]]] as the functions that build the wrappers
    see it.  A list and a tuple are iterated and indexed alike; only a list
    can be added to a list. *)
Inductive pysequence : Type :=
| PyInt (i : nat)
| PyList (l : list nat)
| PyTuple (l : list nat).

Definition as_int_or_seq (a : pysequence) : int_or_seq :=
  match a with
  | PyInt i => AInt i
  | PyList l => ASeq l
  | PyTuple l => ASeq l
  end.

(** The entries of a sequence, in order; of an int, the int. *)
Definition items (a : pysequence) : list nat := as_seq (as_int_or_seq a).

(** [l + r] for a list [l]: "can only concatenate list to list". *)
Definition list_add (l : list nat) (r : pysequence) : result (list nat) :=
  match r with
  | PyList l' => Ok (l ++ l')
  | PyTuple _ => Raise TypeError
  | PyInt _ => Raise TypeError
  end.

(** The functions of the module as they are called: what each one does
    before it returns, and what it returns.  [backend.vmap] and
    [backend.jit] return a callable; [dynamics_matrix] is a [partial] of
    [qng] and takes [mode] by keyword. *)
Module toplevel.
Section Backend.
Variables jacfwd jacrev grad : (tensor -> result tensor) -> tensor -> result tensor.
Variable vjp : (tensor -> result tensor) -> tensor -> tensor -> result (tensor * tensor).
Variable random_split : tensor -> tensor * tensor.
Variable eigh : tensor -> tensor * tensor.

Definition adaptive_vmap f (vectorized_argnums : pysequence) chunk_size : result pyobj :=
  match chunk_size with
  | None => Ok (PyFunction (backend.vmap f (as_int_or_seq vectorized_argnums)))
  | Some chunk_size =>
      let vectorized_argnums :=
        match vectorized_argnums with
        | PyInt i => PyTuple [i]
        | _ => vectorized_argnums
        end in
      Ok (PyFunction (adaptive_vmap f (as_int_or_seq vectorized_argnums) (Some chunk_size)))
  end.
Definition qng f kernel postprocess mode : result pyobj :=
  Ok (PyWrapper (qng jacfwd jacrev f kernel postprocess mode)).
Definition qng2 f kernel postprocess mode : result pyobj :=
  Ok (PyWrapper (qng2 jacfwd jacrev vjp f kernel postprocess mode)).
Definition dynamics_matrix f mode : result pyobj :=
  qng f "dynamics"%string PNone mode.
Definition dynamics_rhs f h : result pyobj :=
  Ok (PyWrapper (dynamics_rhs grad f h)).

(** [vfs = [backend.vmap(f, vectorized_argnums=i) for i in argnums]] *)
Definition parameter_shift_grad (f : pyfun) (argnums : pysequence) (jit : bool)
    (shifts : R * R) : result pyobj :=
  let f' := if jit then backend.jit f else f in
  let argnums' := match argnums with
                  | PyInt i => PyList [i]
                  | _ => argnums
                  end in
  let vfs := map (fun i => backend.vmap f' (AInt i)) (items argnums') in
  Ok (PyGradFunction (parameter_shift_grad f (as_int_or_seq argnums) jit shifts)).

(** The list [vfs] of the second variant, built before [grad_f] exists:
    with random arguments every entry evaluates [[i] + random_argnums]. *)
Definition build_vfs (f : pyfun) (argnums : pysequence) (jit : bool)
    (random_argnums : option pysequence) : result (list pyfun) :=
  let f := if jit then backend.jit f else f in
  let argnums := match argnums with
                 | PyInt i => PyList [i]
                 | _ => argnums
                 end in
  match random_argnums with
  | None => Ok (map (fun i => backend.vmap f (AInt i)) (items argnums))
  | Some random_argnums =>
      let random_argnums := match random_argnums with
                            | PyInt j => PyList [j]
                            | _ => random_argnums
                            end in
      mapM (fun i => vs <- list_add [i] random_argnums ;; Ok (backend.vmap f (ASeq vs)))
           (items argnums)
  end.

(** [grad_f] closes over [vfs]; its embedding [parameter_shift_grad_v2]
    builds the same list again, see [build_vfs_list]. *)
Definition parameter_shift_grad_v2 (f : pyfun) (argnums : pysequence) (jit : bool)
    (random_argnums : option pysequence) (shifts : R * R) : result pyobj :=
  vfs <- build_vfs f argnums jit random_argnums ;;
  Ok (PyGradFunction
        (parameter_shift_grad_v2 random_split f (as_int_or_seq argnums) jit
           (option_map as_int_or_seq random_argnums) shifts)).

Definition hamiltonian_evol tlist h psi0 callback : result pyobj :=
  t <- hamiltonian_evol eigh tlist h psi0 callback ;; Ok (PyTensor t).
End Backend.
End toplevel.

(** ** Concrete inputs *)

Module Examples.

(** The identity on its first argument, and the sum of its entries. *)
Definition first_arg : pyfun := fun args => index_list args 0.
Definition sum_entries : pyfun :=
  fun args => x <- index_list args 0 ;; Ok (scalar (Csum (tdata x))).

Definition one_row : tensor := mkT [1] [C1].
(** Two rows, each a 1 x 2 matrix. *)
Definition matrix_rows : tensor := mkT [2; 1; 2] [C1; C0; C0; C1].
Definition two_entries : tensor := mkT [2] [C1; C0].

(** A two-level state that does not depend on its one parameter, with a
    fixed Jacobian, gradient and vector-Jacobian product. *)
Definition state (params : tensor) : tensor := mkT [2] [C1; C0].
Definition jacobian (f : tensor -> result tensor) (params : tensor) : result tensor :=
  Ok (mkT [2; 1] [C1; Ci]).
Definition gradient (f : tensor -> result tensor) (params : tensor) : result tensor :=
  f params.
Definition pullback (f : tensor -> result tensor) (params ct : tensor)
    : result (tensor * tensor) :=
  y <- f params ;; Ok (y, params).
Definition one_param : tensor := mkT [1] [C1].
Definition no_split (key : tensor) : tensor * tensor := (key, key).
Definition pauli_z : backend.matrix := backend.Dense (mkT [2; 2] [C1; C0; C0; Cneg C1]).

End Examples.

(** ** Notions for the further properties *)

(** The output of [f] on row [k] of a batch, the other arguments [rest]
    passed whole. *)
Definition out_with (f : pyfun) (rest : list tensor) (sh : list nat) (d : list C) (k : nat)
    : tensor :=
  match f (row sh d k :: rest) with
  | Ok o => o
  | Raise _ => scalar C0
  end.

(** The output of [f] on row [k] of two batches. *)
Definition out_pair (f : pyfun) (rest : list tensor) (sh sh' : list nat) (d d' : list C)
    (k : nat) : tensor :=
  match f (row sh d k :: row sh' d' k :: rest) with
  | Ok o => o
  | Raise _ => scalar C0
  end.

(** The sum of the squared moduli of the entries: the square of [norm]. *)
Definition sum_norm2 (t : tensor) : R := fold_right Rplus 0%R (map Cnorm2 (tdata t)).

(** One time step of [hamiltonian_evol] without a callback, as [_evol]
    computes it. *)
Definition evol_row (es u utpsi0 t : tensor) : result tensor :=
  tes <- backend.mul (backend.neg t) es ;;
  ebetah_utpsi0 <- backend.mul (backend.exp tes) utpsi0 ;;
  col <- backend.reshape ebetah_utpsi0 [-1; 1]%Z ;;
  psi_exact <- backend.matmul (backend.conj u) col ;;
  psi_exact <- backend.reshape psi_exact [-1]%Z ;;
  backend.div psi_exact (backend.norm psi_exact).

(** A list with position [i] replaced, and the parameter-shift gradient
    with respect to argument [i]: component [k] is
    (f(.., x + s0 e_k, ..) - f(.., x - s0 e_k, ..)) / s1. *)
Definition update {A : Type} (l : list A) (i : nat) (v : A) : list A :=
  firstn i l ++ v :: skipn (S i) l.

Definition shift_gradient (f : pyfun) (s0 s1 : R) (args : list tensor) (i : nat) : tensor :=
  let a := nth i args (scalar C0) in
  mkT (tshape a)
      (map (fun k => Cdiv (Csub (value_of (f (update args i (shift_by Cadd a s0 k))))
                                (value_of (f (update args i (shift_by Csub a s0 k)))))
                          (RtoC s1))
           (seq 0 (backend.sizen a))).

Module MoreExamples.

(** The sum of the first two arguments, and the sum of their entries. *)
Definition add_args : pyfun :=
  fun args => x <- index_list args 0 ;; y <- index_list args 1 ;; backend.add x y.
Definition sum_two : pyfun :=
  fun args =>
    x <- index_list args 0 ;;
    y <- index_list args 1 ;;
    Ok (scalar (Cadd (Csum (tdata x)) (Csum (tdata y)))).
Definition three_rows : tensor := mkT [3] [C1; C0; C1].
Definition identity_eigh (h : tensor) : tensor * tensor :=
  (mkT [2] [C0; C1], backend.eye 2).

End MoreExamples.

(** * Properties *)

(** ** Lists and the error monad *)

Lemma mapM_Ok {A B : Type} (F : A -> result B) (G : A -> B) (l : list A) :
  (forall a, In a l -> F a = Ok (G a)) -> mapM F l = Ok (map G l).
Proof.
  induction l as [|a l IH]; intros H; simpl.
  - reflexivity.
  - rewrite (H a (or_introl eq_refl)). simpl.
    rewrite IH by (intros; apply H; right; assumption). reflexivity.
Qed.

Lemma mapM_length {A B : Type} (F : A -> result B) (l : list A) (bs : list B) :
  mapM F l = Ok bs -> length bs = length l.
Proof.
  revert bs. induction l as [|a l IH]; intros bs; simpl.
  - intros [= <-]. reflexivity.
  - destruct (F a); simpl; [|discriminate].
    destruct (mapM F l); simpl; [|discriminate].
    intros [= <-]. simpl. f_equal. apply IH. reflexivity.
Qed.

Lemma mapM_Forall2 {A B : Type} (F : A -> result B) (l : list A) (bs : list B) :
  mapM F l = Ok bs -> Forall2 (fun a b => F a = Ok b) l bs.
Proof.
  revert bs. induction l as [|a l IH]; intros bs; simpl.
  - intros [= <-]. constructor.
  - destruct (F a) eqn:Ea; simpl; [|discriminate].
    destruct (mapM F l); simpl; [|discriminate].
    intros [= <-]. constructor; auto.
Qed.

Lemma concat_map_seq_mul {A : Type} (g : nat -> list A) (c s1 : nat) :
  List.concat (map (fun i => List.concat (map g (seq (i * c) c))) (seq 0 s1))
  = List.concat (map g (seq 0 (s1 * c))).
Proof.
  induction s1 as [|s1 IH].
  - reflexivity.
  - rewrite seq_S, map_app, concat_app, IH. simpl.
    replace (c + s1 * c) with (s1 * c + c) by lia.
    rewrite seq_app, map_app, concat_app, app_nil_r. reflexivity.
Qed.

Lemma map_seq_shift_from {A : Type} (g : nat -> A) (j s k : nat) :
  map (fun b => g (j + b)) (seq s k) = map g (seq (j + s) k).
Proof.
  revert s. induction k as [|k IH]; intros s; simpl.
  - reflexivity.
  - f_equal. rewrite IH, Nat.add_succ_r. reflexivity.
Qed.

Lemma map_seq_shift {A : Type} (g : nat -> A) (j k : nat) :
  map (fun b => g (j + b)) (seq 0 k) = map g (seq j k).
Proof. rewrite map_seq_shift_from, Nat.add_0_r. reflexivity. Qed.

Lemma getitem_row n sh d k :
  k < n -> backend.getitem (mkT (n :: sh) d) k = Ok (row sh d k).
Proof.
  intros H. unfold backend.getitem. simpl tshape. cbv beta iota.
  destruct (Nat.ltb_spec k n); [reflexivity | lia].
Qed.

Lemma row_block sh d a j b :
  b < a ->
  row sh (firstn (a * prod sh) (skipn (j * prod sh) d)) b = row sh d (j + b).
Proof.
  intros H. unfold row. f_equal.
  rewrite skipn_firstn_comm, firstn_firstn, skipn_skipn.
  f_equal; [| f_equal]; nia.
Qed.

Lemma row_skip sh d j b :
  row sh (skipn (j * prod sh) d) b = row sh d (j + b).
Proof.
  unfold row. f_equal. rewrite skipn_skipn. f_equal. f_equal. lia.
Qed.

(** ** Reshape, stack and vmap on one argument *)

Lemma existsb_of_nat sh : existsb (fun d => (d <? -1)%Z) (map Z.of_nat sh) = false.
Proof.
  induction sh as [|n sh IH]; simpl; [reflexivity|].
  rewrite IH. destruct (Z.ltb_spec (Z.of_nat n) (-1)); [lia | reflexivity].
Qed.

Lemma count_occ_of_nat sh : count_occ Z.eq_dec (map Z.of_nat sh) (-1)%Z = 0.
Proof.
  induction sh as [|n sh IH]; simpl; [reflexivity|].
  destruct (Z.eq_dec (Z.of_nat n) (-1)); [lia | assumption].
Qed.

Lemma to_nat_of_nat sh : map Z.to_nat (map Z.of_nat sh) = sh.
Proof.
  rewrite map_map. rewrite <- (map_id sh) at 2.
  apply map_ext. intros. apply Nat2Z.id.
Qed.

Lemma reshape_of_nat t sh :
  backend.reshape t (map Z.of_nat sh)
  = if prod sh =? backend.sizen t then Ok (mkT sh (tdata t)) else Raise BackendError.
Proof.
  unfold backend.reshape.
  rewrite existsb_of_nat, count_occ_of_nat, to_nat_of_nat. reflexivity.
Qed.

Lemma stack_uniform (l : list tensor) (osh : list nat) :
  l <> [] -> (forall t, In t l -> tshape t = osh) ->
  backend.stack l = Ok (mkT (length l :: osh) (List.concat (map tdata l))).
Proof.
  intros Hne Hsh. destruct l as [|t0 l]; [congruence|].
  unfold backend.stack.
  rewrite (proj2 (forallb_forall _ _)).
  - rewrite (Hsh t0 (or_introl eq_refl)). reflexivity.
  - intros t Ht. rewrite (Hsh t Ht), (Hsh t0 (or_introl eq_refl)).
    destruct (shape_eq_dec osh osh); [reflexivity | congruence].
Qed.

Lemma vmap_single (f : pyfun) va k sh d (g : nat -> tensor) :
  as_seq va = [0] ->
  (forall b, b < k -> f [row sh d b] = Ok (g b)) ->
  backend.vmap f va [mkT (k :: sh) d] = backend.stack (map g (seq 0 k)).
Proof.
  intros Hva Hf. unfold backend.vmap. rewrite Hva.
  cbn [index_list nth_error bind backend.shape0 tshape].
  erewrite mapM_Ok; [reflexivity|].
  intros b Hb. apply in_seq in Hb.
  cbn [enumerate length seq combine mapM mem existsb Nat.eqb orb bind].
  rewrite getitem_row by lia. cbn [bind]. apply Hf. lia.
Qed.

Lemma divmod_pos n c : 1 <= c -> divmod n c = Ok (n / c, n mod c).
Proof.
  intros H. unfold divmod. destruct (Nat.eqb_spec c 0); [lia | reflexivity].
Qed.

Lemma chunk_call (f : pyfun) (c s1 : nat) (sh osh : list nat) (D : list C)
    (g : nat -> tensor) (i : nat) :
  1 <= c -> i < s1 ->
  (forall k, k < s1 * c -> f [row sh D k] = Ok (g k) /\ tshape (g k) = osh) ->
  (nreshape_args <- mapM (fun '(j, a) =>
       if mem j [0] then backend.getitem a i else Ok a)
     (enumerate [mkT (s1 :: c :: sh) D]) ;;
   backend.vmap f (ASeq [0]) nreshape_args)
  = Ok (chunk_outputs g c osh i).
Proof.
  intros Hc Hi Hg.
  cbn [enumerate length seq combine mapM mem existsb Nat.eqb orb bind].
  rewrite getitem_row by assumption. cbn [bind].
  unfold row at 1. change (prod (c :: sh)) with (c * prod sh).
  rewrite (vmap_single f (ASeq [0]) c sh _ (fun b => g (i * c + b)) eq_refl).
  - rewrite (stack_uniform _ osh).
    + rewrite length_map, length_seq. unfold chunk_outputs.
      rewrite (map_seq_shift g (i * c) c). reflexivity.
    + destruct c; [lia | discriminate].
    + intros t Ht. apply in_map_iff in Ht. destruct Ht as [b [<- Hb]].
      apply in_seq in Hb. apply Hg. nia.
  - intros b Hb.
    replace (i * (c * prod sh)) with ((i * c) * prod sh) by lia.
    rewrite row_block by assumption. apply Hg. nia.
Qed.

Lemma reshape_merge (s1 c : nat) (osh : list nat) (D : list C) :
  1 <= c -> 1 <= s1 -> length osh <= 1 ->
  backend.reshape (mkT (s1 :: c :: osh) D)
    (if length (s1 :: c :: osh) =? 2
     then [Z.of_nat (s1 * c)]
     else [Z.of_nat (s1 * c); (-1)%Z])
  = Ok (mkT (s1 * c :: osh) D).
Proof.
  intros Hc Hs1 Hosh.
  destruct osh as [|d0 [|d1 osh]]; [| | simpl in Hosh; lia].
  - cbn [length Nat.eqb].
    rewrite (reshape_of_nat _ [s1 * c]).
    unfold backend.sizen. cbn [tshape prod fold_right tdata].
    destruct (Nat.eqb_spec (s1 * c * 1) (s1 * (c * 1))); [reflexivity | lia].
  - cbn [length Nat.eqb].
    unfold backend.reshape, backend.sizen.
    cbn [tshape tdata prod fold_right existsb count_occ filter map negb orb].
    assert (Hk : s1 * c <> 0) by nia.
    destruct (Z.ltb_spec (Z.of_nat (s1 * c)) (-1)); [lia|].
    cbn [orb Z.ltb Z.compare].
    destruct (Z.eq_dec (Z.of_nat (s1 * c)) (-1)); [lia|].
    destruct (Z.eq_dec (-1) (-1)); [|congruence].
    destruct (Z.eqb_spec (Z.of_nat (s1 * c)) (-1)); [lia|].
    cbn [negb Z.eqb Pos.eqb map prod fold_right].
    rewrite Nat2Z.id, Nat.mul_1_r.
    replace (s1 * (c * (d0 * 1))) with (d0 * (s1 * c)) by lia.
    rewrite Nat.Div0.mod_mul, Nat.div_mul by assumption.
    destruct (Nat.eqb_spec (s1 * c) 0); [lia|].
    reflexivity.
Qed.

Lemma row_firstn sh d a b :
  b < a -> row sh (firstn (a * prod sh) d) b = row sh d b.
Proof. intros H. apply (row_block sh d a 0 b H). Qed.

Lemma chunk_pipeline (f : pyfun) (c s1 : nat) (sh osh : list nat) (D : list C)
    (g : nat -> tensor) :
  1 <= c -> 1 <= s1 -> length osh <= 1 ->
  (forall k, k < s1 * c -> f [row sh D k] = Ok (g k) /\ tshape (g k) = osh) ->
  mapM (fun i =>
          nreshape_args <- mapM (fun '(j, a) =>
              if mem j [0] then backend.getitem a i else Ok a)
            (enumerate [mkT (s1 :: c :: sh) D]) ;;
          backend.vmap f (ASeq [0]) nreshape_args)
       (seq 0 s1)
  = Ok (map (chunk_outputs g c osh) (seq 0 s1))
  /\ backend.stack (map (chunk_outputs g c osh) (seq 0 s1))
     = Ok (mkT (s1 :: c :: osh) (concat (map tdata (map g (seq 0 (s1 * c)))))).
Proof.
  intros Hc Hs1 Hosh Hg. split.
  - apply mapM_Ok. intros i Hi. apply in_seq in Hi.
    apply (chunk_call f c s1 sh osh D g i); [assumption | lia | assumption].
  - rewrite (stack_uniform _ (c :: osh)).
    + rewrite length_map, length_seq, map_map. cbn [chunk_outputs tdata].
      do 2 f_equal. rewrite (map_map g tdata).
      rewrite <- (concat_map_seq_mul (fun k => tdata (g k)) c s1).
      f_equal. apply map_ext. intros i. rewrite map_map. reflexivity.
    + destruct s1; [lia | discriminate].
    + intros t Ht. apply in_map_iff in Ht. destruct Ht as [i [<- _]]. reflexivity.
Qed.

(** With at least [chunk_size] rows and a function whose outputs are
    scalars or vectors of one shape, the chunked wrapper and the plain vmap
    agree: full chunks first, the remaining rows in one more call, in the
    original order. *)
Theorem adaptive_vmap_chunks (f : pyfun) (c n : nat) (sh osh : list nat) (d : list C) :
  1 <= c -> c <= n -> length osh <= 1 ->
  (forall k r, backend.getitem (mkT (n :: sh) d) k = Ok r ->
               exists o, f [r] = Ok o /\ tshape o = osh) ->
  adaptive_vmap f (AInt 0) (Some c) [mkT (n :: sh) d]
  = backend.vmap f (AInt 0) [mkT (n :: sh) d]
  /\ exists out, backend.vmap f (AInt 0) [mkT (n :: sh) d] = Ok out.
Proof.
  intros Hc Hn Hosh Hf.
  assert (Hg : forall k, k < n ->
             f [row sh d k] = Ok (out_of f sh d k) /\ tshape (out_of f sh d k) = osh).
  { intros k Hk. destruct (Hf k (row sh d k) (getitem_row n sh d k Hk)) as [o [Ho Hs]].
    unfold out_of. rewrite Ho. auto. }
  set (g := out_of f sh d) in *.
  (* the plain vmap *)
  rewrite (vmap_single f (AInt 0) n sh d g eq_refl) by (intros; apply Hg; assumption).
  rewrite (stack_uniform (map g (seq 0 n)) osh).
  2:{ destruct n; [lia | discriminate]. }
  2:{ intros t Ht. apply in_map_iff in Ht. destruct Ht as [k [<- Hk]].
      apply in_seq in Hk. apply Hg. lia. }
  rewrite length_map, length_seq.
  split; [| eexists; reflexivity].
  (* the chunked one *)
  unfold adaptive_vmap.
  cbn [as_seq index_list nth_error bind backend.shape0 tshape].
  rewrite divmod_pos by assumption. cbn [bind].
  set (s1 := n / c). set (s2 := n mod c).
  assert (Hdiv : n = s1 * c + s2)
    by (unfold s1, s2; rewrite Nat.mul_comm; apply Nat.div_mod_eq).
  assert (Hs2 : s2 < c) by (apply Nat.mod_upper_bound; lia).
  assert (Hs1 : 1 <= s1) by (unfold s1; apply Nat.div_le_lower_bound; lia).
  cbn [enumerate length seq combine mapM bind].
  change (mem 0 [0]) with true. cbv iota.
  destruct (Nat.eqb_spec s2 0) as [Hz | Hnz]; cbn [negb bind].
  - (* no rest *)
    cbn [backend.shape_tuple tshape tl].
    rewrite reshape_of_nat. unfold backend.sizen. cbn [tshape tdata].
    destruct (Nat.eqb_spec (prod (s1 :: c :: sh)) (prod (n :: sh))) as [_ | Hne];
      [| exfalso; apply Hne; cbn [prod fold_right]; nia].
    cbn [bind map fst].
    destruct (chunk_pipeline f c s1 sh osh d g Hc Hs1 Hosh) as [Hloop Hstack].
    { intros k Hk. apply Hg. nia. }
    rewrite Hloop. cbn [bind]. rewrite Hstack. cbn [bind].
    cbn [backend.shape_tuple tshape index_list nth_error bind].
    rewrite (reshape_merge s1 c osh _ Hc Hs1 Hosh). cbn [bind].
    replace (s1 * c) with n by lia. reflexivity.
  - (* a rest of s2 rows *)
    unfold backend.slice_last, backend.slice_init.
    cbn [tshape tdata bind backend.shape_tuple tl].
    replace (n - (n - s2)) with s2 by lia.
    replace (n - s2) with (s1 * c) by lia.
    rewrite reshape_of_nat. unfold backend.sizen. cbn [tshape tdata].
    destruct (Nat.eqb_spec (prod (s1 :: c :: sh)) (prod (s1 * c :: sh))) as [_ | Hne];
      [| exfalso; apply Hne; cbn [prod fold_right]; nia].
    cbn [bind map fst flat_map snd app].
    destruct (chunk_pipeline f c s1 sh osh (firstn (s1 * c * prod sh) d) g Hc Hs1 Hosh)
      as [Hloop Hstack].
    { intros k Hk. rewrite row_firstn by assumption. apply Hg. nia. }
    rewrite Hloop. cbn [bind]. rewrite Hstack. cbn [bind].
    cbn [backend.shape_tuple tshape index_list nth_error bind].
    rewrite (reshape_merge s1 c osh _ Hc Hs1 Hosh). cbn [bind].
    rewrite (vmap_single f (ASeq [0]) s2 sh _ (fun b => g (s1 * c + b)) eq_refl).
    2:{ intros b Hb. rewrite row_skip. apply Hg. nia. }
    rewrite (stack_uniform _ osh).
    2:{ destruct s2; [lia | discriminate]. }
    2:{ intros t Ht. apply in_map_iff in Ht. destruct Ht as [b [<- Hb]].
        apply in_seq in Hb. apply Hg. nia. }
    rewrite length_map, length_seq. cbn [bind].
    unfold backend.concat. cbn [tshape forallb andb].
    destruct (shape_eq_dec osh osh) as [_ | Hne]; [| congruence].
    cbn [andb map backend.lead hd tshape fold_right tdata concat].
    rewrite app_nil_r, Nat.add_0_r, <- Hdiv.
    rewrite (map_seq_shift g (s1 * c) s2).
    rewrite <- concat_app, <- !map_app, <- seq_app, <- Hdiv. reflexivity.
Qed.

Lemma bind_Ok_inv {A B : Type} (m : result A) (k : A -> result B) (b : B) :
  bind m k = Ok b -> exists a, m = Ok a /\ k a = Ok b.
Proof. destruct m; simpl; [eauto | discriminate]. Qed.

Lemma reshape_of_nat_shape t sh t' :
  backend.reshape t (map Z.of_nat sh) = Ok t' -> tshape t' = sh.
Proof.
  rewrite reshape_of_nat. destruct (prod sh =? backend.sizen t); [|discriminate].
  intros [= <-]. reflexivity.
Qed.

Ltac bind_inv H :=
  let v := fresh "v" in
  let E := fresh "E" in
  apply bind_Ok_inv in H; destruct H as [v [E H]];
  match type of v with
  | (_ * _)%type => destruct v
  | _ => idtac
  end.

Lemma grads_arity (argnums : list nat) (grad_values : list tensor) (res : grads) :
  length grad_values = length argnums ->
  (if 1 <? length argnums
   then Ok (Tuple grad_values)
   else g <- index_list grad_values 0 ;; Ok (Single g)) = Ok res ->
  match res with
  | Tuple gs => 1 < length argnums /\ gs = grad_values
  | Single g => length argnums = 1 /\ grad_values = [g]
  end.
Proof.
  intros Hlen. destruct (Nat.ltb_spec 1 (length argnums)) as [Hl | Hl].
  - intros [= <-]. auto.
  - destruct grad_values as [|g [|g' gs]]; simpl in *.
    + discriminate.
    + intros [= <-]. split; [lia | reflexivity].
    + lia.
Qed.

Lemma parameter_shift_grad_shape_arity (f : pyfun) (argnums : int_or_seq) (jit : bool)
    (shifts : R * R) (args : list tensor) (res : grads) :
  parameter_shift_grad f argnums jit shifts args = Ok res ->
  shape_and_arity args argnums res.
Proof.
  unfold parameter_shift_grad. intros H.
  apply bind_Ok_inv in H. destruct H as [gvs [Hloop Hret]].
  pose proof (mapM_length _ _ _ Hloop) as Hlen.
  apply mapM_Forall2 in Hloop.
  assert (Hsh : shapes_match args (as_seq argnums) gvs).
  { eapply Forall2_impl; [| exact Hloop]. intros i g Hi. cbv beta in Hi.
    unfold index_list in Hi at 1.
    destruct (nth_error args i) as [a|] eqn:Ea; [|discriminate].
    cbn [bind] in Hi. repeat bind_inv Hi.
    exists a. split; [reflexivity|].
    apply reshape_of_nat_shape in Hi. exact Hi. }
  apply grads_arity in Hret; [| assumption].
  unfold shape_and_arity. destruct res as [g | gs].
  - destruct Hret as [Hl ->]. auto.
  - destruct Hret as [Hl ->]. auto.
Qed.

Lemma parameter_shift_grad_v2_shape_arity (random_split : tensor -> tensor * tensor)
    (f : pyfun) (argnums : int_or_seq) (jit : bool) (random_argnums : option int_or_seq)
    (shifts : R * R) (args : list tensor) (res : grads) :
  parameter_shift_grad_v2 random_split f argnums jit random_argnums shifts args = Ok res ->
  shape_and_arity args argnums res.
Proof.
  unfold parameter_shift_grad_v2. intros H.
  apply bind_Ok_inv in H. destruct H as [gvs [Hloop Hret]].
  pose proof (mapM_length _ _ _ Hloop) as Hlen.
  apply mapM_Forall2 in Hloop.
  assert (Hsh : shapes_match args (as_seq argnums) gvs).
  { eapply Forall2_impl; [| exact Hloop]. intros i g Hi. cbv beta in Hi.
    unfold index_list in Hi at 1.
    destruct (nth_error args i) as [a|] eqn:Ea; [|discriminate].
    cbn [bind] in Hi. repeat bind_inv Hi.
    exists a. split; [reflexivity|].
    apply reshape_of_nat_shape in Hi. exact Hi. }
  apply grads_arity in Hret; [| assumption].
  unfold shape_and_arity. destruct res as [g | gs].
  - destruct Hret as [Hl ->]. auto.
  - destruct Hret as [Hl ->]. auto.
Qed.

(** ** Blocks of a flat list *)

Lemma block_of_concat_from {A : Type} (F : nat -> list A) (m n s b : nat) :
  (forall i, length (F i) = m) -> b < n ->
  firstn m (skipn (b * m) (concat (map F (seq s n)))) = F (s + b).
Proof.
  intros HF. revert s b. induction n as [|n IH]; intros s b Hb; [lia|].
  cbn [seq map concat]. destruct b as [|b].
  - cbn [Nat.mul skipn]. rewrite firstn_app, HF, Nat.sub_diag, firstn_0, app_nil_r.
    rewrite <- (HF s), firstn_all, Nat.add_0_r. reflexivity.
  - rewrite skipn_app, HF.
    replace (S b * m - m) with (b * m) by lia.
    rewrite (skipn_all2 (F s)) by (rewrite HF; lia).
    cbn [app]. rewrite IH by lia. f_equal. lia.
Qed.

Lemma block_of_concat {A : Type} (F : nat -> list A) (m n b : nat) :
  (forall i, length (F i) = m) -> b < n ->
  firstn m (skipn (b * m) (concat (map F (seq 0 n)))) = F b.
Proof. intros HF Hb. apply (block_of_concat_from F m n 0 b HF Hb). Qed.

Lemma chunks_concat {A : Type} (m n : nat) (d : list A) :
  length d = n * m ->
  concat (map (fun k => firstn m (skipn (k * m) d)) (seq 0 n)) = d.
Proof.
  revert d. induction n as [|n IH]; intros d Hd.
  - destruct d; [reflexivity | discriminate].
  - cbn [seq map concat Nat.mul skipn]. rewrite <- seq_shift, map_map.
    transitivity (firstn m d ++ skipn m d); [| apply firstn_skipn]. f_equal.
    rewrite <- (IH (skipn m d)) by (rewrite length_skipn; lia).
    f_equal. apply map_ext. intros k. rewrite skipn_skipn. do 2 f_equal. lia.
Qed.

Lemma combine_skipn {A B : Type} (n : nat) (l : list A) (l' : list B) :
  skipn n (combine l l') = combine (skipn n l) (skipn n l').
Proof.
  revert l l'. induction n as [|n IH]; intros l l'; [reflexivity|].
  destruct l as [|a l]; [reflexivity|].
  destruct l' as [|b l']; [cbn; rewrite combine_nil; reflexivity|].
  apply IH.
Qed.

Lemma block_zip_with (op : C -> C -> C) (a b : list C) (m k : nat) :
  firstn m (skipn k (backend.zip_with op a b))
  = backend.zip_with op (firstn m (skipn k a)) (firstn m (skipn k b)).
Proof.
  unfold backend.zip_with.
  rewrite skipn_map, firstn_map, combine_skipn, combine_firstn. reflexivity.
Qed.

Lemma repeat_as_map {A : Type} (x : A) (n : nat) :
  repeat x n = map (fun _ => x) (seq 0 n).
Proof.
  induction n as [|n IH]; [reflexivity|].
  cbn [repeat seq map]. rewrite <- seq_shift, map_map. f_equal. exact IH.
Qed.

Lemma tile_data_ones (sh : list nat) (d : list C) :
  length d = prod sh ->
  backend.tile_data sh (map (fun _ => 1) sh) d = d.
Proof.
  revert d. induction sh as [|n sh IH]; intros d Hd; [reflexivity|].
  cbn [map backend.tile_data repeat concat]. rewrite app_nil_r.
  transitivity (concat (map (fun k => firstn (prod sh) (skipn (k * prod sh) d)) (seq 0 n)));
    [| apply chunks_concat; exact Hd].
  f_equal. apply map_ext_in. intros k Hk. apply in_seq in Hk.
  apply IH. rewrite length_firstn, length_skipn.
  cbn [prod fold_right] in Hd. change (fold_right Nat.mul 1 sh) with (prod sh) in Hd. nia.
Qed.

Lemma tile_shape (sh : list nat) (size : nat) :
  map (fun p => fst p * snd p) (combine (1 :: sh) (size :: map (fun _ => 1) sh))
  = size :: sh.
Proof.
  cbn [combine map fst snd]. rewrite Nat.mul_1_l. f_equal.
  induction sh as [|n sh IH]; [reflexivity|].
  cbn [map combine fst snd]. rewrite Nat.mul_1_r, IH. reflexivity.
Qed.

(** ** vmap over the first argument *)

Lemma slices_tail (vs : list nat) (rest : list tensor) (s b : nat) :
  (forall j, s <= j -> mem j vs = false) ->
  mapM (fun '(j, a) => if mem j vs then backend.getitem a b else Ok a)
       (combine (seq s (length rest)) rest) = Ok rest.
Proof.
  revert s. induction rest as [|a rest IH]; intros s Hs; [reflexivity|].
  cbn [length seq combine mapM]. rewrite (Hs s (le_n s)). cbn [bind].
  rewrite IH by (intros j Hj; apply Hs; lia). reflexivity.
Qed.

Lemma vmap_first (f : pyfun) va k sh d rest (g : nat -> tensor) :
  as_seq va = [0] ->
  (forall b, b < k -> f (row sh d b :: rest) = Ok (g b)) ->
  backend.vmap f va (mkT (k :: sh) d :: rest) = backend.stack (map g (seq 0 k)).
Proof.
  intros Hva Hf. unfold backend.vmap. rewrite Hva.
  cbn [index_list nth_error bind backend.shape0 tshape].
  erewrite mapM_Ok; [reflexivity|].
  intros b Hb. apply in_seq in Hb.
  cbn [enumerate length seq combine mapM bind].
  change (mem 0 [0]) with true. cbv iota.
  rewrite getitem_row by lia. cbn [bind].
  rewrite slices_tail.
  - cbn [bind]. apply Hf. lia.
  - intros j Hj. destruct j; [lia | reflexivity].
Qed.

Lemma binop_same_shape (op : C -> C -> C) (a b : tensor) :
  tshape a = tshape b ->
  backend.binop op a b = Ok (mkT (tshape a) (backend.zip_with op (tdata a) (tdata b))).
Proof.
  intros H. unfold backend.binop.
  destruct (shape_eq_dec (tshape a) (tshape b)); [reflexivity | contradiction].
Qed.

Lemma add_one_hot (x : tensor) (s0 : R) (k : nat) :
  backend.add x (backend.scale s0 (one_hot (tshape x) k)) = Ok (shift_by Cadd x s0 k).
Proof. unfold backend.add. rewrite binop_same_shape; reflexivity. Qed.

Lemma sub_one_hot (x : tensor) (s0 : R) (k : nat) :
  backend.sub x (backend.scale s0 (one_hot (tshape x) k)) = Ok (shift_by Csub x s0 k).
Proof. unfold backend.sub. rewrite binop_same_shape; reflexivity. Qed.

Lemma eye_block (n b : nat) :
  b < n ->
  firstn n (skipn (b * n) (tdata (backend.eye n)))
  = map (fun j => if b =? j then C1 else C0) (seq 0 n).
Proof.
  intros Hb. cbn [backend.eye tdata]. rewrite flat_map_concat_map.
  apply (block_of_concat (fun i => map (fun j => if i =? j then C1 else C0) (seq 0 n)) n n b);
    [| exact Hb].
  intros i. rewrite length_map, length_seq. reflexivity.
Qed.

Lemma shifted_row (op : C -> C -> C) (x : tensor) (s0 : R) (k : nat) :
  wf x -> k < backend.sizen x ->
  row (tshape x)
      (backend.zip_with op
         (concat (repeat (tdata x) (backend.sizen x)))
         (map (Cmul (RtoC s0)) (tdata (backend.eye (backend.sizen x))))) k
  = shift_by op x s0 k.
Proof.
  intros Hwf Hk. unfold row, shift_by, backend.sizen in *. f_equal.
  rewrite block_zip_with. f_equal.
  - rewrite repeat_as_map.
    apply (block_of_concat (fun _ => tdata x) (prod (tshape x)) (prod (tshape x)) k);
      [intros _; exact Hwf | exact Hk].
  - rewrite skipn_map, firstn_map, eye_block by exact Hk. reflexivity.
Qed.

Lemma concat_scalars (y : nat -> C) (l : list nat) :
  concat (map tdata (map (fun b => scalar (y b)) l)) = map y l.
Proof.
  induction l as [|a l IH]; [reflexivity|].
  cbn [map concat scalar tdata app]. f_equal. exact IH.
Qed.

Lemma zip_with_map (op : C -> C -> C) (y z : nat -> C) (l : list nat) :
  backend.zip_with op (map y l) (map z l) = map (fun k => op (y k) (z k)) l.
Proof.
  unfold backend.zip_with. induction l as [|a l IH]; [reflexivity|].
  cbn [map combine fst snd]. f_equal. exact IH.
Qed.

(** Differentiating the first argument: component [k] of the gradient is
    (f(x + s0 e_k) - f(x - s0 e_k)) / s1, in the shape of [x]. *)
Theorem parameter_shift_grad_formula (f : pyfun) (jit : bool) (s0 s1 : R)
    (x : tensor) (rest : list tensor) :
  wf x ->
  (forall k, k < backend.sizen x ->
     exists yp ym, f (shift_by Cadd x s0 k :: rest) = Ok (scalar yp)
                /\ f (shift_by Csub x s0 k :: rest) = Ok (scalar ym)) ->
  1 <= backend.sizen x ->
  parameter_shift_grad f (AInt 0) jit (s0, s1) (x :: rest)
  = Ok (Single (mkT (tshape x)
          (map (fun k => Cdiv (Csub (value_of (f (shift_by Cadd x s0 k :: rest)))
                                    (value_of (f (shift_by Csub x s0 k :: rest))))
                              (RtoC s1))
               (seq 0 (backend.sizen x))))).
Proof.
  intros Hwf Hf Hsize.
  set (yp := fun k => value_of (f (shift_by Cadd x s0 k :: rest))).
  set (ym := fun k => value_of (f (shift_by Csub x s0 k :: rest))).
  assert (Hp : forall k, k < backend.sizen x ->
             f (shift_by Cadd x s0 k :: rest) = Ok (scalar (yp k))).
  { intros k Hk. destruct (Hf k Hk) as [a [b [Ha Hb]]]. unfold yp. rewrite Ha. reflexivity. }
  assert (Hm : forall k, k < backend.sizen x ->
             f (shift_by Csub x s0 k :: rest) = Ok (scalar (ym k))).
  { intros k Hk. destruct (Hf k Hk) as [a [b [Ha Hb]]]. unfold ym. rewrite Hb. reflexivity. }
  unfold parameter_shift_grad.
  replace (if jit then backend.jit f else f) with f by (destruct jit; reflexivity).
  cbn [as_seq map mapM index_list nth_error bind fst snd length Nat.ltb Nat.leb].
  cbv zeta. unfold backend.cast, backend.shape_tuple.
  set (size := backend.sizen x) in *.
  repeat match goal with
  | |- context [Z.of_nat ?n :: map Z.of_nat ?sh] =>
      change (Z.of_nat n :: map Z.of_nat sh) with (map Z.of_nat (n :: sh))
  end.
  rewrite !reshape_of_nat.
  unfold backend.sizen at 1. cbn [backend.eye tshape].
  destruct (Nat.eqb_spec (prod (size :: tshape x)) (prod [size; size])) as [_ | Hne];
    [| exfalso; apply Hne; cbn [prod fold_right]; unfold size, backend.sizen, prod; lia].
  cbn [bind].
  destruct (Nat.eqb_spec (prod (1 :: tshape x)) (backend.sizen x)) as [_ | Hne];
    [| exfalso; apply Hne; cbn [prod fold_right]; unfold backend.sizen, prod; lia].
  cbn [bind]. unfold backend.tile. cbn [tshape tdata length].
  rewrite length_map, Nat.eqb_refl, tile_shape.
  cbn [backend.tile_data seq map concat Nat.mul skipn].
  rewrite app_nil_r, tile_data_ones
    by (rewrite firstn_all2; [exact Hwf | rewrite Hwf; apply le_n]).
  rewrite firstn_all2 by (rewrite Hwf; apply le_n).
  cbn [bind]. unfold backend.add, backend.sub.
  rewrite !binop_same_shape by reflexivity.
  cbn [bind tshape tdata backend.scale backend.tmap setitem_list].
  rewrite (vmap_first f (AInt 0) size (tshape x) _ rest (fun b => scalar (yp b)) eq_refl).
  2:{ intros b Hb. unfold size in *. rewrite (shifted_row Cadd x s0 b Hwf Hb). apply Hp. exact Hb. }
  rewrite (stack_uniform _ []).
  2:{ destruct size; [lia | discriminate]. }
  2:{ intros t Ht. apply in_map_iff in Ht. destruct Ht as [b [<- _]]. reflexivity. }
  cbn [bind].
  rewrite (vmap_first f (AInt 0) size (tshape x) _ rest (fun b => scalar (ym b)) eq_refl).
  2:{ intros b Hb. unfold size in *. rewrite (shifted_row Csub x s0 b Hwf Hb). apply Hm. exact Hb. }
  rewrite (stack_uniform _ []).
  2:{ destruct size; [lia | discriminate]. }
  2:{ intros t Ht. apply in_map_iff in Ht. destruct Ht as [b [<- _]]. reflexivity. }
  cbn [bind]. rewrite binop_same_shape by (cbn [tshape]; rewrite !length_map; reflexivity).
  cbn [bind tshape tdata]. rewrite !concat_scalars, zip_with_map.
  unfold backend.div_float, backend.tmap. cbn [tshape tdata].
  rewrite reshape_of_nat. unfold backend.sizen at 1. cbn [tshape].
  rewrite length_map, length_seq.
  destruct (Nat.eqb_spec (prod (tshape x)) (prod [size])) as [_ | Hne];
    [| exfalso; apply Hne; cbn [prod fold_right]; unfold size, backend.sizen, prod; lia].
  cbn [bind tdata]. rewrite map_map. reflexivity.
Qed.

(** ** Complex arithmetic *)

Lemma C_eq (a b : C) : fst a = fst b -> snd a = snd b -> a = b.
Proof. destruct a, b; simpl; intros -> ->; reflexivity. Qed.

Lemma Cconj_add a b : Cconj (Cadd a b) = Cadd (Cconj a) (Cconj b).
Proof. apply C_eq; simpl; lra. Qed.

Lemma Cconj_sub a b : Cconj (Csub a b) = Csub (Cconj a) (Cconj b).
Proof. apply C_eq; simpl; lra. Qed.

Lemma Cconj_mul a b : Cconj (Cmul a b) = Cmul (Cconj a) (Cconj b).
Proof. apply C_eq; simpl; lra. Qed.

Lemma Cconj_conj a : Cconj (Cconj a) = a.
Proof. apply C_eq; simpl; lra. Qed.

Lemma Cmul_comm a b : Cmul a b = Cmul b a.
Proof. apply C_eq; simpl; lra. Qed.

Lemma Cconj_0 : Cconj C0 = C0.
Proof. apply C_eq; simpl; lra. Qed.

Lemma inner_conj (a b : list C) : Cconj (inner a b) = inner b a.
Proof.
  unfold inner, backend.zip_with. revert b.
  induction a as [|x a IH]; intros [|y b]; cbn [combine map Csum fold_right fst snd];
    try apply Cconj_0.
  rewrite Cconj_add, Cconj_mul, Cconj_conj, IH. f_equal. apply Cmul_comm.
Qed.

Lemma length_column J d n i : length (column J d n i) = d.
Proof. unfold column. rewrite length_map, length_seq. reflexivity. Qed.

Lemma zip_with_nth (op : C -> C -> C) (A B : list C) :
  length A = length B ->
  backend.zip_with op A B
  = map (fun m => op (nth m A C0) (nth m B C0)) (seq 0 (length A)).
Proof.
  unfold backend.zip_with. revert B.
  induction A as [|x A IH]; intros [|y B] H; try discriminate; [reflexivity|].
  cbn [combine map length seq fst snd nth]. f_equal.
  rewrite <- seq_shift, map_map. apply IH. simpl in H. lia.
Qed.

Lemma vdot_sum (A B : list C) (d : nat) :
  length A = d -> length B = d ->
  map (fun m => Cmul (nth (0 * d + m) (map Cconj A) C0) (nth (m * 1 + 0) B C0)) (seq 0 d)
  = backend.zip_with (fun x y => Cmul (Cconj x) y) A B.
Proof.
  intros HA HB. rewrite zip_with_nth by congruence. rewrite HA.
  apply map_ext. intros m. rewrite Nat.mul_1_r, Nat.add_0_r. cbn [Nat.mul Nat.add].
  f_equal. rewrite <- (map_nth Cconj A C0 m), Cconj_0. reflexivity.
Qed.

Lemma vdot_vectors (A B : list C) (d : nat) :
  length A = d -> length B = d ->
  _vdot (mkT [d] A) (mkT [d] B) = Ok (scalar (inner A B)).
Proof.
  intros HA HB. unfold _vdot, backend.tensordot1, backend.conj, backend.tmap.
  cbn [tshape tdata rev app]. rewrite Nat.eqb_refl.
  cbn [prod fold_right seq flat_map map app].
  rewrite (vdot_sum A B d HA HB). reflexivity.
Qed.

(** ** Transposing a matrix *)

Lemma indices_1d (d : nat) : backend.indices [d] = map (fun j => [j]) (seq 0 d).
Proof.
  cbn [backend.indices]. induction (seq 0 d) as [|a l IH]; [reflexivity|].
  simpl in *. rewrite IH. reflexivity.
Qed.

Lemma transpose_matrix (J : list C) (d n : nat) :
  backend.transpose (mkT [d; n] J)
  = mkT [n; d] (concat (map (column J d n) (seq 0 n))).
Proof.
  unfold backend.transpose. cbn [tshape tdata rev app]. f_equal.
  change (backend.indices [n; d])
    with (flat_map (fun i => map (cons i) (backend.indices [d])) (seq 0 n)).
  rewrite indices_1d, flat_map_concat_map, concat_map, map_map.
  f_equal. apply map_ext. intros i. rewrite !map_map. unfold column.
  apply map_ext. intros k. cbn [rev app backend.flat_index prod fold_right].
  f_equal. lia.
Qed.

Lemma transposed_row (J : list C) (d n i : nat) :
  i < n ->
  row [d] (concat (map (column J d n) (seq 0 n))) i = mkT [d] (column J d n i).
Proof.
  intros Hi. unfold row. f_equal.
  change (prod [d]) with (d * 1). rewrite Nat.mul_1_r.
  apply (block_of_concat (column J d n) d n i); [| exact Hi].
  intros k. apply length_column.
Qed.

(** ** vmap over the second of two arguments *)

Lemma vmap_second (F : pyfun) (a0 : tensor) k sh D (g : nat -> tensor) :
  (forall b, b < k -> F [a0; row sh D b] = Ok (g b)) ->
  backend.vmap F (AInt 1) [a0; mkT (k :: sh) D] = backend.stack (map g (seq 0 k)).
Proof.
  intros HF. unfold backend.vmap.
  cbn [as_seq index_list nth_error bind backend.shape0 tshape].
  erewrite mapM_Ok; [reflexivity|].
  intros b Hb. apply in_seq in Hb.
  cbn [enumerate length seq combine mapM bind].
  change (mem 0 [1]) with false. change (mem 1 [1]) with true. cbv iota.
  cbn [bind]. rewrite getitem_row by lia. cbn [bind]. apply HF. lia.
Qed.

Lemma fisher_conj (P J : list C) (d n i j : nat) :
  Cconj (fisher P J d n i j) = fisher P J d n j i.
Proof.
  unfold fisher. rewrite Cconj_sub, Cconj_mul, !inner_conj. f_equal. apply Cmul_comm.
Qed.

Lemma qng_kernel_entry (P J : list C) (d n a b : nat) :
  length P = d ->
  (x <- _vdot (mkT [d] (column J d n a)) (mkT [d] (column J d n b)) ;;
   y <- _vdot (mkT [d] (column J d n a)) (mkT [d] P) ;;
   z <- _vdot (mkT [d] P) (mkT [d] (column J d n b)) ;;
   yz <- backend.mul y z ;;
   backend.sub x yz)
  = Ok (scalar (fisher P J d n a b)).
Proof.
  intros HP.
  rewrite !vdot_vectors by (try apply length_column; assumption).
  cbn [bind]. reflexivity.
Qed.

Lemma concat_map_scalars (y : nat -> nat -> C) (n : nat) (l : list nat) :
  concat (map tdata (map (fun b => mkT [n] (map (y b) (seq 0 n))) l))
  = concat (map (fun b => map (y b) (seq 0 n)) l).
Proof. rewrite map_map. reflexivity. Qed.

(** The matrix before post-processing: entry (i, j) holds the Fisher
    entry (j, i), the conjugate of entry (i, j). *)
Theorem qng_kernel_matrix_value
    (jacfwd jacrev : (tensor -> result tensor) -> tensor -> result tensor)
    (f : tensor -> tensor) (params : tensor) (P J : list C) (d n : nat) :
  f params = mkT [d] P -> length P = d ->
  jacfwd (call f) params = Ok (mkT [d; n] J) -> 1 <= n ->
  qng_kernel_matrix jacfwd jacrev f "qng" "fwd" params
  = Ok (mkT [n; n]
          (concat (map (fun i => map (fun j => fisher P J d n j i) (seq 0 n)) (seq 0 n)))).
Proof.
  intros Hpsi HP Hjac Hn. unfold qng_kernel_matrix, backend.cast.
  cbn [String.eqb Ascii.eqb Bool.eqb]. rewrite Hjac, Hpsi. cbn [bind].
  rewrite transpose_matrix.
  set (T := concat (map (column J d n) (seq 0 n))).
  rewrite (vmap_second _ _ n [d] T
             (fun b => mkT [n] (map (fun a => fisher P J d n a b) (seq 0 n)))).
  - rewrite (stack_uniform _ [n]).
    + rewrite length_map, length_seq, concat_map_scalars. reflexivity.
    + destruct n; [lia | discriminate].
    + intros t Ht. apply in_map_iff in Ht. destruct Ht as [b [<- _]]. reflexivity.
  - intros b Hb. unfold T at 2. rewrite transposed_row by exact Hb.
    rewrite (vmap_first _ (AInt 0) n [d] T [mkT [d] (column J d n b)]
               (fun a => scalar (fisher P J d n a b)) eq_refl).
    + rewrite (stack_uniform _ []).
      * rewrite length_map, length_seq, concat_scalars. reflexivity.
      * destruct n; [lia | discriminate].
      * intros t Ht. apply in_map_iff in Ht. destruct Ht as [a [<- _]]. reflexivity.
    + intros a Ha. unfold T. rewrite transposed_row by exact Ha.
      unfold closure2. cbn [index_list nth_error bind].
      apply qng_kernel_entry. exact HP.
Qed.

(** ** Entries of a matrix stored row by row *)

Lemma length_blocks {A : Type} (F : nat -> list A) (m n s : nat) :
  (forall i, length (F i) = m) -> length (concat (map F (seq s n))) = n * m.
Proof.
  intros HF. revert s. induction n as [|n IH]; intros s; [reflexivity|].
  cbn [seq map concat]. rewrite length_app, HF, IH. lia.
Qed.

Lemma nth_block {A : Type} (F : nat -> list A) (m n i j : nat) (dflt : A) :
  (forall i, length (F i) = m) -> i < n -> j < m ->
  nth (i * m + j) (concat (map F (seq 0 n))) dflt = nth j (F i) dflt.
Proof.
  intros HF Hi Hj. rewrite <- (block_of_concat F m n i HF Hi).
  rewrite nth_firstn. destruct (Nat.ltb_spec j m); [| lia].
  rewrite nth_skipn. reflexivity.
Qed.

Lemma nth_map_seq {A : Type} (g : nat -> A) (n j : nat) (dflt : A) :
  j < n -> nth j (map g (seq 0 n)) dflt = g j.
Proof.
  intros Hj. rewrite (nth_indep _ dflt (g 0)) by (rewrite length_map, length_seq; exact Hj).
  rewrite map_nth, seq_nth by exact Hj. reflexivity.
Qed.

Lemma nth_zip_with (op : C -> C -> C) (A B : list C) (k : nat) :
  length A = length B -> k < length A ->
  nth k (backend.zip_with op A B) C0 = op (nth k A C0) (nth k B C0).
Proof.
  intros Hl Hk. rewrite zip_with_nth by exact Hl.
  apply (nth_map_seq (fun m => op (nth m A C0) (nth m B C0))). exact Hk.
Qed.

Lemma nth_eye (n i j : nat) :
  i < n -> j < n ->
  nth (i * n + j) (tdata (backend.eye n)) C0 = if i =? j then C1 else C0.
Proof.
  intros Hi Hj. cbn [backend.eye tdata]. rewrite flat_map_concat_map.
  rewrite (nth_block (fun i => map (fun j => if i =? j then C1 else C0) (seq 0 n)) n n i j C0);
    [| intros k; rewrite length_map, length_seq; reflexivity | exact Hi | exact Hj].
  apply (nth_map_seq (fun j => if i =? j then C1 else C0)). exact Hj.
Qed.

Lemma length_eye (n : nat) : length (tdata (backend.eye n)) = n * n.
Proof.
  cbn [backend.eye tdata]. rewrite flat_map_concat_map.
  apply length_blocks. intros k. rewrite length_map, length_seq. reflexivity.
Qed.

(** The default post-processing of a square matrix, entry by entry. *)
Lemma qng_post_process_entry (M : list C) (n : nat) (eps : R) :
  length M = n * n ->
  exists out, _qng_post_process (mkT [n; n] M) eps = Ok out
    /\ tshape out = [n; n]
    /\ forall i j, i < n -> j < n ->
         nth (i * n + j) (tdata out) C0
         = Creal (Cadd (nth (i * n + j) M C0)
                       (Cmul (RtoC eps) (if i =? j then C1 else C0))).
Proof.
  intros HM. unfold _qng_post_process.
  cbn [backend.shape0 tshape index_list nth_error bind].
  unfold backend.add. rewrite binop_same_shape by reflexivity.
  cbn [bind]. eexists. split; [reflexivity|]. split; [reflexivity|].
  intros i j Hi Hj.
  cbn [backend.real backend.tmap tdata tshape backend.scale].
  assert (Hk : i * n + j < n * n) by nia.
  etransitivity; [exact (map_nth Creal _ C0 (i * n + j)) |].
  rewrite nth_zip_with by (rewrite ?length_map, ?length_eye; lia).
  f_equal. f_equal.
  rewrite <- (nth_eye n i j Hi Hj).
  rewrite <- (map_nth (Cmul (RtoC eps))).
  apply nth_indep. rewrite length_map, length_eye. exact Hk.
Qed.

(** C1.  With the default options, [qng f] returns the regularised quantum
    Fisher information: for a state [psi = f params] of dimension [d] and
    its [d] x [n] Jacobian, the result is the [n] x [n] matrix whose entry
    (i, j) is the real part of
    <d_i psi|d_j psi> - <d_i psi|psi><psi|d_j psi> + eps * delta_ij,
    with [d_i psi] column [i] of the Jacobian and eps = 1e-4. *)
Theorem qng_default_fisher_information
    (jacfwd jacrev : (tensor -> result tensor) -> tensor -> result tensor)
    (f : tensor -> tensor) (params : tensor) (P J : list C) (d n : nat) :
  f (backend.cast params) = mkT [d] P -> length P = d ->
  jacfwd (call f) (backend.cast params) = Ok (mkT [d; n] J) -> 1 <= n ->
  exists out,
    qng jacfwd jacrev f "qng" (PStr "qng") "fwd" params = Ok out
    /\ tshape out = [n; n]
    /\ forall i j, i < n -> j < n ->
         nth (i * n + j) (tdata out) C0
         = Creal (Cadd (fisher P J d n i j)
                       (Cmul (RtoC eps_default) (if i =? j then C1 else C0))).
Proof.
  intros Hpsi HP Hjac Hn. unfold qng.
  rewrite (qng_kernel_matrix_value jacfwd jacrev f params P J d n Hpsi HP Hjac Hn).
  cbn [bind select_post_process String.eqb Ascii.eqb Bool.eqb].
  set (M := concat (map (fun i => map (fun j => fisher P J d n j i) (seq 0 n)) (seq 0 n))).
  assert (HM : length M = n * n).
  { apply length_blocks. intros k. rewrite length_map, length_seq. reflexivity. }
  destruct (qng_post_process_entry M n eps_default HM) as [out [Hout [Hsh Hent]]].
  exists out. split; [exact Hout|]. split; [exact Hsh|].
  intros i j Hi Hj. rewrite (Hent i j Hi Hj). unfold M.
  rewrite (nth_block (fun i => map (fun j => fisher P J d n j i) (seq 0 n)) n n i j C0);
    [| intros k; rewrite length_map, length_seq; reflexivity | exact Hi | exact Hj].
  rewrite (nth_map_seq (fun j => fisher P J d n j i)) by exact Hj.
  rewrite <- (fisher_conj P J d n i j). reflexivity.
Qed.

Lemma bind_Raise_inv {A B : Type} (m : result A) (k : A -> result B) (e : exn) :
  bind m k = Raise e -> m = Raise e \/ exists a, m = Ok a /\ k a = Raise e.
Proof.
  destruct m; simpl; intros H; [right; eauto | left; congruence].
Qed.

Lemma mapM_Raise {A B : Type} (F : A -> result B) (l : list A) (e : exn) :
  mapM F l = Raise e -> exists a, In a l /\ F a = Raise e.
Proof.
  induction l as [|a l IH]; simpl; [discriminate|].
  destruct (F a) eqn:Ea; simpl.
  - destruct (mapM F l); simpl; [discriminate|].
    intros [= <-]. destruct (IH eq_refl) as [x [Hx Hr]]. eauto.
  - intros [= <-]. eauto.
Qed.

Lemma index_list_Raise {A : Type} (l : list A) (i : nat) (e : exn) :
  index_list l i = Raise e -> backend_exn e.
Proof.
  unfold index_list. destruct (nth_error l i); [discriminate|].
  intros [= <-]. left. reflexivity.
Qed.

Lemma getitem_Raise t i e : backend.getitem t i = Raise e -> backend_exn e.
Proof.
  unfold backend.getitem. destruct (tshape t); [intros [= <-]; left; reflexivity|].
  destruct (i <? n); [discriminate | intros [= <-]; left; reflexivity].
Qed.

Lemma stack_Raise ts e : backend.stack ts = Raise e -> backend_exn e.
Proof.
  unfold backend.stack. destruct ts; [intros [= <-]; right; reflexivity|].
  destruct (forallb _ _); [discriminate | intros [= <-]; right; reflexivity].
Qed.

Lemma binop_Raise op a b e : backend.binop op a b = Raise e -> backend_exn e.
Proof.
  unfold backend.binop. destruct (shape_eq_dec _ _); [discriminate|].
  destruct (tshape a); [discriminate|].
  destruct (tshape b); [discriminate|].
  intros [= <-]. right. reflexivity.
Qed.

Lemma tensordot1_Raise a b e : backend.tensordot1 a b = Raise e -> backend_exn e.
Proof.
  unfold backend.tensordot1. destruct (rev (tshape a)); [intros [= <-]; right; reflexivity|].
  destruct (tshape b); [intros [= <-]; right; reflexivity|].
  destruct (n =? n0); [discriminate | intros [= <-]; right; reflexivity].
Qed.

Lemma vmap_Raise (F : pyfun) va args e :
  backend.vmap F va args = Raise e ->
  backend_exn e \/ exists args', F args' = Raise e.
Proof.
  unfold backend.vmap. intros H.
  apply bind_Raise_inv in H. destruct H as [H | [v0 [_ H]]];
    [left; eapply index_list_Raise; eassumption|].
  apply bind_Raise_inv in H. destruct H as [H | [a0 [_ H]]];
    [left; eapply index_list_Raise; eassumption|].
  apply bind_Raise_inv in H. destruct H as [H | [n [_ H]]];
    [left; eapply index_list_Raise; eassumption|].
  apply bind_Raise_inv in H. destruct H as [H | [outs [_ H]]];
    [| left; eapply stack_Raise; eassumption].
  apply mapM_Raise in H. destruct H as [b [_ H]].
  apply bind_Raise_inv in H. destruct H as [H | [sl [_ H]]]; [| right; eauto].
  apply mapM_Raise in H. destruct H as [[j a] [_ H]].
  destruct (mem j (as_seq va)); [| discriminate].
  left. eapply getitem_Raise; eassumption.
Qed.

Lemma qng_post_process_Raise t eps e : _qng_post_process t eps = Raise e -> backend_exn e.
Proof.
  unfold _qng_post_process. intros H.
  apply bind_Raise_inv in H. destruct H as [H | [n [_ H]]];
    [eapply index_list_Raise; eassumption|].
  apply bind_Raise_inv in H. destruct H as [H | [t' [_ H]]]; [| discriminate].
  eapply binop_Raise; eassumption.
Qed.

Lemma backend_exn_not_value e msg : backend_exn e -> e <> ValueError msg.
Proof. intros [-> | ->]; discriminate. Qed.

Lemma backend_exn_not_unbound e name : backend_exn e -> e <> UnboundLocalError name.
Proof. intros [-> | ->]; discriminate. Qed.

Lemma dispatch_contract (fim : tensor) :
  post_process_contract
    (fun p => _post_process <- select_post_process p ;; _post_process fim) fim.
Proof.
  split; [| split; [reflexivity | split; [intros g; reflexivity |]]].
  - intros p. split.
    + destruct p as [s | | g]; cbn [select_post_process bind].
      * destruct (String.eqb_spec s "qng") as [-> | Hs]; cbn [bind].
        -- intros H. apply qng_post_process_Raise in H.
           exfalso. eapply backend_exn_not_value; [exact H | reflexivity].
        -- intros _. exists s. auto.
      * discriminate.
      * discriminate.
    + intros [s [-> Hs]]. cbn [select_post_process].
      destruct (String.eqb_spec s "qng"); [contradiction | reflexivity].
  - intros p e. destruct p as [s | | g]; cbn [select_post_process bind].
    + destruct (s =? "qng")%string; cbn [bind].
      * intros H. right. eapply qng_post_process_Raise. exact H.
      * intros [= <-]. left. reflexivity.
    + discriminate.
    + discriminate.
Qed.

(** C6.  Once the kernel matrix is computed, the wrappers of [qng] and of
    [qng2] raise ValueError("Unsupported postprocess option") exactly when
    [postprocess] is a string other than "qng"; with None they return the
    matrix unprocessed, and with a callable they return the callable
    applied to the matrix. *)
Theorem postprocess_validation
    (jacfwd jacrev : (tensor -> result tensor) -> tensor -> result tensor)
    (vjp : (tensor -> result tensor) -> tensor -> tensor -> result (tensor * tensor))
    (f : tensor -> tensor) (kernel2 mode mode2 : string) (params fim fim2 : tensor) :
  qng_kernel_matrix jacfwd jacrev f "qng" mode params = Ok fim ->
  qng2_kernel_matrix jacfwd jacrev vjp f kernel2 mode2 params = Ok fim2 ->
  post_process_contract (fun p => qng jacfwd jacrev f "qng" p mode params) fim
  /\ post_process_contract (fun p => qng2 jacfwd jacrev vjp f kernel2 p mode2 params) fim2.
Proof.
  intros H1 H2. unfold qng, qng2. rewrite H1, H2. cbn [bind].
  split; apply dispatch_contract.
Qed.

(** ** The kernel argument of qng *)

Lemma qng_entry_Raise (ij : tensor -> tensor -> result tensor) args e :
  (forall i j e, ij i j = Raise e -> backend_exn e) ->
  closure2 ij args = Raise e -> backend_exn e.
Proof.
  intros Hij H. unfold closure2 in H.
  apply bind_Raise_inv in H. destruct H as [H | [i [_ H]]];
    [eapply index_list_Raise; eassumption|].
  apply bind_Raise_inv in H. destruct H as [H | [j [_ H]]];
    [eapply index_list_Raise; eassumption|].
  eapply Hij; eassumption.
Qed.

Lemma nested_vmap_Raise (ij : tensor -> tensor -> result tensor) args e :
  (forall i j e, ij i j = Raise e -> backend_exn e) ->
  backend.vmap (backend.vmap (closure2 ij) (AInt 0)) (AInt 1) args = Raise e ->
  backend_exn e.
Proof.
  intros Hij H.
  apply vmap_Raise in H. destruct H as [H | [args1 H]]; [exact H|].
  apply vmap_Raise in H. destruct H as [H | [args2 H]]; [exact H|].
  eapply qng_entry_Raise; eassumption.
Qed.

(** C9.  Once the Jacobian is computed, a [kernel] other than "qng" and
    "dynamics" makes the wrapper of [qng] fail on the unbound local [ij],
    whatever [postprocess] is; with one of the two kernels the wrapper
    never fails that way. *)
Theorem qng_kernel_precondition
    (jacfwd jacrev : (tensor -> result tensor) -> tensor -> result tensor)
    (f : tensor -> tensor) (kernel : string) (postprocess : postprocess_option)
    (mode : string) (params jac : tensor) :
  (if (mode =? "fwd")%string
   then jacfwd (call f) (backend.cast params)
   else jacrev (call f) (backend.cast params)) = Ok jac ->
  (kernel <> "qng"%string /\ kernel <> "dynamics"%string ->
   qng jacfwd jacrev f kernel postprocess mode params = Raise (UnboundLocalError "ij"))
  /\ (kernel = "qng"%string \/ kernel = "dynamics"%string ->
      forall name,
        qng jacfwd jacrev f kernel postprocess mode params <> Raise (UnboundLocalError name)).
Proof.
  intros Hjac. split.
  - intros [Hq Hd]. unfold qng, qng_kernel_matrix.
    destruct (mode =? "fwd")%string; rewrite Hjac; cbn [bind];
      destruct (String.eqb_spec kernel "qng"); try contradiction;
      destruct (String.eqb_spec kernel "dynamics"); try contradiction;
      reflexivity.
  - intros Hk name H. unfold qng in H.
    apply bind_Raise_inv in H. destruct H as [H | [fim [_ H]]].
    + unfold qng_kernel_matrix in H.
      assert (Hjac' : (if (mode =? "fwd")%string
                       then jacfwd (call f) (backend.cast params)
                       else jac0 <- jacrev (call f) (backend.cast params) ;;
                            Ok (backend.cast jac0)) = Ok jac).
      { destruct (mode =? "fwd")%string; [exact Hjac | rewrite Hjac; reflexivity]. }
      rewrite Hjac' in H. cbn [bind] in H.
      assert (Hex : backend_exn (UnboundLocalError name)).
      { destruct Hk as [-> | ->]; cbn [String.eqb Ascii.eqb Bool.eqb bind] in H.
        - eapply nested_vmap_Raise; [| exact H].
          intros i j e He.
          apply bind_Raise_inv in He. destruct He as [He | [a [_ He]]];
            [eapply tensordot1_Raise; eassumption|].
          apply bind_Raise_inv in He. destruct He as [He | [b [_ He]]];
            [eapply tensordot1_Raise; eassumption|].
          apply bind_Raise_inv in He. destruct He as [He | [c [_ He]]];
            [eapply tensordot1_Raise; eassumption|].
          apply bind_Raise_inv in He. destruct He as [He | [bc [_ He]]];
            eapply binop_Raise; eassumption.
        - eapply nested_vmap_Raise; [| exact H].
          intros i j e He. unfold _vdot in He. eapply tensordot1_Raise; exact He. }
      eapply backend_exn_not_unbound; [exact Hex | reflexivity].
    + apply bind_Raise_inv in H. destruct H as [H | [pp [Hpp H]]].
      * destruct postprocess as [s | | g]; cbn [select_post_process] in H;
          try discriminate.
        destruct (s =? "qng")%string; discriminate.
      * destruct postprocess as [s | | g]; cbn [select_post_process] in Hpp.
        -- destruct (s =? "qng")%string; [| discriminate].
           injection Hpp as <-. apply qng_post_process_Raise in H.
           eapply backend_exn_not_unbound; [exact H | reflexivity].
        -- injection Hpp as <-. discriminate.
        -- injection Hpp as <-. discriminate.
Qed.

(** ** Sums of complex numbers *)

Lemma Cadd_0_l a : Cadd C0 a = a.
Proof. apply C_eq; simpl; lra. Qed.

Lemma Cadd_assoc a b c : Cadd a (Cadd b c) = Cadd (Cadd a b) c.
Proof. apply C_eq; simpl; lra. Qed.

Lemma Cadd_comm a b : Cadd a b = Cadd b a.
Proof. apply C_eq; simpl; lra. Qed.

Lemma Cmul_assoc a b c : Cmul a (Cmul b c) = Cmul (Cmul a b) c.
Proof. apply C_eq; simpl; lra. Qed.

Lemma Cmul_add_distr_l a b c : Cmul a (Cadd b c) = Cadd (Cmul a b) (Cmul a c).
Proof. apply C_eq; simpl; lra. Qed.

Lemma Cmul_add_distr_r a b c : Cmul (Cadd a b) c = Cadd (Cmul a c) (Cmul b c).
Proof. apply C_eq; simpl; lra. Qed.

Lemma Cmul_0_r a : Cmul a C0 = C0.
Proof. apply C_eq; simpl; lra. Qed.

Lemma Cmul_0_l a : Cmul C0 a = C0.
Proof. apply C_eq; simpl; lra. Qed.

Lemma Csum_mul_l {A : Type} (c : C) (F : A -> C) (l : list A) :
  Cmul c (Csum (map F l)) = Csum (map (fun x => Cmul c (F x)) l).
Proof.
  induction l as [|a l IH]; cbn [map Csum fold_right].
  - apply Cmul_0_r.
  - rewrite Cmul_add_distr_l. f_equal. exact IH.
Qed.

Lemma Csum_mul_r {A : Type} (c : C) (F : A -> C) (l : list A) :
  Cmul (Csum (map F l)) c = Csum (map (fun x => Cmul (F x) c) l).
Proof.
  induction l as [|a l IH]; cbn [map Csum fold_right].
  - apply Cmul_0_l.
  - rewrite Cmul_add_distr_r. f_equal. exact IH.
Qed.

Lemma Csum_add {A : Type} (F G : A -> C) (l : list A) :
  Csum (map (fun x => Cadd (F x) (G x)) l) = Cadd (Csum (map F l)) (Csum (map G l)).
Proof.
  induction l as [|a l IH]; cbn [map Csum fold_right].
  - symmetry. apply Cadd_0_l.
  - fold (Csum (map (fun x => Cadd (F x) (G x)) l)).
    fold (Csum (map F l)). fold (Csum (map G l)). rewrite IH.
    apply C_eq; simpl; lra.
Qed.

Lemma Csum_zero {A : Type} (l : list A) : Csum (map (fun _ => C0) l) = C0.
Proof.
  induction l as [|a l IH]; cbn [map Csum fold_right]; [reflexivity|].
  fold (Csum (map (fun _ : A => C0) l)). rewrite IH. apply Cadd_0_l.
Qed.

Lemma Csum_swap {A B : Type} (F : A -> B -> C) (la : list A) (lb : list B) :
  Csum (map (fun a => Csum (map (fun b => F a b) lb)) la)
  = Csum (map (fun b => Csum (map (fun a => F a b) la)) lb).
Proof.
  induction la as [|a la IH]; cbn [map Csum fold_right].
  - symmetry. apply Csum_zero.
  - fold (Csum (map (fun a => Csum (map (fun b => F a b) lb)) la)).
    rewrite IH. symmetry. apply (Csum_add (fun b => F a b)).
Qed.

Lemma Csum_ext_in {A : Type} (F G : A -> C) (l : list A) :
  (forall a, In a l -> F a = G a) -> Csum (map F l) = Csum (map G l).
Proof. intros H. f_equal. apply map_ext_in. exact H. Qed.

Lemma reshape_row (t : tensor) (d : nat) :
  backend.sizen t = d ->
  backend.reshape t [1; -1]%Z = Ok (mkT [1; d] (tdata t)).
Proof.
  intros Hd. unfold backend.reshape. rewrite Hd.
  cbn [existsb Z.ltb Z.compare orb count_occ filter map negb Z.eqb Pos.eqb].
  destruct (Z.eq_dec 1 (-1)); [discriminate|].
  destruct (Z.eq_dec (-1) (-1)); [| congruence].
  cbn [prod fold_right Z.to_nat Pos.to_nat Pos.iter_op Nat.mul Nat.add Nat.eqb orb].
  rewrite Nat.mod_1_r, Nat.div_1_r. reflexivity.
Qed.

Lemma reshape_column (t : tensor) (d : nat) :
  backend.sizen t = d ->
  backend.reshape t [-1; 1]%Z = Ok (mkT [d; 1] (tdata t)).
Proof.
  intros Hd. unfold backend.reshape. rewrite Hd.
  cbn [existsb Z.ltb Z.compare orb count_occ filter map negb Z.eqb Pos.eqb].
  destruct (Z.eq_dec (-1) (-1)); [| congruence].
  destruct (Z.eq_dec 1 (-1)); [discriminate|].
  cbn [prod fold_right Z.to_nat Pos.to_nat Pos.iter_op Nat.mul Nat.add Nat.eqb orb].
  rewrite Nat.mod_1_r, Nat.div_1_r. reflexivity.
Qed.

Lemma flat_map_singletons {A B : Type} (g : A -> B) (l : list A) :
  flat_map (fun r => [g r]) l = map g l.
Proof.
  induction l as [|a l IH]; [reflexivity|].
  cbn [flat_map map app]. rewrite IH. reflexivity.
Qed.

Lemma matmul_row_matrix (WL H : list C) (d : nat) :
  backend.matmul (mkT [1; d] WL) (mkT [d; d] H)
  = Ok (mkT [1; d]
          (map (fun c => Csum (map (fun m => Cmul (nth m WL C0) (nth (m * d + c) H C0))
                                   (seq 0 d)))
               (seq 0 d))).
Proof.
  unfold backend.matmul, backend.tensordot1.
  cbn [tshape tdata length Nat.eqb andb rev app]. rewrite Nat.eqb_refl.
  change (prod [d]) with (d * 1). change (prod [1]) with 1. rewrite Nat.mul_1_r.
  cbn [seq flat_map app]. rewrite app_nil_r. reflexivity.
Qed.

Lemma matmul_matrix_column (H WR : list C) (d : nat) :
  backend.matmul (mkT [d; d] H) (mkT [d; 1] WR)
  = Ok (mkT [d; 1]
          (map (fun r => Csum (map (fun m => Cmul (nth (r * d + m) H C0) (nth m WR C0))
                                   (seq 0 d)))
               (seq 0 d))).
Proof.
  unfold backend.matmul, backend.tensordot1.
  cbn [tshape tdata length Nat.eqb andb rev app]. rewrite Nat.eqb_refl.
  change (prod [d]) with (d * 1). change (prod [1]) with 1. rewrite Nat.mul_1_r.
  cbn [seq map]. rewrite (flat_map_singletons _ (seq 0 d)).
  do 2 f_equal. apply map_ext. intros r.
  f_equal. apply map_ext. intros m. rewrite Nat.mul_1_r, Nat.add_0_r. reflexivity.
Qed.

Lemma matmul_row_column (X Y : list C) (d : nat) :
  backend.matmul (mkT [1; d] X) (mkT [d; 1] Y)
  = Ok (mkT [1; 1] [Csum (map (fun m => Cmul (nth m X C0) (nth m Y C0)) (seq 0 d))]).
Proof.
  unfold backend.matmul, backend.tensordot1.
  cbn [tshape tdata length Nat.eqb andb rev app]. rewrite Nat.eqb_refl.
  change (prod [1]) with 1. cbn [seq flat_map map app].
  do 4 f_equal. apply map_ext. intros m. rewrite Nat.mul_1_r, Nat.add_0_r. reflexivity.
Qed.

Lemma real_entry (z : C) :
  (e0 <- backend.getitem (backend.real (mkT [1; 1] [z])) 0 ;; backend.getitem e0 0)
  = Ok (scalar (Creal z)).
Proof. reflexivity. Qed.

(** Both association orders of the product give <w|H|wr>. *)
Lemma dense_energy (W H WR : list C) (d : nat) :
  Csum (map (fun m => Cmul (nth m (map (fun c =>
                Csum (map (fun k => Cmul (nth k (map Cconj W) C0) (nth (k * d + c) H C0))
                          (seq 0 d))) (seq 0 d)) C0)
                          (nth m WR C0)) (seq 0 d))
  = bra_h_ket W H WR d.
Proof.
  unfold bra_h_ket. rewrite Csum_swap.
  apply Csum_ext_in. intros j Hj. apply in_seq in Hj.
  rewrite (nth_map_seq (fun c => Csum (map (fun k =>
             Cmul (nth k (map Cconj W) C0) (nth (k * d + c) H C0)) (seq 0 d)))) by lia.
  rewrite Csum_mul_r. apply Csum_ext_in. intros i _.
  do 2 f_equal. rewrite <- (map_nth Cconj W C0 i), Cconj_0. reflexivity.
Qed.

Lemma sparse_energy (W H WR : list C) (d : nat) :
  Csum (map (fun m => Cmul (nth m (map Cconj W) C0)
                          (nth m (map (fun r =>
                Csum (map (fun k => Cmul (nth (r * d + k) H C0) (nth k WR C0))
                          (seq 0 d))) (seq 0 d)) C0)) (seq 0 d))
  = bra_h_ket W H WR d.
Proof.
  unfold bra_h_ket.
  apply Csum_ext_in. intros i Hi. apply in_seq in Hi.
  rewrite (nth_map_seq (fun r => Csum (map (fun k =>
             Cmul (nth (r * d + k) H C0) (nth k WR C0)) (seq 0 d)))) by lia.
  rewrite Csum_mul_l. apply Csum_ext_in. intros j _.
  rewrite Cmul_assoc. do 2 f_equal.
  rewrite <- (map_nth Cconj W C0 i), Cconj_0. reflexivity.
Qed.

(** The function that [dynamics_rhs] hands to [grad], by its values: for
    a state function of dimension [d] and a [d] x [d] Hamiltonian, dense or
    sparse, it is p |-> Re <f(p)|H|f(p)>.  Both products of the dense path
    and of the sparse path give the same sum. *)
Lemma dynamics_rhs_energy
    (grad : (tensor -> result tensor) -> tensor -> result tensor)
    (f : tensor -> tensor) (h : backend.matrix) (H : list C) (d : nat)
    (params : tensor) :
  (forall p, tshape (f p) = [d]) ->
  backend.entries h = mkT [d; d] H ->
  dynamics_rhs grad f h params
  = grad (fun p => Ok (scalar (Creal (bra_h_ket (tdata (f p)) H (tdata (f p)) d))))
         params.
Proof.
  intros Hf Hh. unfold dynamics_rhs. f_equal.
  apply functional_extensionality. intros p.
  unfold backend.stop_gradient, backend.conj.
  rewrite (reshape_row (backend.tmap Cconj (f p)) d)
    by (unfold backend.sizen; cbn [backend.tmap tshape]; rewrite Hf; cbn; lia).
  rewrite (reshape_column (f p) d)
    by (unfold backend.sizen; rewrite Hf; cbn; lia).
  cbn [bind backend.tmap tdata].
  destruct h as [t | t]; cbn [backend.entries] in Hh; subst t;
    cbn [backend.is_sparse negb backend.sparse_dense_matmul backend.entries].
  - rewrite matmul_row_matrix. cbn [bind]. rewrite matmul_row_column. cbn [bind].
    rewrite real_entry, dense_energy. reflexivity.
  - unfold backend.sparse_dense_matmul. cbn [backend.entries].
    rewrite matmul_matrix_column. cbn [bind]. rewrite matmul_row_column. cbn [bind].
    rewrite real_entry, sparse_energy. reflexivity.
Qed.

(** ** Products with a factor whose derivative is zero *)

Lemma Cadd_0_r a : Cadd a C0 = a.
Proof. rewrite Cadd_comm. apply Cadd_0_l. Qed.

Lemma nth_zeros {A : Type} (i : nat) (l : list A) : nth i (map (fun _ => C0) l) C0 = C0.
Proof.
  revert i. induction l as [|a l IH]; intros [|i]; cbn [map nth]; try reflexivity. apply IH.
Qed.

Lemma Csum_zero_r (g : nat -> C) (pos : nat -> nat) {A : Type} (L : list A) (l : list nat) :
  Csum (map (fun m => Cmul (g m) (nth (pos m) (map (fun _ => C0) L) C0)) l) = C0.
Proof.
  transitivity (Csum (map (fun _ : nat => C0) l)); [| apply Csum_zero].
  apply Csum_ext_in. intros m _. rewrite nth_zeros. apply Cmul_0_r.
Qed.

Lemma Csum_zero_l (g : nat -> C) (pos : nat -> nat) {A : Type} (L : list A) (l : list nat) :
  Csum (map (fun m => Cmul (nth (pos m) (map (fun _ => C0) L) C0) (g m)) l) = C0.
Proof.
  transitivity (Csum (map (fun _ : nat => C0) l)); [| apply Csum_zero].
  apply Csum_ext_in. intros m _. rewrite nth_zeros. apply Cmul_0_l.
Qed.

Lemma add_zeros_r (sh : list nat) (F : nat -> C) (l : list nat) :
  backend.add (mkT sh (map F l)) (mkT sh (map (fun _ => C0) l)) = Ok (mkT sh (map F l)).
Proof.
  unfold backend.add. rewrite binop_same_shape by reflexivity.
  cbn [tshape tdata]. rewrite zip_with_map. do 2 f_equal.
  apply map_ext. intros k. apply Cadd_0_r.
Qed.

Lemma add_zeros_l (sh : list nat) (F : nat -> C) (l : list nat) :
  backend.add (mkT sh (map (fun _ => C0) l)) (mkT sh (map F l)) = Ok (mkT sh (map F l)).
Proof.
  unfold backend.add. rewrite binop_same_shape by reflexivity.
  cbn [tshape tdata]. rewrite zip_with_map. do 2 f_equal.
  apply map_ext. intros k. apply Cadd_0_l.
Qed.

(** A traced row times a constant matrix. *)
Lemma forward_row_matrix (X X' H : list C) (d : nat) :
  forward.matmul (forward.mkD (mkT [1; d] X) (mkT [1; d] X'))
                 (forward.constant (mkT [d; d] H))
  = (p <- backend.matmul (mkT [1; d] X) (mkT [d; d] H) ;;
     t <- backend.matmul (mkT [1; d] X') (mkT [d; d] H) ;;
     Ok (forward.mkD p t)).
Proof.
  unfold forward.matmul, forward.constant, forward.zeros_like, backend.tmap.
  cbn [forward.primal forward.tangent tshape tdata].
  rewrite !matmul_row_matrix. cbn [bind].
  rewrite (map_ext (fun c => Csum (map (fun m => Cmul (nth m X C0)
                                                      (nth (m * d + c) (map (fun _ => C0) H) C0))
                                       (seq 0 d)))
                   (fun _ => C0))
    by (intros c; apply (Csum_zero_r (fun m => nth m X C0) (fun m => m * d + c) H)).
  rewrite add_zeros_r. reflexivity.
Qed.

(** A traced row times a column whose derivative is zero. *)
Lemma forward_row_column {A : Type} (X X' Y : list C) (L : list A) (d : nat) :
  forward.matmul (forward.mkD (mkT [1; d] X) (mkT [1; d] X'))
                 (forward.mkD (mkT [d; 1] Y) (mkT [d; 1] (map (fun _ => C0) L)))
  = (p <- backend.matmul (mkT [1; d] X) (mkT [d; 1] Y) ;;
     t <- backend.matmul (mkT [1; d] X') (mkT [d; 1] Y) ;;
     Ok (forward.mkD p t)).
Proof.
  unfold forward.matmul. cbn [forward.primal forward.tangent].
  rewrite !matmul_row_column. cbn [bind].
  rewrite (Csum_zero_r (fun m => nth m X C0) (fun m => m) L).
  unfold backend.add. rewrite binop_same_shape by reflexivity.
  cbn [tshape tdata backend.zip_with combine map fst snd]. rewrite Cadd_0_r. reflexivity.
Qed.

(** A constant matrix times a column whose derivative is zero: the
    derivative of the product is zero. *)
Lemma forward_matrix_column {A : Type} (H Y : list C) (L : list A) (d : nat) :
  forward.matmul (forward.constant (mkT [d; d] H))
                 (forward.mkD (mkT [d; 1] Y) (mkT [d; 1] (map (fun _ => C0) L)))
  = (p <- backend.matmul (mkT [d; d] H) (mkT [d; 1] Y) ;;
     Ok (forward.mkD p (mkT [d; 1] (map (fun _ => C0) (seq 0 d))))).
Proof.
  unfold forward.matmul, forward.constant, forward.zeros_like, backend.tmap.
  cbn [forward.primal forward.tangent tshape tdata].
  rewrite !matmul_matrix_column. cbn [bind].
  rewrite (map_ext (fun r => Csum (map (fun m => Cmul (nth (r * d + m) (map (fun _ => C0) H) C0)
                                                      (nth m Y C0)) (seq 0 d)))
                   (fun _ => C0))
    by (intros r; apply (Csum_zero_l (fun m => nth m Y C0) (fun m => r * d + m) H)).
  rewrite (map_ext (fun r => Csum (map (fun m => Cmul (nth (r * d + m) H C0)
                                                      (nth m (map (fun _ => C0) L) C0))
                                       (seq 0 d)))
                   (fun _ => C0))
    by (intros r; apply (Csum_zero_r (fun m => nth (r * d + m) H C0) (fun m => m) L)).
  rewrite add_zeros_r. reflexivity.
Qed.

Lemma forward_real_entry (a b : C) :
  (e0 <- forward.getitem (forward.real (forward.mkD (mkT [1; 1] [a]) (mkT [1; 1] [b]))) 0 ;;
   forward.getitem e0 0)
  = Ok (forward.mkD (scalar (Creal a)) (scalar (Creal b))).
Proof. reflexivity. Qed.

Lemma forward_reshape_row (X X' : list C) (d : nat) :
  forward.reshape (forward.mkD (mkT [d] X) (mkT [d] X')) [1; -1]%Z
  = Ok (forward.mkD (mkT [1; d] X) (mkT [1; d] X')).
Proof.
  unfold forward.reshape. cbn [forward.primal forward.tangent].
  rewrite !(reshape_row _ d) by (unfold backend.sizen; cbn; lia). reflexivity.
Qed.

Lemma forward_reshape_column (X X' : list C) (d : nat) :
  forward.reshape (forward.mkD (mkT [d] X) (mkT [d] X')) [-1; 1]%Z
  = Ok (forward.mkD (mkT [d; 1] X) (mkT [d; 1] X')).
Proof.
  unfold forward.reshape. cbn [forward.primal forward.tangent].
  rewrite !(reshape_column _ d) by (unfold backend.sizen; cbn; lia). reflexivity.
Qed.

(** The energy at a traced state with value [psi] and derivative [dpsi],
    the ket with derivative zero: the derivative is Re <dpsi|H|psi>. *)
Lemma energy_derivative (h : backend.matrix) (H psi dpsi : list C) (d : nat) :
  backend.entries h = mkT [d; d] H ->
  (wl <- forward.reshape (forward.conj (forward.mkD (mkT [d] psi) (mkT [d] dpsi)))
                         [1; -1]%Z ;;
   wr <- forward.reshape (forward.constant (mkT [d] psi)) [-1; 1]%Z ;;
   e <- (if negb (backend.is_sparse h)
         then wlh <- forward.matmul wl (forward.constant (backend.entries h)) ;;
              forward.matmul wlh wr
         else tmp <- forward.sparse_dense_matmul h wr ;;
              forward.matmul wl tmp) ;;
   e0 <- forward.getitem (forward.real e) 0 ;;
   forward.getitem e0 0)
  = Ok (forward.mkD (scalar (Creal (bra_h_ket psi H psi d)))
                    (scalar (Creal (bra_h_ket dpsi H psi d)))).
Proof.
  intros Hh.
  change (forward.constant (mkT [d] psi))
    with (forward.mkD (mkT [d] psi) (mkT [d] (map (fun _ => C0) psi))).
  unfold forward.conj, backend.conj, backend.tmap.
  cbn [forward.primal forward.tangent tshape tdata].
  rewrite forward_reshape_row, forward_reshape_column. cbn [bind].
  unfold forward.sparse_dense_matmul.
  destruct h as [t | t]; cbn [backend.entries] in Hh; subst t;
    cbn [backend.is_sparse negb backend.entries].
  - rewrite forward_row_matrix, !matmul_row_matrix. cbn [bind].
    rewrite forward_row_column, !matmul_row_column. cbn [bind].
    rewrite forward_real_entry, !dense_energy. reflexivity.
  - rewrite forward_matrix_column, matmul_matrix_column. cbn [bind].
    rewrite forward_row_column, !matmul_row_column. cbn [bind].
    rewrite forward_real_entry, !sparse_energy. reflexivity.
Qed.

(** C8.  The wrapper of [dynamics_rhs] returns the gradient at [params] of
    the real part of conj(f(p))^T h stop_gradient(f(p)), and
    [stop_gradient] holds the ket constant: for a state function with
    value [psi] at [params] and derivative [dpsi k] along coordinate [k],
    and a [d] x [d] Hamiltonian, dense or sparse, the result is the
    gradient of p |-> Re <f(p)|H|psi> with [psi] a constant, and its
    component [k] is Re <d_k psi|H|psi>; the term Re <psi|H|d_k psi> of the
    ket does not occur. *)
Theorem dynamics_rhs_gradient
    (f : forward.dual -> forward.dual) (h : backend.matrix) (H psi : list C)
    (dpsi : nat -> list C) (d : nat) (params : tensor) :
  (forall k, k < backend.sizen params ->
     f (forward.seed params k) = forward.mkD (mkT [d] psi) (mkT [d] (dpsi k))) ->
  backend.entries h = mkT [d; d] H ->
  forward.dynamics_rhs f h params
  = forward.grad (energy_fixed_ket f h (mkT [d] psi)) params
  /\ forward.dynamics_rhs f h params
     = Ok (mkT (tshape params)
             (map (fun k => Creal (bra_h_ket (dpsi k) H psi d))
                  (seq 0 (backend.sizen params)))).
Proof.
  intros Hf Hh.
  assert (Hrun : forward.dynamics_rhs f h params
                 = Ok (mkT (tshape params)
                         (map (fun k => Creal (bra_h_ket (dpsi k) H psi d))
                              (seq 0 (backend.sizen params))))).
  { unfold forward.dynamics_rhs, forward.grad.
    rewrite (mapM_Ok _ (fun k => Creal (bra_h_ket (dpsi k) H psi d))); [reflexivity|].
    intros k Hk. apply in_seq in Hk. rewrite (Hf k) by lia.
    change (forward.stop_gradient (forward.mkD (mkT [d] psi) (mkT [d] (dpsi k))))
      with (forward.constant (mkT [d] psi)).
    rewrite (energy_derivative h H psi (dpsi k) d Hh). reflexivity. }
  split; [| exact Hrun].
  rewrite Hrun. unfold forward.grad, energy_fixed_ket.
  rewrite (mapM_Ok _ (fun k => Creal (bra_h_ket (dpsi k) H psi d))); [reflexivity|].
  intros k Hk. apply in_seq in Hk. rewrite (Hf k) by lia.
  rewrite (energy_derivative h H psi (dpsi k) d Hh). reflexivity.
Qed.

(** ** hamiltonian_evol on a complex Hermitian matrix *)

Local Open Scope R_scope.

Ltac eval_tensor :=
  cbv -[Rplus Rmult Rminus Rdiv IZR Ropp Rinv exp cos sin sqrt Rlt Rgt Rle].

Ltac entries :=
  repeat match goal with
  | |- Ok _ = Ok _ => apply f_equal
  | |- mkT _ _ = mkT _ _ => apply f_equal
  | |- cons _ _ = cons _ _ => apply f_equal2
  | |- pair _ _ = pair _ _ => apply f_equal2
  | |- @nil _ = @nil _ => reflexivity
  end.

Ltac tensor_value := eval_tensor; entries; try lra.

Lemma exp_row : backend.exp (mkT [2]%nat [(0, 0); (-1, 0)]) = mkT [2]%nat [(1, 0); (decay, 0)].
Proof.
  unfold backend.exp, backend.tmap, Cexp, decay. cbn [tshape tdata map fst snd].
  rewrite cos_0, sin_0, exp_0. apply f_equal. entries; lra.
Qed.

Lemma code_steps :
  backend.reshape psi_up [-1; 1]%Z = Ok (mkT [2; 1]%nat [(1, 0); (0, 0)])
  /\ backend.matmul (backend.transpose u0) (mkT [2; 1]%nat [(1, 0); (0, 0)])
     = Ok (mkT [2; 1]%nat [(3/5, 0); (0, 4/5)])
  /\ backend.reshape (mkT [2; 1]%nat [(3/5, 0); (0, 4/5)]) [-1]%Z
     = Ok (mkT [2]%nat [(3/5, 0); (0, 4/5)])
  /\ backend.mul (backend.neg (mkT []%nat [(1, 0)])) es0 = Ok (mkT [2]%nat [(0, 0); (-1, 0)])
  /\ backend.mul (mkT [2]%nat [(1, 0); (decay, 0)]) (mkT [2]%nat [(3/5, 0); (0, 4/5)])
     = Ok (mkT [2]%nat [(3/5, 0); (0, 4/5 * decay)])
  /\ backend.reshape (mkT [2]%nat [(3/5, 0); (0, 4/5 * decay)]) [-1; 1]%Z
     = Ok (mkT [2; 1]%nat [(3/5, 0); (0, 4/5 * decay)])
  /\ backend.matmul (backend.conj u0) (mkT [2; 1]%nat [(3/5, 0); (0, 4/5 * decay)])
     = Ok (mkT [2; 1]%nat (tdata code_state))
  /\ backend.reshape (mkT [2; 1]%nat (tdata code_state)) [-1]%Z = Ok code_state.
Proof.
  unfold decay. repeat split; tensor_value.
Qed.

Lemma exact_steps :
  backend.matmul (adjoint u0) (mkT [2; 1]%nat [(1, 0); (0, 0)])
     = Ok (mkT [2; 1]%nat [(3/5, 0); (0, - (4/5))])
  /\ backend.reshape (mkT [2; 1]%nat [(3/5, 0); (0, - (4/5))]) [-1]%Z
     = Ok (mkT [2]%nat [(3/5, 0); (0, - (4/5))])
  /\ backend.mul (mkT [2]%nat [(1, 0); (decay, 0)]) (mkT [2]%nat [(3/5, 0); (0, - (4/5))])
     = Ok (mkT [2]%nat [(3/5, 0); (0, - (4/5 * decay))])
  /\ backend.reshape (mkT [2]%nat [(3/5, 0); (0, - (4/5 * decay))]) [-1; 1]%Z
     = Ok (mkT [2; 1]%nat [(3/5, 0); (0, - (4/5 * decay))])
  /\ backend.matmul u0 (mkT [2; 1]%nat [(3/5, 0); (0, - (4/5 * decay))])
     = Ok (mkT [2; 1]%nat (tdata exact_state))
  /\ backend.reshape (mkT [2; 1]%nat (tdata exact_state)) [-1]%Z = Ok exact_state.
Proof.
  unfold decay. repeat split; tensor_value.
Qed.

Lemma div_norm (d : nat) (l : list C) :
  backend.div (mkT [d] l) (backend.norm (mkT [d] l)) = Ok (normalized (mkT [d] l)).
Proof.
  unfold backend.div, backend.binop. cbn [tshape backend.norm scalar].
  destruct (shape_eq_dec [d] []); [discriminate | reflexivity].
Qed.

Lemma code_value :
  hamiltonian_evol eigh0 t_one h0 psi_up None
  = Ok (mkT [1; 2]%nat (tdata (normalized code_state))).
Proof.
  destruct code_steps as (E1 & E2 & E3 & E4 & E5 & E6 & E7 & E8).
  unfold hamiltonian_evol. cbn [eigh0].
  rewrite E1. cbn [bind]. rewrite E2. cbn [bind]. rewrite E3. cbn [bind].
  change (backend.iter t_one) with (Ok [mkT []%nat [(1, 0)]]).
  cbn [bind mapM].
  rewrite E4. cbn [bind]. rewrite exp_row, E5. cbn [bind].
  rewrite E6. cbn [bind]. rewrite E7. cbn [bind]. rewrite E8. cbn [bind].
  unfold code_state at 1 2. rewrite div_norm. cbn [bind]. reflexivity.
Qed.

Lemma exact_value :
  exact_evolutions es0 u0 psi_up t_one
  = Ok (mkT [1; 2]%nat (tdata (normalized exact_state))).
Proof.
  destruct code_steps as (E1 & _ & _ & E4 & _).
  destruct exact_steps as (F2 & F3 & F5 & F6 & F7 & F8).
  unfold exact_evolutions.
  rewrite E1. cbn [bind]. rewrite F2. cbn [bind]. rewrite F3. cbn [bind].
  change (backend.iter t_one) with (Ok [mkT []%nat [(1, 0)]]).
  cbn [bind mapM].
  rewrite E4. cbn [bind]. rewrite exp_row, F5. cbn [bind].
  rewrite F6. cbn [bind]. rewrite F7. cbn [bind]. rewrite F8. cbn [bind].
  unfold exact_state at 1 2. rewrite div_norm. cbn [bind]. reflexivity.
Qed.

Lemma decay_bounds : 0 < decay < 1.
Proof.
  unfold decay. split; [apply exp_pos|].
  rewrite <- exp_0. apply exp_increasing. lra.
Qed.

(** C5.  For the Hermitian matrix [h0 = u0 diag(es0) u0^dagger], the start
    state (1, 0) and the time 1, [hamiltonian_evol] does not return the
    normalised exp(-t h0) psi0. *)
Theorem hamiltonian_evol_complex_hermitian :
  hamiltonian_evol eigh0 t_one h0 psi_up None <> exact_evolutions es0 u0 psi_up t_one.
Proof.
  rewrite code_value, exact_value. intros Heq.
  injection Heq as _ _ _ Him.
  pose proof decay_bounds as [Hd0 Hd1].
  cbn [code_state exact_state tdata backend.norm scalar hd map fold_right
       Cnorm2 RtoC fst snd] in Him.
  unfold Cnorm2, RtoC in Him. cbn [fst snd] in Him.
  replace (0 * 0 + - (12 / 25 * (1 - decay)) * - (12 / 25 * (1 - decay)))
    with (0 * 0 + 12 / 25 * (1 - decay) * (12 / 25 * (1 - decay))) in Him by ring.
  set (N := sqrt _) in Him.
  assert (HN : 0 < N).
  { apply sqrt_lt_R0. nra. }
  unfold Rdiv in Him.
  assert (Hq : 0 < N * / (N * N + 0 * 0)).
  { apply Rmult_lt_0_compat; [exact HN | apply Rinv_0_lt_compat; nra]. }
  set (q := N * / (N * N + 0 * 0)) in *. clearbody q.
  set (z := / (N * N + 0 * 0)) in *. clearbody z.
  nra.
Qed.

(** The example is an eigendecomposition: u0 is unitary and
    h0 = u0 diag(es0) u0^dagger. *)
Lemma h0_eigendecomposition :
  backend.matmul (adjoint u0) u0 = Ok (backend.eye 2)
  /\ (m <- backend.matmul u0 (mkT [2; 2]%nat [(0, 0); (0, 0); (0, 0); (1, 0)]) ;;
      backend.matmul m (adjoint u0)) = Ok h0.
Proof. split; tensor_value. Qed.

Lemma Cconj_real (z : C) : snd z = 0 -> Cconj z = z.
Proof. destruct z as [a b]. simpl. intros ->. unfold Cconj. simpl. f_equal. lra. Qed.

Lemma conj_real (t : tensor) : real_entries t -> backend.conj t = t.
Proof.
  destruct t as [sh d]. unfold real_entries, backend.conj, backend.tmap.
  cbn [tshape tdata]. intros H. f_equal.
  induction H as [|z l Hz _ IH]; [reflexivity|].
  cbn [map]. rewrite IH, Cconj_real by exact Hz. reflexivity.
Qed.

Lemma transpose_real (t : tensor) : real_entries t -> real_entries (backend.transpose t).
Proof.
  unfold real_entries, backend.transpose. cbn [tdata]. intros H.
  apply Forall_map, Forall_forall. intros idx _.
  destruct (nth_in_or_default (backend.flat_index (tshape t) (rev idx)) (tdata t) C0)
    as [Hin | ->]; [| reflexivity].
  exact (proj1 (Forall_forall _ _) H _ Hin).
Qed.

(** X5.  Where the eigenvectors are real the code is the exact evolution. *)
Theorem hamiltonian_evol_real_eigenvectors
    (eigh : tensor -> tensor * tensor) (tlist h psi0 : tensor) :
  real_entries (snd (eigh h)) ->
  hamiltonian_evol eigh tlist h psi0 None
  = exact_evolutions (fst (eigh h)) (snd (eigh h)) psi0 tlist.
Proof.
  intros Hu. unfold hamiltonian_evol, exact_evolutions, adjoint.
  destruct (eigh h) as [es u]. cbn [fst snd] in *.
  rewrite (conj_real u Hu), (conj_real _ (transpose_real u Hu)). reflexivity.
Qed.

Local Close Scope R_scope.

(** ** Short batches *)

(** C3.  A batch with fewer rows than [chunk_size] makes the chunked
    wrapper raise (it stacks an empty list of chunk results), although the
    plain vmap of the same function on the same batch returns. *)
Theorem adaptive_vmap_short_batch (f : pyfun) (c n : nat) (sh osh : list nat) (d : list C) :
  1 <= n -> n < c ->
  (forall k r, backend.getitem (mkT (n :: sh) d) k = Ok r ->
               exists o, f [r] = Ok o /\ tshape o = osh) ->
  adaptive_vmap f (AInt 0) (Some c) [mkT (n :: sh) d] = Raise BackendError
  /\ exists out, backend.vmap f (AInt 0) [mkT (n :: sh) d] = Ok out.
Proof.
  intros Hn Hc Hf. split.
  - unfold adaptive_vmap.
    cbn [as_seq index_list nth_error bind backend.shape0 tshape].
    rewrite divmod_pos by lia. cbn [bind].
    rewrite Nat.div_small, Nat.mod_small by assumption.
    cbn [enumerate length seq combine mapM bind].
    change (mem 0 [0]) with true. cbv iota.
    destruct (Nat.eqb_spec n 0) as [Hz | _]; [lia|]. cbn [negb bind].
    unfold backend.slice_last, backend.slice_init.
    cbn [tshape tdata bind backend.shape_tuple tl].
    rewrite reshape_of_nat. unfold backend.sizen. cbn [tshape tdata].
    rewrite Nat.sub_diag.
    destruct (Nat.eqb_spec (prod (0 :: c :: sh)) (prod (0 :: sh))) as [_ | Hne];
      [| exfalso; apply Hne; reflexivity].
    reflexivity.
  - assert (Hg : forall k, k < n ->
               f [row sh d k] = Ok (out_of f sh d k) /\ tshape (out_of f sh d k) = osh).
    { intros k Hk. destruct (Hf k (row sh d k) (getitem_row n sh d k Hk)) as [o [Ho Hs]].
      unfold out_of. rewrite Ho. auto. }
    rewrite (vmap_single f (AInt 0) n sh d (out_of f sh d) eq_refl)
      by (intros; apply Hg; assumption).
    rewrite (stack_uniform _ osh).
    + eexists. reflexivity.
    + destruct n; [lia | discriminate].
    + intros t Ht. apply in_map_iff in Ht. destruct Ht as [k [<- Hk]].
      apply in_seq in Hk. apply Hg. lia.
Qed.

(** Rows that are matrices come back flattened: the merge of the two
    leading axes reshapes to [-1] everything behind them. *)
Lemma adaptive_vmap_flattens_rows :
  adaptive_vmap Examples.first_arg (AInt 0) (Some 2) [Examples.matrix_rows]
  = Ok (mkT [2; 2] [C1; C0; C0; C1])
  /\ backend.vmap Examples.first_arg (AInt 0) [Examples.matrix_rows]
     = Ok (mkT [2; 1; 2] [C1; C0; C0; C1]).
Proof. split; reflexivity. Qed.

(** Without a chunk size the plain vmap is returned unchanged. *)
Lemma adaptive_vmap_no_chunk (f : pyfun) (v : int_or_seq) :
  adaptive_vmap f v None = backend.vmap f v.
Proof. reflexivity. Qed.

(** ** The list of vectorized functions is indexed by argument position *)

Lemma setitem_list_Ok {A : Type} (l : list A) (i : nat) (a v : A) :
  nth_error l i = Some a -> exists l', setitem_list l i v = Ok l'.
Proof.
  revert i. induction l as [|x l IH]; intros [|i] H; try discriminate.
  - eexists. reflexivity.
  - cbn [nth_error] in H. destruct (IH i H) as [l' Hl].
    cbn [setitem_list]. rewrite Hl. eexists. reflexivity.
Qed.

(** C4.  [vfs] has one entry per element of [argnums] but is indexed by
    the argument position itself: differentiating any argument other than
    the first through [argnums = i] raises IndexError, whatever [f] and
    the arguments are. *)
Theorem parameter_shift_grad_misindexed (f : pyfun) (i : nat) (jit : bool)
    (shifts : R * R) (args : list tensor) :
  1 <= i ->
  parameter_shift_grad f (AInt i) jit shifts args = Raise IndexError.
Proof.
  intros Hi. unfold parameter_shift_grad.
  cbn [as_seq mapM]. unfold index_list at 1.
  destruct (nth_error args i) as [a|] eqn:Ea; [| reflexivity].
  cbn [bind]. cbv zeta. unfold backend.cast, backend.shape_tuple.
  rewrite !reshape_of_nat.
  unfold backend.sizen at 2. cbn [backend.eye tshape].
  destruct (Nat.eqb_spec (prod (backend.sizen a :: tshape a)) (prod [backend.sizen a; backend.sizen a]))
    as [_ | Hne];
    [| exfalso; apply Hne; cbn [prod fold_right]; unfold backend.sizen, prod; lia].
  cbn [bind].
  destruct (Nat.eqb_spec (prod (1 :: tshape a)) (backend.sizen a)) as [_ | Hne];
    [| exfalso; apply Hne; cbn [prod fold_right]; unfold backend.sizen, prod; lia].
  cbn [bind]. unfold backend.tile. cbn [tshape tdata length].
  rewrite length_map, Nat.eqb_refl, tile_shape. cbn [bind].
  unfold backend.add, backend.sub.
  rewrite !binop_same_shape by reflexivity. cbn [bind].
  destruct (setitem_list_Ok args i a
              (mkT (backend.sizen a :: tshape a)
                 (backend.zip_with Cadd
                    (backend.tile_data (1 :: tshape a)
                       (backend.sizen a :: map (fun _ => 1) (tshape a)) (tdata a))
                    (tdata (backend.scale (fst shifts)
                       (mkT (backend.sizen a :: tshape a) (tdata (backend.eye (backend.sizen a))))))))
              Ea) as [l1 H1].
  cbn [tshape tdata] in *. rewrite H1. cbn [bind].
  destruct (setitem_list_Ok args i a
              (mkT (backend.sizen a :: tshape a)
                 (backend.zip_with Csub
                    (backend.tile_data (1 :: tshape a)
                       (backend.sizen a :: map (fun _ => 1) (tshape a)) (tdata a))
                    (tdata (backend.scale (fst shifts)
                       (mkT (backend.sizen a :: tshape a) (tdata (backend.eye (backend.sizen a))))))))
              Ea) as [l2 H2].
  cbn [tshape tdata] in *. rewrite H2. cbn [bind map].
  destruct i as [|i]; [lia|].
  unfold index_list. cbn [nth_error]. rewrite nth_error_nil. reflexivity.
Qed.

(** ** Shape and arity of the gradients, both variants *)

(** C10.  Whenever the gradient function of [parameter_shift_grad] or of
    [parameter_shift_grad_v2] returns, each gradient has the shape of the
    argument it differentiates, in the order of [argnums]; the result is a
    tuple exactly when [argnums] lists more than one position, and the one
    gradient itself otherwise. *)
Theorem grad_f_shape_and_arity (random_split : tensor -> tensor * tensor)
    (f : pyfun) (argnums : int_or_seq) (jit : bool) (random_argnums : option int_or_seq)
    (shifts : R * R) (args : list tensor) (res : grads) :
  parameter_shift_grad f argnums jit shifts args = Ok res
  \/ parameter_shift_grad_v2 random_split f argnums jit random_argnums shifts args = Ok res ->
  shape_and_arity args argnums res.
Proof.
  intros [H | H].
  - eapply parameter_shift_grad_shape_arity; exact H.
  - eapply parameter_shift_grad_v2_shape_arity; exact H.
Qed.

(** ** The properties at concrete inputs *)

Lemma adaptive_vmap_short_batch_witness :
  adaptive_vmap Examples.first_arg (AInt 0) (Some 2) [Examples.one_row] = Raise BackendError
  /\ exists out, backend.vmap Examples.first_arg (AInt 0) [Examples.one_row] = Ok out.
Proof.
  apply (adaptive_vmap_short_batch Examples.first_arg 2 1 [] [] [C1]); [lia | lia |].
  intros k r H. exists r. split; [reflexivity|].
  unfold backend.getitem in H. cbn [tshape] in H.
  destruct (k <? 1); [| discriminate]. injection H as <-. reflexivity.
Defined.

Lemma parameter_shift_grad_misindexed_witness :
  parameter_shift_grad Examples.sum_entries (AInt 1) false shifts_default
    [Examples.two_entries; Examples.two_entries] = Raise IndexError.
Proof.
  apply (parameter_shift_grad_misindexed Examples.sum_entries 1 false shifts_default
           [Examples.two_entries; Examples.two_entries]).
  lia.
Defined.

Lemma qng_default_fisher_information_witness :
  exists out,
    qng Examples.jacobian Examples.jacobian Examples.state "qng" (PStr "qng") "fwd"
        Examples.one_param = Ok out
    /\ tshape out = [1; 1]
    /\ forall i j, i < 1 -> j < 1 ->
         nth (i * 1 + j) (tdata out) C0
         = Creal (Cadd (fisher [C1; C0] [C1; Ci] 2 1 i j)
                       (Cmul (RtoC eps_default) (if i =? j then C1 else C0))).
Proof.
  apply (qng_default_fisher_information Examples.jacobian Examples.jacobian Examples.state
           Examples.one_param [C1; C0] [C1; Ci] 2 1);
    [reflexivity | reflexivity | reflexivity | lia].
Defined.

Lemma postprocess_validation_witness :
  post_process_contract
    (fun p => qng Examples.jacobian Examples.jacobian Examples.state "qng" p "fwd"
                  Examples.one_param)
    (mkT [1; 1] [fisher [C1; C0] [C1; Ci] 2 1 0 0])
  /\ post_process_contract
       (fun p => qng2 Examples.jacobian Examples.jacobian Examples.pullback Examples.state
                      "qng" p "rev" Examples.one_param)
       (mkT [2; 1] [C1; Ci]).
Proof.
  apply (postprocess_validation Examples.jacobian Examples.jacobian Examples.pullback
           Examples.state "qng" "fwd" "rev" Examples.one_param).
  - apply (qng_kernel_matrix_value Examples.jacobian Examples.jacobian Examples.state
             Examples.one_param [C1; C0] [C1; Ci] 2 1);
      [reflexivity | reflexivity | reflexivity | lia].
  - reflexivity.
Defined.

Lemma dynamics_rhs_gradient_witness :
  forward.dynamics_rhs line_and_square Examples.pauli_z Examples.one_param
  = forward.grad
      (energy_fixed_ket line_and_square Examples.pauli_z (mkT [2] [C1; Cmul C1 C1]))
      Examples.one_param
  /\ forward.dynamics_rhs line_and_square Examples.pauli_z Examples.one_param
     = Ok (mkT [1] [((-1)%R, 0%R)]).
Proof.
  destruct (dynamics_rhs_gradient line_and_square Examples.pauli_z [C1; C0; C0; Cneg C1]
              [C1; Cmul C1 C1] (fun _ => [C1; Cadd (Cmul C1 C1) (Cmul C1 C1)]) 2
              Examples.one_param) as [Hgrad Hval].
  - intros k Hk. destruct k as [|k]; [reflexivity|].
    exfalso. revert Hk. cbv. lia.
  - reflexivity.
  - split; [exact Hgrad|]. rewrite Hval. tensor_value.
Defined.

Lemma qng_kernel_precondition_witness :
  qng Examples.jacobian Examples.jacobian Examples.state "spsa" (PStr "other") "fwd"
      Examples.one_param = Raise (UnboundLocalError "ij")
  /\ forall name,
       qng Examples.jacobian Examples.jacobian Examples.state "dynamics" PNone "fwd"
           Examples.one_param <> Raise (UnboundLocalError name).
Proof.
  split.
  - apply (proj1 (qng_kernel_precondition Examples.jacobian Examples.jacobian
                    Examples.state "spsa" (PStr "other") "fwd" Examples.one_param
                    (mkT [2; 1] [C1; Ci]) eq_refl)).
    split; discriminate.
  - apply (proj2 (qng_kernel_precondition Examples.jacobian Examples.jacobian
                    Examples.state "dynamics" PNone "fwd" Examples.one_param
                    (mkT [2; 1] [C1; Ci]) eq_refl)).
    right. reflexivity.
Defined.

Lemma grad_f_shape_and_arity_witness :
  shape_and_arity [Examples.two_entries] (AInt 0)
    (Single (mkT [2]
       (map (fun k =>
               Cdiv (Csub (value_of (Examples.sum_entries
                                       [shift_by Cadd Examples.two_entries (PI / 2) k]))
                          (value_of (Examples.sum_entries
                                       [shift_by Csub Examples.two_entries (PI / 2) k])))
                    (RtoC 2))
            (seq 0 2)))).
Proof.
  apply (grad_f_shape_and_arity Examples.no_split Examples.sum_entries (AInt 0) false None
           shifts_default [Examples.two_entries]).
  left.
  apply (parameter_shift_grad_formula Examples.sum_entries false (PI / 2) 2
           Examples.two_entries []).
  - reflexivity.
  - intros k _. eexists. eexists. split; reflexivity.
  - cbv. lia.
Defined.

(** ** Callables and computed values *)

(** Where [build_vfs] returns, its list is the one [grad_f] is embedded
    with. *)
Lemma build_vfs_list (f : pyfun) (argnums : pysequence) (jit : bool)
    (random_argnums : option pysequence) (vfs : list pyfun) :
  toplevel.build_vfs f argnums jit random_argnums = Ok vfs ->
  vfs = match option_map as_seq (option_map as_int_or_seq random_argnums) with
        | None => map (fun i => backend.vmap (if jit then backend.jit f else f) (AInt i))
                      (items argnums)
        | Some r => map (fun i => backend.vmap (if jit then backend.jit f else f)
                                               (ASeq ([i] ++ r)))
                        (items argnums)
        end.
Proof.
  unfold toplevel.build_vfs.
  assert (Hitems : items match argnums with
                         | PyInt i => PyList [i]
                         | _ => argnums
                         end = items argnums) by (destruct argnums; reflexivity).
  rewrite Hitems.
  destruct random_argnums as [[j | l | l] |]; cbn [option_map as_int_or_seq as_seq].
  - rewrite (mapM_Ok _ (fun i => backend.vmap (if jit then backend.jit f else f)
                                              (ASeq ([i] ++ [j]))))
      by (intros; reflexivity).
    intros [= <-]. reflexivity.
  - rewrite (mapM_Ok _ (fun i => backend.vmap (if jit then backend.jit f else f)
                                              (ASeq ([i] ++ l))))
      by (intros; reflexivity).
    intros [= <-]. reflexivity.
  - destruct (items argnums) as [|i rest]; cbn [mapM list_add bind map];
      [intros [= <-]; reflexivity | discriminate].
  - intros [= <-]. reflexivity.
Qed.




(** * Further properties of the code *)

(** ** adaptive_vmap with arguments that are passed whole *)

Lemma split_tail (s1 s2 c : nat) (rest : list tensor) (s : nat) :
  1 <= s ->
  mapM (fun '(i, arg) =>
          if mem i [0] then
            '(arg, arg_rest) <-
               (if negb (s2 =? 0)
                then arg_rest <- backend.slice_last arg s2 ;;
                     arg' <- backend.slice_init arg s2 ;;
                     Ok (arg', Some arg_rest)
                else Ok (arg, None)) ;;
            arg <- backend.reshape arg
                     (map Z.of_nat (s1 :: c :: tl (backend.shape_tuple arg))) ;;
            Ok (arg, arg_rest)
          else Ok (arg, Some arg))
       (combine (seq s (length rest)) rest)
  = Ok (map (fun a => (a, Some a)) rest).
Proof.
  revert s. induction rest as [|a rest IH]; intros s Hs; [reflexivity|].
  cbn [length seq combine mapM map].
  replace (mem s [0]) with false by (destruct s; [lia | reflexivity]).
  cbn [bind]. rewrite IH by lia. reflexivity.
Qed.

Lemma rest_args_tail (rest : list tensor) :
  flat_map (fun p : tensor * option tensor =>
              match snd p with
              | Some a => [a]
              | None => []
              end) (map (fun a => (a, Some a)) rest) = rest.
Proof.
  induction rest as [|a rest IH]; [reflexivity|].
  cbn [map flat_map snd app]. rewrite IH. reflexivity.
Qed.

Lemma fst_tail (rest : list tensor) :
  map fst (map (fun a : tensor => (a, Some a)) rest) = rest.
Proof. rewrite map_map. cbn [fst]. apply map_id. Qed.

(** One chunk: slice [i] of the reshaped batch, the other arguments whole. *)
Lemma chunk_call_with (f : pyfun) (c s1 : nat) (sh osh : list nat) (D : list C)
    (rest : list tensor) (g : nat -> tensor) (i : nat) :
  1 <= c -> i < s1 ->
  (forall k, k < s1 * c -> f (row sh D k :: rest) = Ok (g k) /\ tshape (g k) = osh) ->
  (nreshape_args <- mapM (fun '(j, a) =>
       if mem j [0] then backend.getitem a i else Ok a)
     (enumerate (mkT (s1 :: c :: sh) D :: rest)) ;;
   backend.vmap f (ASeq [0]) nreshape_args)
  = Ok (chunk_outputs g c osh i).
Proof.
  intros Hc Hi Hg.
  cbn [enumerate length seq combine mapM bind].
  change (mem 0 [0]) with true. cbv iota.
  rewrite getitem_row by assumption. cbn [bind].
  rewrite slices_tail by (intros j Hj; destruct j; [lia | reflexivity]).
  cbn [bind].
  unfold row at 1. change (prod (c :: sh)) with (c * prod sh).
  rewrite (vmap_first f (ASeq [0]) c sh _ rest (fun b => g (i * c + b)) eq_refl).
  - rewrite (stack_uniform _ osh).
    + rewrite length_map, length_seq. unfold chunk_outputs.
      rewrite (map_seq_shift g (i * c) c). reflexivity.
    + destruct c; [lia | discriminate].
    + intros t Ht. apply in_map_iff in Ht. destruct Ht as [b [<- Hb]].
      apply in_seq in Hb. apply Hg. nia.
  - intros b Hb.
    replace (i * (c * prod sh)) with ((i * c) * prod sh) by lia.
    rewrite row_block by assumption. apply Hg. nia.
Qed.

Lemma chunk_pipeline_with (f : pyfun) (c s1 : nat) (sh osh : list nat) (D : list C)
    (rest : list tensor) (g : nat -> tensor) :
  1 <= c -> 1 <= s1 ->
  (forall k, k < s1 * c -> f (row sh D k :: rest) = Ok (g k) /\ tshape (g k) = osh) ->
  mapM (fun i =>
          nreshape_args <- mapM (fun '(j, a) =>
              if mem j [0] then backend.getitem a i else Ok a)
            (enumerate (mkT (s1 :: c :: sh) D :: rest)) ;;
          backend.vmap f (ASeq [0]) nreshape_args)
       (seq 0 s1)
  = Ok (map (chunk_outputs g c osh) (seq 0 s1))
  /\ backend.stack (map (chunk_outputs g c osh) (seq 0 s1))
     = Ok (mkT (s1 :: c :: osh) (concat (map tdata (map g (seq 0 (s1 * c)))))).
Proof.
  intros Hc Hs1 Hg. split.
  - apply mapM_Ok. intros i Hi. apply in_seq in Hi.
    apply (chunk_call_with f c s1 sh osh D rest g i); [assumption | lia | assumption].
  - rewrite (stack_uniform _ (c :: osh)).
    + rewrite length_map, length_seq, map_map. cbn [chunk_outputs tdata].
      do 2 f_equal. rewrite (map_map g tdata).
      rewrite <- (concat_map_seq_mul (fun k => tdata (g k)) c s1).
      f_equal. apply map_ext. intros i. rewrite map_map. reflexivity.
    + destruct s1; [lia | discriminate].
    + intros t Ht. apply in_map_iff in Ht. destruct Ht as [i [<- _]]. reflexivity.
Qed.

(** The merge of the two leading axes when the outputs have rank >= 1:
    everything behind them becomes one axis. *)
Lemma reshape_flatten (s1 c : nat) (osh : list nat) (D : list C) :
  1 <= c -> 1 <= s1 -> 1 <= length osh ->
  backend.reshape (mkT (s1 :: c :: osh) D)
    (if length (s1 :: c :: osh) =? 2
     then [Z.of_nat (s1 * c)]
     else [Z.of_nat (s1 * c); (-1)%Z])
  = Ok (mkT [s1 * c; prod osh] D).
Proof.
  intros Hc Hs1 Hosh.
  destruct osh as [|d0 osh]; [simpl in Hosh; lia|].
  cbn [length Nat.eqb].
  unfold backend.reshape, backend.sizen.
  cbn [tshape tdata existsb count_occ filter map negb orb].
  assert (Hk : s1 * c <> 0) by nia.
  destruct (Z.ltb_spec (Z.of_nat (s1 * c)) (-1)); [lia|].
  cbn [orb Z.ltb Z.compare].
  destruct (Z.eq_dec (Z.of_nat (s1 * c)) (-1)); [lia|].
  destruct (Z.eq_dec (-1) (-1)); [|congruence].
  destruct (Z.eqb_spec (Z.of_nat (s1 * c)) (-1)); [lia|].
  cbn [negb Z.eqb Pos.eqb map].
  change (prod [Z.to_nat (Z.of_nat (s1 * c))]) with (Z.to_nat (Z.of_nat (s1 * c)) * 1).
  rewrite Nat2Z.id, Nat.mul_1_r.
  change (prod (s1 :: c :: d0 :: osh)) with (s1 * (c * prod (d0 :: osh))).
  replace (s1 * (c * prod (d0 :: osh))) with (prod (d0 :: osh) * (s1 * c)) by lia.
  rewrite Nat.Div0.mod_mul, Nat.div_mul by assumption.
  destruct (Nat.eqb_spec (s1 * c) 0); [lia|].
  reflexivity.
Qed.

(** The first two stages of the wrapper on [x :: rest]: the batch is split
    and reshaped, the other arguments are kept; then the chunks run. *)
Lemma adaptive_vmap_front (f : pyfun) (c n : nat) (sh osh : list nat) (d : list C)
    (rest : list tensor) :
  1 <= c -> c <= n ->
  (forall k, k < n -> f (row sh d k :: rest) = Ok (out_with f rest sh d k)
                      /\ tshape (out_with f rest sh d k) = osh) ->
  let g := out_with f rest sh d in
  let s1 := n / c in
  let s2 := n mod c in
  adaptive_vmap f (AInt 0) (Some c) (mkT (n :: sh) d :: rest)
  = (r <- backend.reshape (mkT (s1 :: c :: osh) (concat (map tdata (map g (seq 0 (s1 * c))))))
            (if length (s1 :: c :: osh) =? 2
             then [Z.of_nat (s1 * c)]
             else [Z.of_nat (s1 * c); (-1)%Z]) ;;
     if negb (s2 =? 0) then
       rest_r <- backend.stack (map (fun b => g (s1 * c + b)) (seq 0 s2)) ;;
       backend.concat [r; rest_r]
     else Ok r).
Proof.
  intros Hc Hn Hg g s1 s2.
  unfold adaptive_vmap.
  cbn [as_seq index_list nth_error bind backend.shape0 tshape].
  rewrite divmod_pos by assumption. cbn [bind].
  fold s1 s2.
  assert (Hdiv : n = s1 * c + s2)
    by (unfold s1, s2; rewrite Nat.mul_comm; apply Nat.div_mod_eq).
  assert (Hs2 : s2 < c) by (apply Nat.mod_upper_bound; lia).
  assert (Hs1 : 1 <= s1) by (unfold s1; apply Nat.div_le_lower_bound; lia).
  cbn [enumerate length seq combine mapM bind].
  change (mem 0 [0]) with true. cbv iota.
  rewrite split_tail by lia.
  destruct (Nat.eqb_spec s2 0) as [Hz | Hnz]; cbn [negb bind].
  - cbn [backend.shape_tuple tshape tl].
    rewrite reshape_of_nat. unfold backend.sizen. cbn [tshape tdata].
    destruct (Nat.eqb_spec (prod (s1 :: c :: sh)) (prod (n :: sh))) as [_ | Hne];
      [| exfalso; apply Hne; cbn [prod fold_right]; nia].
    cbn [bind map fst]. rewrite fst_tail.
    destruct (chunk_pipeline_with f c s1 sh osh d rest g Hc Hs1) as [Hloop Hstack].
    { intros k Hk. apply Hg. nia. }
    rewrite Hloop. cbn [bind]. rewrite Hstack. cbn [bind].
    cbn [backend.shape_tuple tshape index_list nth_error bind]. reflexivity.
  - unfold backend.slice_last, backend.slice_init.
    cbn [tshape tdata bind backend.shape_tuple tl].
    replace (n - (n - s2)) with s2 by lia.
    replace (n - s2) with (s1 * c) by lia.
    rewrite reshape_of_nat. unfold backend.sizen. cbn [tshape tdata].
    destruct (Nat.eqb_spec (prod (s1 :: c :: sh)) (prod (s1 * c :: sh))) as [_ | Hne];
      [| exfalso; apply Hne; cbn [prod fold_right]; nia].
    cbn [bind map fst flat_map snd app]. rewrite fst_tail, rest_args_tail.
    destruct (chunk_pipeline_with f c s1 sh osh (firstn (s1 * c * prod sh) d) rest g Hc Hs1)
      as [Hloop Hstack].
    { intros k Hk. rewrite row_firstn by assumption. apply Hg. nia. }
    rewrite Hloop. cbn [bind]. rewrite Hstack. cbn [bind].
    cbn [backend.shape_tuple tshape index_list nth_error bind].
    rewrite (vmap_first f (ASeq [0]) s2 sh _ rest (fun b => g (s1 * c + b)) eq_refl).
    2:{ intros b Hb. rewrite row_skip. apply Hg. nia. }
    reflexivity.
Qed.

Lemma out_with_rows (f : pyfun) (n : nat) (sh osh : list nat) (d : list C)
    (rest : list tensor) :
  (forall k r, backend.getitem (mkT (n :: sh) d) k = Ok r ->
               exists o, f (r :: rest) = Ok o /\ tshape o = osh) ->
  forall k, k < n -> f (row sh d k :: rest) = Ok (out_with f rest sh d k)
                     /\ tshape (out_with f rest sh d k) = osh.
Proof.
  intros Hf k Hk.
  destruct (Hf k (row sh d k) (getitem_row n sh d k Hk)) as [o [Ho Hs]].
  unfold out_with. rewrite Ho. auto.
Qed.

Lemma vmap_rows (f : pyfun) (n : nat) (sh osh : list nat) (d : list C)
    (rest : list tensor) :
  1 <= n ->
  (forall k r, backend.getitem (mkT (n :: sh) d) k = Ok r ->
               exists o, f (r :: rest) = Ok o /\ tshape o = osh) ->
  backend.vmap f (AInt 0) (mkT (n :: sh) d :: rest)
  = Ok (mkT (n :: osh) (concat (map tdata (map (out_with f rest sh d) (seq 0 n))))).
Proof.
  intros Hn Hf.
  pose proof (out_with_rows f n sh osh d rest Hf) as Hg.
  rewrite (vmap_first f (AInt 0) n sh d rest (out_with f rest sh d) eq_refl)
    by (intros; apply Hg; assumption).
  rewrite (stack_uniform _ osh).
  - rewrite length_map, length_seq. reflexivity.
  - destruct n; [lia | discriminate].
  - intros t Ht. apply in_map_iff in Ht. destruct Ht as [k [<- Hk]].
    apply in_seq in Hk. apply Hg. lia.
Qed.

Lemma rows_split (g : nat -> tensor) (a b : nat) :
  concat (map tdata (map g (seq 0 a)))
  ++ concat (map tdata (map (fun k => g (a + k)) (seq 0 b)))
  = concat (map tdata (map g (seq 0 (a + b)))).
Proof.
  rewrite seq_app, !map_app, concat_app. f_equal.
  rewrite (map_seq_shift g a b). reflexivity.
Qed.

(** X1.  Arguments that are not vectorized are passed whole to every chunk and
    to the call on the remaining rows: with at least [chunk_size] rows and
    outputs that are scalars or vectors of one shape, the wrapper and the
    plain vmap agree. *)
Theorem adaptive_vmap_broadcast_arguments
    (f : pyfun) (c n : nat) (sh osh : list nat) (d : list C) (rest : list tensor) :
  1 <= c -> c <= n -> length osh <= 1 ->
  (forall k r, backend.getitem (mkT (n :: sh) d) k = Ok r ->
               exists o, f (r :: rest) = Ok o /\ tshape o = osh) ->
  adaptive_vmap f (AInt 0) (Some c) (mkT (n :: sh) d :: rest)
  = backend.vmap f (AInt 0) (mkT (n :: sh) d :: rest)
  /\ exists out, backend.vmap f (AInt 0) (mkT (n :: sh) d :: rest) = Ok out.
Proof.
  intros Hc Hn Hosh Hf.
  pose proof (out_with_rows f n sh osh d rest Hf) as Hg.
  rewrite (vmap_rows f n sh osh d rest) by (assumption || lia).
  split; [| eexists; reflexivity].
  rewrite (adaptive_vmap_front f c n sh osh d rest Hc Hn Hg).
  set (g := out_with f rest sh d) in *.
  set (s1 := n / c). set (s2 := n mod c).
  assert (Hdiv : n = s1 * c + s2)
    by (unfold s1, s2; rewrite Nat.mul_comm; apply Nat.div_mod_eq).
  assert (Hs1 : 1 <= s1) by (unfold s1; apply Nat.div_le_lower_bound; lia).
  rewrite (reshape_merge s1 c osh _ Hc Hs1 Hosh). cbn [bind].
  destruct (Nat.eqb_spec s2 0) as [Hz | Hnz]; cbn [negb].
  - replace (s1 * c) with n by lia. reflexivity.
  - rewrite (stack_uniform _ osh).
    2:{ destruct s2; [lia | discriminate]. }
    2:{ intros t Ht. apply in_map_iff in Ht. destruct Ht as [k [<- Hk]].
        apply in_seq in Hk. apply Hg. lia. }
    rewrite length_map, length_seq. cbn [bind].
    unfold backend.concat. cbn [tshape forallb].
    destruct (shape_eq_dec osh osh) as [_ | Hne]; [| congruence].
    cbn [andb map backend.lead tshape hd fold_right tdata concat].
    rewrite app_nil_r, Nat.add_0_r, rows_split, <- Hdiv. reflexivity.
Qed.

(** X2.  Outputs of rank two or more.  The merge of the chunk axes reshapes to
    [[s1 * c; -1]], so with no remaining rows the outputs come back
    flattened to one axis, and with remaining rows the final concat meets a
    matrix and a tensor of higher rank and raises. *)
Theorem adaptive_vmap_matrix_rows
    (f : pyfun) (c n : nat) (sh osh : list nat) (d : list C) (rest : list tensor) :
  1 <= c -> c <= n -> 2 <= length osh ->
  (forall k r, backend.getitem (mkT (n :: sh) d) k = Ok r ->
               exists o, f (r :: rest) = Ok o /\ tshape o = osh) ->
  exists D,
    backend.vmap f (AInt 0) (mkT (n :: sh) d :: rest) = Ok (mkT (n :: osh) D)
    /\ adaptive_vmap f (AInt 0) (Some c) (mkT (n :: sh) d :: rest)
       = if n mod c =? 0 then Ok (mkT [n; prod osh] D) else Raise BackendError.
Proof.
  intros Hc Hn Hosh Hf.
  pose proof (out_with_rows f n sh osh d rest Hf) as Hg.
  eexists. split; [apply (vmap_rows f n sh osh d rest); assumption || lia|].
  rewrite (adaptive_vmap_front f c n sh osh d rest Hc Hn Hg).
  set (g := out_with f rest sh d) in *.
  set (s1 := n / c). set (s2 := n mod c).
  assert (Hdiv : n = s1 * c + s2)
    by (unfold s1, s2; rewrite Nat.mul_comm; apply Nat.div_mod_eq).
  assert (Hs1 : 1 <= s1) by (unfold s1; apply Nat.div_le_lower_bound; lia).
  rewrite (reshape_flatten s1 c osh _ Hc Hs1) by lia. cbn [bind].
  destruct (Nat.eqb_spec s2 0) as [Hz | Hnz]; cbn [negb].
  - replace (s1 * c) with n by lia. reflexivity.
  - rewrite (stack_uniform _ osh).
    2:{ destruct s2; [lia | discriminate]. }
    2:{ intros t Ht. apply in_map_iff in Ht. destruct Ht as [k [<- Hk]].
        apply in_seq in Hk. apply Hg. lia. }
    rewrite length_map, length_seq. cbn [bind].
    unfold backend.concat. cbn [tshape forallb].
    destruct (shape_eq_dec [prod osh] [prod osh]) as [_ | Hne]; [| congruence].
    destruct (shape_eq_dec osh [prod osh]) as [He | _]; [| reflexivity].
    rewrite He in Hosh. simpl in Hosh. lia.
Qed.

(** X3.  A chunk size of zero: the [divmod] of the batch size raises before
    [f] is called. *)
Theorem adaptive_vmap_zero_chunk (f : pyfun) (v : int_or_seq) (args : list tensor)
    (v0 : nat) (x : tensor) (n : nat) (sh : list nat) :
  nth_error (as_seq v) 0 = Some v0 ->
  nth_error args v0 = Some x ->
  tshape x = n :: sh ->
  adaptive_vmap f v (Some 0) args = Raise ZeroDivisionError.
Proof.
  intros Hv Hx Hs. unfold adaptive_vmap, index_list, backend.shape0.
  rewrite Hv. cbn [bind]. rewrite Hx. cbn [bind]. rewrite Hs. reflexivity.
Qed.

(** ** hamiltonian_evol: what is computed *)

Lemma nth_conj (i : nat) (d : list C) : nth i (map Cconj d) C0 = Cconj (nth i d C0).
Proof. rewrite <- Cconj_0 at 1. apply map_nth. Qed.

Lemma transpose_conj (u : tensor) :
  backend.transpose (backend.conj u) = backend.conj (backend.transpose u).
Proof.
  unfold backend.transpose, backend.conj, backend.tmap. cbn [tshape tdata].
  f_equal. rewrite map_map. apply map_ext. intros idx. apply nth_conj.
Qed.

Lemma conj_conj (u : tensor) : backend.conj (backend.conj u) = u.
Proof.
  destruct u as [sh d]. unfold backend.conj, backend.tmap. cbn [tshape tdata].
  f_equal. rewrite map_map. rewrite <- (map_id d) at 2.
  apply map_ext. intros z. apply Cconj_conj.
Qed.

(** X4.  What the code computes is the exact evolution for the eigenvector
    matrix conj(u): the evolution under the complex conjugate (equally, the
    transpose) of the Hermitian matrix that [eigh] decomposed. *)
Theorem hamiltonian_evol_conjugate_eigenvectors
    (eigh : tensor -> tensor * tensor) (tlist h psi0 : tensor) :
  hamiltonian_evol eigh tlist h psi0 None
  = exact_evolutions (fst (eigh h)) (backend.conj (snd (eigh h))) psi0 tlist.
Proof.
  unfold hamiltonian_evol, exact_evolutions, adjoint.
  destruct (eigh h) as [es u]. cbn [fst snd].
  rewrite transpose_conj, conj_conj. reflexivity.
Qed.

(** ** hamiltonian_evol: the rows of the result *)

Lemma matmul_shape (a b m : tensor) :
  backend.matmul a b = Ok m ->
  exists r k c, tshape a = [r; k] /\ tshape b = [k; c] /\ tshape m = [r; c]
                /\ length (tdata m) = r * c.
Proof.
  unfold backend.matmul, backend.tensordot1.
  destruct (tshape a) as [|r [|k [|x sa]]]; cbn [length Nat.eqb andb]; try discriminate.
  destruct (tshape b) as [|k' [|c [|y sb]]]; cbn [length Nat.eqb andb]; try discriminate.
  cbn [rev app].
  destruct (Nat.eqb_spec k k') as [<- |]; [|discriminate].
  intros [= <-]. exists r, k, c. cbn [tshape tdata rev app prod fold_right].
  repeat split.
  rewrite (flat_map_concat_map _ (seq 0 (r * 1))).
  rewrite (length_blocks _ (c * 1)) by (intros; rewrite length_map, length_seq; reflexivity).
  lia.
Qed.

Lemma reshape_flat (m p : tensor) :
  backend.reshape m [(-1)%Z] = Ok p ->
  tshape p = [backend.sizen m] /\ tdata p = tdata m.
Proof.
  unfold backend.reshape. set (s := backend.sizen m).
  cbn -[Nat.div Nat.modulo].
  destruct (Z.eq_dec (-1) (-1)); [|congruence].
  rewrite Nat.mod_1_r, Nat.div_1_r. cbn [Nat.eqb negb].
  intros [= <-]. auto.
Qed.

Lemma reshape_column_shape (e col : tensor) :
  backend.reshape e [(-1)%Z; 1%Z] = Ok col -> tshape col = [backend.sizen e; 1].
Proof.
  unfold backend.reshape. set (s := backend.sizen e).
  cbn -[Nat.div Nat.modulo].
  destruct (Z.eq_dec (-1) (-1)); [|congruence].
  destruct (Z.eq_dec 1 (-1)); [discriminate|].
  rewrite Nat.mod_1_r, Nat.div_1_r. cbn [Nat.eqb negb].
  intros [= <-]. reflexivity.
Qed.

Lemma mapM_ext {A B : Type} (F G : A -> result B) (l : list A) :
  (forall a, F a = G a) -> mapM F l = mapM G l.
Proof.
  intros H. induction l as [|a l IH]; [reflexivity|].
  cbn [mapM]. rewrite H, IH. reflexivity.
Qed.

Lemma mapM_post {A B D : Type} (F : A -> result B) (g : B -> D) (l : list A) :
  mapM (fun a => x <- F a ;; Ok (g x)) l = (xs <- mapM F l ;; Ok (map g xs)).
Proof.
  induction l as [|a l IH]; [reflexivity|].
  cbn [mapM]. destruct (F a) as [x | e]; cbn [bind]; [| reflexivity].
  rewrite IH. destruct (mapM F l); reflexivity.
Qed.

(** The loop of [hamiltonian_evol] in terms of [evol_row]: the callback is
    applied to each state after it is normalised. *)
Lemma hamiltonian_evol_rows
    (eigh : tensor -> tensor * tensor) (tlist h psi0 : tensor)
    (callback : option (tensor -> tensor)) :
  hamiltonian_evol eigh tlist h psi0 callback
  = (col0 <- backend.reshape psi0 [-1; 1]%Z ;;
     m <- backend.matmul (backend.transpose (snd (eigh h))) col0 ;;
     utpsi0 <- backend.reshape m [-1]%Z ;;
     ts <- backend.iter tlist ;;
     states <- mapM (evol_row (fst (eigh h)) (snd (eigh h)) utpsi0) ts ;;
     backend.stack (match callback with
                    | None => states
                    | Some callback => map callback states
                    end)).
Proof.
  unfold hamiltonian_evol. destruct (eigh h) as [es u]. cbn [fst snd].
  destruct (backend.reshape psi0 [-1; 1]%Z) as [col0 | e]; cbn [bind]; [| reflexivity].
  destruct (backend.matmul (backend.transpose u) col0) as [m | e]; cbn [bind];
    [| reflexivity].
  destruct (backend.reshape m [-1]%Z) as [utpsi0 | e]; cbn [bind]; [| reflexivity].
  destruct (backend.iter tlist) as [ts | e]; cbn [bind]; [| reflexivity].
  rewrite (mapM_ext _ (fun t => x <- evol_row es u utpsi0 t ;;
                                Ok (match callback with
                                    | None => x
                                    | Some callback => callback x
                                    end))).
  - rewrite mapM_post.
    destruct (mapM (evol_row es u utpsi0) ts) as [states | e]; cbn [bind]; [| reflexivity].
    destruct callback; [reflexivity | rewrite map_id; reflexivity].
  - intros t. unfold evol_row.
    destruct (backend.mul (backend.neg t) es) as [tes | e]; cbn [bind]; [| reflexivity].
    destruct (backend.mul (backend.exp tes) utpsi0) as [w | e]; cbn [bind]; [| reflexivity].
    destruct (backend.reshape w [-1; 1]%Z) as [col | e]; cbn [bind]; [| reflexivity].
    destruct (backend.matmul (backend.conj u) col) as [psi | e]; cbn [bind];
      [| reflexivity].
    destruct (backend.reshape psi [-1]%Z) as [psi' | e]; cbn [bind]; [| reflexivity].
    destruct (backend.div psi' (backend.norm psi')) as [q | e]; cbn [bind];
      [| reflexivity].
    destruct callback; reflexivity.
Qed.

(** Every state is a normalised vector whose length is the number of rows
    of [u]. *)
Lemma evol_row_value (es u utpsi0 t psi : tensor) :
  evol_row es u utpsi0 t = Ok psi ->
  exists r k l, tshape u = [r; k] /\ length l = r
                /\ psi = normalized (mkT [prod [r; 1]] l).
Proof.
  unfold evol_row. intros H. repeat bind_inv H.
  apply reshape_column_shape in E1.
  apply matmul_shape in E2. destruct E2 as (r & k & c & Hu & Hcol & Hm & Hlen).
  rewrite E1 in Hcol. injection Hcol as _ <-.
  apply reshape_flat in E3. destruct E3 as [Hs Hd].
  unfold backend.sizen in Hs. rewrite Hm in Hs.
  exists r, k, (tdata v3). unfold backend.conj, backend.tmap in Hu. cbn [tshape] in Hu.
  split; [exact Hu|]. split; [rewrite Hd, Hlen; lia|].
  destruct v3 as [sh3 d3]. cbn [tshape tdata] in *. subst sh3.
  rewrite div_norm in H. injection H as <-. reflexivity.
Qed.

Lemma normalized_shape (p : tensor) : tshape (normalized p) = tshape p.
Proof. reflexivity. Qed.

Lemma normalized_length (p : tensor) : length (tdata (normalized p)) = length (tdata p).
Proof. unfold normalized, backend.tmap. cbn [tdata]. apply length_map. Qed.

Lemma Forall2_In_r {A B : Type} (P : A -> B -> Prop) (l : list A) (l' : list B) (b : B) :
  Forall2 P l l' -> In b l' -> exists a, In a l /\ P a b.
Proof.
  induction 1 as [|a0 b0 l l' H0 _ IH]; intros Hb; [destruct Hb|].
  destruct Hb as [<- | Hb].
  - exists a0. split; [left; reflexivity | exact H0].
  - destruct (IH Hb) as [a [Ha HP]]. exists a. split; [right; exact Ha | exact HP].
Qed.

Lemma evol_rows_uniform (es u utpsi0 : tensor) (ts states : list tensor) :
  mapM (evol_row es u utpsi0) ts = Ok states ->
  forall s, In s states ->
    tshape s = [prod [hd 0 (tshape u); 1]] /\ length (tdata s) = hd 0 (tshape u)
    /\ exists p, s = normalized p.
Proof.
  intros H s Hs. apply mapM_Forall2 in H.
  destruct (Forall2_In_r _ _ _ s H Hs) as [t [_ Ht]].
  apply evol_row_value in Ht. destruct Ht as (r & k & l & Hu & Hl & ->).
  rewrite Hu. cbn [hd]. rewrite normalized_shape, normalized_length. cbn [tshape tdata].
  repeat split; [exact Hl | eexists; reflexivity].
Qed.

Lemma map_nth_all {A : Type} (l : list A) (dflt : A) :
  map (fun k => nth k l dflt) (seq 0 (length l)) = l.
Proof.
  induction l as [|a l IH]; [reflexivity|].
  cbn [length seq map nth]. f_equal.
  rewrite <- seq_shift, map_map. exact IH.
Qed.

Lemma block_of_rows (m : nat) (rows : list tensor) (k : nat) (dflt : tensor) :
  (forall s, In s rows -> length (tdata s) = m) -> k < length rows ->
  firstn m (skipn (k * m) (concat (map tdata rows))) = tdata (nth k rows dflt).
Proof.
  revert k. induction rows as [|s rows IH]; intros k Hm Hk; [simpl in Hk; lia|].
  cbn [map concat]. destruct k as [|k].
  - cbn [Nat.mul skipn nth].
    rewrite firstn_app, (Hm s (or_introl eq_refl)), Nat.sub_diag, firstn_0, app_nil_r.
    rewrite <- (Hm s (or_introl eq_refl)). apply firstn_all.
  - cbn [nth]. rewrite skipn_app, (Hm s (or_introl eq_refl)).
    replace (S k * m - m) with (k * m) by lia.
    rewrite skipn_all2 by (rewrite (Hm s (or_introl eq_refl)); lia).
    cbn [app]. apply IH; [intros; apply Hm; right; assumption | simpl in Hk; lia].
Qed.

(** Indexing a stack gives back the stacked tensor. *)
Lemma getitem_stack (sh : list nat) (rows : list tensor) (k : nat) (dflt : tensor) :
  (forall s, In s rows -> tshape s = sh /\ length (tdata s) = prod sh) ->
  k < length rows ->
  backend.getitem (mkT (length rows :: sh) (concat (map tdata rows))) k
  = Ok (nth k rows dflt).
Proof.
  intros H Hk. rewrite getitem_row by exact Hk. unfold row.
  rewrite (block_of_rows (prod sh) rows k dflt);
    [| intros; apply H; assumption | exact Hk].
  assert (Hin : In (nth k rows dflt) rows) by (apply nth_In; exact Hk).
  destruct (H _ Hin) as [<- _]. destruct (nth k rows dflt). reflexivity.
Qed.

Lemma iter_stack (sh : list nat) (rows : list tensor) :
  (forall s, In s rows -> tshape s = sh /\ length (tdata s) = prod sh) ->
  backend.iter (mkT (length rows :: sh) (concat (map tdata rows))) = Ok rows.
Proof.
  intros H. unfold backend.iter. cbn [tshape].
  rewrite (mapM_Ok _ (fun k => nth k rows (scalar C0))).
  - rewrite map_nth_all. reflexivity.
  - intros k Hk. apply in_seq in Hk. apply getitem_stack; [exact H | lia].
Qed.

Lemma evol_rows_stack (es u utpsi0 : tensor) (ts states : list tensor) :
  mapM (evol_row es u utpsi0) ts = Ok states ->
  forall s, In s states ->
    tshape s = [prod [hd 0 (tshape u); 1]]
    /\ length (tdata s) = prod [prod [hd 0 (tshape u); 1]].
Proof.
  intros H s Hs. destruct (evol_rows_uniform es u utpsi0 ts states H s Hs) as (H1 & H2 & _).
  split; [exact H1|]. rewrite H2. cbn [prod fold_right]. lia.
Qed.

(** X6.  A callback is applied to each row of the result there is without it:
    the rows are computed and normalised first, whatever the callback. *)
Theorem hamiltonian_evol_callback
    (eigh : tensor -> tensor * tensor) (tlist h psi0 : tensor) (callback : tensor -> tensor) :
  hamiltonian_evol eigh tlist h psi0 (Some callback)
  = (out <- hamiltonian_evol eigh tlist h psi0 None ;;
     rows <- backend.iter out ;;
     backend.stack (map callback rows)).
Proof.
  rewrite !hamiltonian_evol_rows.
  destruct (backend.reshape psi0 [-1; 1]%Z) as [col0 | e]; cbn [bind]; [| reflexivity].
  destruct (backend.matmul (backend.transpose (snd (eigh h))) col0) as [m | e];
    cbn [bind]; [| reflexivity].
  destruct (backend.reshape m [-1]%Z) as [utpsi0 | e]; cbn [bind]; [| reflexivity].
  destruct (backend.iter tlist) as [ts | e]; cbn [bind]; [| reflexivity].
  destruct (mapM (evol_row (fst (eigh h)) (snd (eigh h)) utpsi0) ts) as [states | e] eqn:Hs;
    cbn [bind]; [| reflexivity].
  destruct states as [|s0 states]; [reflexivity|].
  pose proof (evol_rows_stack _ _ _ _ _ Hs) as Hu.
  rewrite (stack_uniform (s0 :: states) _) by (discriminate || (intros; apply Hu; assumption)).
  cbn [bind]. rewrite iter_stack by exact Hu. reflexivity.
Qed.

(** X7.  The result has one row per time, each as long as the matrix of
    eigenvectors has rows. *)
Theorem hamiltonian_evol_shape
    (eigh : tensor -> tensor * tensor) (tlist h psi0 out : tensor) :
  hamiltonian_evol eigh tlist h psi0 None = Ok out ->
  tshape out = [hd 0 (tshape tlist); hd 0 (tshape (snd (eigh h)))].
Proof.
  rewrite hamiltonian_evol_rows. intros H. repeat bind_inv H.
  pose proof (evol_rows_stack _ _ _ _ _ E3) as Hu.
  assert (Hlen : length v3 = hd 0 (tshape tlist)).
  { rewrite (mapM_length _ _ _ E3). unfold backend.iter in E2.
    destruct (tshape tlist) as [|n sh]; [discriminate|].
    rewrite (mapM_length _ _ _ E2), length_seq. reflexivity. }
  destruct v3 as [|s0 states]; [discriminate|].
  rewrite (stack_uniform (s0 :: states) _) in H
    by (discriminate || (intros; apply Hu; assumption)).
  apply (f_equal (fun r => tshape match r with Ok o => o | Raise _ => out end)) in H.
  cbn beta iota in H. rewrite <- H. cbn [tshape]. rewrite Hlen. cbn [prod fold_right].
  rewrite !Nat.mul_1_r. reflexivity.
Qed.

Local Open Scope R_scope.

Lemma Cnorm2_mul (a b : C) : Cnorm2 (Cmul a b) = Cnorm2 a * Cnorm2 b.
Proof. unfold Cnorm2, Cmul. simpl. ring. Qed.

Lemma Cnorm2_nonneg (a : C) : 0 <= Cnorm2 a.
Proof. unfold Cnorm2. nra. Qed.

Lemma sum_norm2_nonneg (t : tensor) : 0 <= sum_norm2 t.
Proof.
  unfold sum_norm2. induction (tdata t) as [|z l IH]; cbn [map fold_right]; [lra|].
  pose proof (Cnorm2_nonneg z). lra.
Qed.

Lemma sum_norm2_scaled (w : C) (l : list C) :
  fold_right Rplus 0 (map Cnorm2 (map (fun x => Cdiv x w) l))
  = fold_right Rplus 0 (map Cnorm2 l) * Cnorm2 (Cinv w).
Proof.
  induction l as [|z l IH]; cbn [map fold_right]; [ring|].
  rewrite IH. unfold Cdiv. rewrite Cnorm2_mul. ring.
Qed.

(** Dividing a vector that is not zero by its norm gives norm one. *)
Lemma normalized_positive (p : tensor) :
  0 < sum_norm2 p -> sum_norm2 (normalized p) = 1.
Proof.
  intros Hs.
  unfold sum_norm2 at 1, normalized, backend.tmap, backend.norm, scalar.
  cbn [tdata hd]. rewrite sum_norm2_scaled.
  fold (sum_norm2 p). set (s := sum_norm2 p) in *.
  assert (Hsq : sqrt s * sqrt s = s) by (apply sqrt_sqrt; lra).
  unfold Cinv, Cnorm2, RtoC. cbn [fst snd].
  set (N := sqrt s) in *. clearbody N.
  replace (N * N + 0 * 0) with s by lra.
  unfold Rdiv. replace (- 0) with 0 by lra. rewrite !Rmult_0_l, Rplus_0_r.
  replace (s * (N * / s * (N * / s))) with (N * N * / s * (s * / s)) by ring.
  rewrite Hsq, Rinv_r by lra. lra.
Qed.

Lemma normalized_unit (p : tensor) :
  sum_norm2 (normalized p) <> 0 -> sum_norm2 (normalized p) = 1.
Proof.
  intros Hne. apply normalized_positive.
  pose proof (sum_norm2_nonneg p) as Hp.
  destruct (Req_dec (sum_norm2 p) 0) as [Hz | Hz]; [| lra].
  exfalso. apply Hne.
  unfold sum_norm2 at 1, normalized, backend.tmap. cbn [tdata].
  rewrite sum_norm2_scaled. fold (sum_norm2 p). rewrite Hz. ring.
Qed.

Local Close Scope R_scope.

(** X8.  Every state returned is normalised: a row of the result that is not
    zero has squared norm one. *)
Theorem hamiltonian_evol_unit_norm
    (eigh : tensor -> tensor * tensor) (tlist h psi0 out : tensor) (k : nat) (r : tensor) :
  hamiltonian_evol eigh tlist h psi0 None = Ok out ->
  backend.getitem out k = Ok r ->
  sum_norm2 r <> 0%R -> sum_norm2 r = 1%R.
Proof.
  rewrite hamiltonian_evol_rows. intros H Hr. repeat bind_inv H.
  pose proof (evol_rows_stack _ _ _ _ _ E3) as Hu.
  assert (Hne : v3 <> []) by (intros ->; discriminate).
  rewrite (stack_uniform v3 _ Hne) in H by (intros; apply Hu; assumption).
  injection H as <-.
  assert (Hk : k < length v3).
  { unfold backend.getitem in Hr. cbn [tshape] in Hr.
    destruct (Nat.ltb_spec k (length v3)); [assumption | discriminate]. }
  pose proof (getitem_stack _ _ k (scalar C0) Hu Hk) as Hg.
  assert (Hrow : Ok r = Ok (nth k v3 (scalar C0))) by (rewrite <- Hr; exact Hg).
  injection Hrow as ->.
  destruct (evol_rows_uniform _ _ _ _ _ E3 (nth k v3 (scalar C0)))
    as (_ & _ & p & ->); [apply nth_In; exact Hk|].
  apply normalized_unit.
Qed.

(** X21.  The times have to come as a list: a single time passed as a
    rank-0 tensor cannot be iterated over, and once the start state is
    prepared the call raises TypeError, with or without a callback. *)
Theorem hamiltonian_evol_scalar_time
    (eigh : tensor -> tensor * tensor) (tlist h psi0 utpsi0 : tensor)
    (callback : option (tensor -> tensor)) :
  tshape tlist = [] ->
  (col0 <- backend.reshape psi0 [-1; 1]%Z ;;
   m <- backend.matmul (backend.transpose (snd (eigh h))) col0 ;;
   backend.reshape m [-1]%Z) = Ok utpsi0 ->
  hamiltonian_evol eigh tlist h psi0 callback = Raise TypeError.
Proof.
  intros Ht Hprep. rewrite hamiltonian_evol_rows.
  destruct (backend.reshape psi0 [-1; 1]%Z) as [col0 | e]; cbn [bind] in *;
    [| discriminate].
  destruct (backend.matmul (backend.transpose (snd (eigh h))) col0) as [m | e];
    cbn [bind] in *; [| discriminate].
  rewrite Hprep. cbn [bind]. unfold backend.iter. rewrite Ht. reflexivity.
Qed.

(** ** The dynamics kernel *)

Lemma gram_entry (M : nat -> nat -> C) (n i j : nat) :
  i < n -> j < n ->
  nth (i * n + j) (concat (map (fun b => map (fun a => M a b) (seq 0 n)) (seq 0 n))) C0
  = M j i.
Proof.
  intros Hi Hj.
  rewrite (nth_block (fun b => map (fun a => M a b) (seq 0 n)) n n i j C0);
    [| intros k; rewrite length_map, length_seq; reflexivity | exact Hi | exact Hj].
  apply (nth_map_seq (fun a => M a i)). exact Hj.
Qed.

(** X9.  With the dynamics kernel and no post-processing, entry (i, j) of the
    result is <d_j psi|d_i psi>, the overlap of columns [j] and [i] of the
    Jacobian, in either differentiation mode; the matrix is Hermitian. *)
Theorem dynamics_matrix_overlaps
    (jacfwd jacrev : (tensor -> result tensor) -> tensor -> result tensor)
    (f : tensor -> tensor) (mode : string) (params : tensor) (J : list C) (d n : nat) :
  (if (mode =? "fwd")%string then jacfwd (call f) params else jacrev (call f) params)
  = Ok (mkT [d; n] J) ->
  1 <= n ->
  exists out,
    dynamics_matrix jacfwd jacrev f mode params = Ok out
    /\ tshape out = [n; n]
    /\ forall i j, i < n -> j < n ->
         nth (i * n + j) (tdata out) C0 = inner (column J d n j) (column J d n i)
         /\ nth (i * n + j) (tdata out) C0 = Cconj (nth (j * n + i) (tdata out) C0).
Proof.
  intros Hjac Hn.
  assert (Hrun : dynamics_matrix jacfwd jacrev f mode params
                 = Ok (mkT [n; n]
                         (concat (map (fun b => map (fun a => inner (column J d n a)
                                                                    (column J d n b))
                                                    (seq 0 n)) (seq 0 n))))).
  { unfold dynamics_matrix, qng, qng_kernel_matrix, backend.cast.
    replace (if (mode =? "fwd")%string
             then jacfwd (call f) params
             else jac <- jacrev (call f) params ;; Ok jac)
      with (Ok (mkT [d; n] J) : result tensor)
      by (destruct (mode =? "fwd")%string; rewrite Hjac; reflexivity).
    cbn [bind String.eqb Ascii.eqb Bool.eqb].
    rewrite transpose_matrix.
    set (T := concat (map (column J d n) (seq 0 n))).
    rewrite (vmap_second _ _ n [d] T
               (fun b => mkT [n] (map (fun a => inner (column J d n a) (column J d n b))
                                      (seq 0 n)))).
    - rewrite (stack_uniform _ [n]).
      + rewrite length_map, length_seq, concat_map_scalars. reflexivity.
      + destruct n; [lia | discriminate].
      + intros t Ht. apply in_map_iff in Ht. destruct Ht as [b [<- _]]. reflexivity.
    - intros b Hb. unfold T at 2. rewrite transposed_row by exact Hb.
      rewrite (vmap_first _ (AInt 0) n [d] T [mkT [d] (column J d n b)]
                 (fun a => scalar (inner (column J d n a) (column J d n b))) eq_refl).
      + rewrite (stack_uniform _ []).
        * rewrite length_map, length_seq, concat_scalars. reflexivity.
        * destruct n; [lia | discriminate].
        * intros t Ht. apply in_map_iff in Ht. destruct Ht as [a [<- _]]. reflexivity.
      + intros a Ha. unfold T. rewrite transposed_row by exact Ha.
        unfold closure2. cbn [index_list nth_error bind].
        apply vdot_vectors; apply length_column. }
  eexists. split; [exact Hrun|]. split; [reflexivity|].
  intros i j Hi Hj. cbn [tdata].
  rewrite (gram_entry (fun a b => inner (column J d n a) (column J d n b)) n i j Hi Hj).
  rewrite (gram_entry (fun a b => inner (column J d n a) (column J d n b)) n j i Hj Hi).
  split; [reflexivity | symmetry; apply inner_conj].
Qed.

(** ** The default result of qng is real and symmetric *)

(** X10.  With the default options the result of [qng] has real entries and is
    symmetric. *)
Theorem qng_default_real_symmetric
    (jacfwd jacrev : (tensor -> result tensor) -> tensor -> result tensor)
    (f : tensor -> tensor) (params : tensor) (P J : list C) (d n : nat) :
  f params = mkT [d] P -> length P = d ->
  jacfwd (call f) params = Ok (mkT [d; n] J) -> 1 <= n ->
  exists out,
    qng jacfwd jacrev f "qng" (PStr "qng") "fwd" params = Ok out
    /\ forall i j, i < n -> j < n ->
         snd (nth (i * n + j) (tdata out) C0) = 0%R
         /\ nth (i * n + j) (tdata out) C0 = nth (j * n + i) (tdata out) C0.
Proof.
  intros Hpsi HP Hjac Hn. unfold qng.
  rewrite (qng_kernel_matrix_value jacfwd jacrev f params P J d n Hpsi HP Hjac Hn).
  cbn [bind select_post_process String.eqb Ascii.eqb Bool.eqb].
  set (M := concat (map (fun i => map (fun j => fisher P J d n j i) (seq 0 n)) (seq 0 n))).
  assert (HM : length M = n * n).
  { apply length_blocks. intros k. rewrite length_map, length_seq. reflexivity. }
  destruct (qng_post_process_entry M n eps_default HM) as [out [Hout [Hsh Hent]]].
  exists out. split; [exact Hout|].
  intros i j Hi Hj. rewrite (Hent i j Hi Hj), (Hent j i Hj Hi).
  split; [reflexivity|]. unfold M.
  rewrite (gram_entry (fun a b => fisher P J d n a b) n i j Hi Hj).
  rewrite (gram_entry (fun a b => fisher P J d n a b) n j i Hj Hi).
  rewrite <- (fisher_conj P J d n i j).
  rewrite (Nat.eqb_sym j i).
  unfold Creal, Cadd, Cconj. cbn [fst snd]. reflexivity.
Qed.

(** ** _vdot is a Hermitian form *)

Lemma inner_self (A : list C) :
  inner A A = RtoC (fold_right Rplus 0%R (map Cnorm2 A)).
Proof.
  unfold inner, backend.zip_with.
  induction A as [|z A IH]; [reflexivity|].
  cbn [combine map Csum fold_right fst snd]. unfold Csum in IH. rewrite IH.
  apply C_eq; unfold Cadd, Cmul, Cconj, Cnorm2, RtoC; cbn [fst snd]; lra.
Qed.

(** X11.  [_vdot] conjugates its first argument: exchanging the two vectors
    conjugates the value, and the product of a vector with itself is the
    sum of the squared moduli of its entries. *)
Theorem vdot_hermitian (A B : list C) (d : nat) :
  length A = d -> length B = d ->
  _vdot (mkT [d] B) (mkT [d] A)
  = (r <- _vdot (mkT [d] A) (mkT [d] B) ;; Ok (backend.conj r))
  /\ _vdot (mkT [d] A) (mkT [d] A) = Ok (scalar (RtoC (sum_norm2 (mkT [d] A)))).
Proof.
  intros HA HB. rewrite !vdot_vectors by assumption. cbn [bind]. split.
  - unfold backend.conj, backend.tmap, scalar. cbn [tshape tdata map].
    rewrite inner_conj. reflexivity.
  - rewrite inner_self. reflexivity.
Qed.

(** ** qng2 accepts every kernel *)

(** X12.  Where [qng] has no entry function for a kernel other than "qng" and
    "dynamics", [qng2] only asks whether the kernel is "qng": every other
    string gives the plain overlap, as "dynamics" does. *)
Theorem qng2_other_kernels
    (jacfwd jacrev : (tensor -> result tensor) -> tensor -> result tensor)
    (vjp : (tensor -> result tensor) -> tensor -> tensor -> result (tensor * tensor))
    (f : tensor -> tensor) (kernel : string) (postprocess : postprocess_option)
    (mode : string) (params : tensor) :
  kernel <> "qng"%string ->
  qng2 jacfwd jacrev vjp f kernel postprocess mode params
  = qng2 jacfwd jacrev vjp f "dynamics" postprocess mode params.
Proof.
  intros Hk. unfold qng2, qng2_kernel_matrix.
  destruct (String.eqb_spec kernel "qng") as [-> | _]; [congruence|].
  reflexivity.
Qed.

(** ** vmap over any one argument *)

Lemma setitem_update {A : Type} (l : list A) (i : nat) (v : A) :
  i < length l -> setitem_list l i v = Ok (update l i v).
Proof.
  revert i. induction l as [|x l IH]; intros i Hi; [simpl in Hi; lia|].
  destruct i as [|i]; [reflexivity|].
  cbn [setitem_list]. rewrite IH by (simpl in Hi; lia). reflexivity.
Qed.

Lemma length_update {A : Type} (l : list A) (i : nat) (v : A) :
  i < length l -> length (update l i v) = length l.
Proof.
  intros Hi. unfold update. rewrite length_app, length_firstn. cbn [length].
  rewrite length_skipn. lia.
Qed.

Lemma nth_error_update {A : Type} (l : list A) (i : nat) (v : A) :
  i < length l -> nth_error (update l i v) i = Some v.
Proof.
  revert i. induction l as [|x l IH]; intros i Hi; [simpl in Hi; lia|].
  destruct i as [|i]; [reflexivity|].
  apply (IH i). simpl in Hi. lia.
Qed.

Lemma mem_single (j i : nat) : mem j [i] = (j =? i).
Proof. unfold mem. cbn [existsb]. apply orb_false_r. Qed.

Lemma slices_from (b k : nat) (sh : list nat) (D : list C) (l : list tensor) (i s : nat) :
  i < length l -> b < k ->
  mapM (fun '(j, a) => if mem j [s + i] then backend.getitem a b else Ok a)
       (combine (seq s (length (update l i (mkT (k :: sh) D))))
                (update l i (mkT (k :: sh) D)))
  = Ok (update l i (row sh D b)).
Proof.
  revert i s. induction l as [|x l IH]; intros i s Hi Hb; [simpl in Hi; lia|].
  destruct i as [|i].
  - change (update (x :: l) 0 (mkT (k :: sh) D)) with (mkT (k :: sh) D :: l).
    change (update (x :: l) 0 (row sh D b)) with (row sh D b :: l).
    cbn [length seq combine mapM].
    rewrite mem_single, Nat.add_0_r, Nat.eqb_refl, getitem_row by exact Hb.
    cbn [bind]. rewrite slices_tail; [reflexivity|].
    intros j Hj. rewrite mem_single. apply Nat.eqb_neq. lia.
  - change (update (x :: l) (S i) (mkT (k :: sh) D))
      with (x :: update l i (mkT (k :: sh) D)).
    change (update (x :: l) (S i) (row sh D b)) with (x :: update l i (row sh D b)).
    cbn [length seq combine mapM].
    rewrite mem_single.
    destruct (Nat.eqb_spec s (s + S i)) as [He | _]; [lia|].
    cbn [bind]. replace (s + S i) with (S s + i) by lia.
    rewrite IH by (simpl in Hi; lia || exact Hb). reflexivity.
Qed.

Lemma vmap_at (f : pyfun) (args : list tensor) (i k : nat) (sh : list nat) (D : list C)
    (g : nat -> tensor) :
  i < length args ->
  (forall b, b < k -> f (update args i (row sh D b)) = Ok (g b)) ->
  backend.vmap f (AInt i) (update args i (mkT (k :: sh) D))
  = backend.stack (map g (seq 0 k)).
Proof.
  intros Hi Hf. unfold backend.vmap. cbn [as_seq].
  change (index_list [i] 0) with (Ok i). cbn [bind].
  unfold index_list at 1. rewrite nth_error_update by exact Hi.
  cbn [bind backend.shape0 tshape index_list nth_error].
  erewrite mapM_Ok; [reflexivity|].
  intros b Hb. apply in_seq in Hb. unfold enumerate.
  assert (Hb' : b < k) by lia.
  pose proof (slices_from b k sh D args i 0 Hi Hb') as Hs.
  cbn [Nat.add] in Hs. rewrite Hs.
  cbn [bind]. apply Hf. exact Hb'.
Qed.

Lemma nth_error_map_seq {A : Type} (F : nat -> A) (m i : nat) :
  i < m -> nth_error (map F (seq 0 m)) i = Some (F i).
Proof.
  intros Hi. rewrite nth_error_map, nth_error_seq.
  destruct (Nat.ltb_spec i m); [reflexivity | lia].
Qed.

Lemma mapM_ext_in {A B : Type} (F G : A -> result B) (l : list A) :
  (forall a, In a l -> F a = G a) -> mapM F l = mapM G l.
Proof.
  induction l as [|a l IH]; intros H; [reflexivity|].
  cbn [mapM]. rewrite (H a (or_introl eq_refl)), IH by (intros; apply H; right; assumption).
  reflexivity.
Qed.

(** ** Parameter shift over the leading arguments *)

(** With [argnums = [0; ..; m-1]] position and list index coincide, and
    every round runs the vectorized [f] over its own argument: the plus and
    the minus batch of round [i] hold the outputs [gp i k] and [gm i k] of
    [f] on the arguments with argument [i] shifted by [+- s0 e_k]. *)
Lemma parameter_shift_grad_rounds (f : pyfun) (jit : bool) (s0 s1 : R)
    (args : list tensor) (m : nat) (gp gm : nat -> nat -> tensor) (osh : nat -> list nat) :
  m <= length args ->
  (forall i a, i < m -> nth_error args i = Some a ->
     wf a /\ 1 <= backend.sizen a
     /\ forall k, k < backend.sizen a ->
          f (update args i (shift_by Cadd a s0 k)) = Ok (gp i k)
          /\ tshape (gp i k) = osh i
          /\ f (update args i (shift_by Csub a s0 k)) = Ok (gm i k)
          /\ tshape (gm i k) = osh i) ->
  parameter_shift_grad f (ASeq (seq 0 m)) jit (s0, s1) args
  = (grad_values <- mapM (fun i =>
        a <- index_list args i ;;
        backend.reshape
          (backend.div_float
             (mkT (backend.sizen a :: osh i)
                  (backend.zip_with Csub
                     (concat (map tdata (map (gp i) (seq 0 (backend.sizen a)))))
                     (concat (map tdata (map (gm i) (seq 0 (backend.sizen a)))))))
             s1)
          (map Z.of_nat (tshape a)))
      (seq 0 m) ;;
     if 1 <? m
     then Ok (Tuple grad_values)
     else g <- index_list grad_values 0 ;; Ok (Single g)).
Proof.
  intros Hm Hf. unfold parameter_shift_grad.
  replace (if jit then backend.jit f else f) with f by (destruct jit; reflexivity).
  cbn [as_seq fst snd]. rewrite length_seq.
  match goal with
  | |- bind (mapM ?F ?l) _ = bind (mapM ?G _) _ => rewrite (mapM_ext_in F G l)
  end; [reflexivity|].
  intros i Hi. apply in_seq in Hi.
  destruct (nth_error args i) as [a|] eqn:Ea; [| apply nth_error_None in Ea; lia].
  assert (Hidx : index_list args i = Ok a) by (unfold index_list; rewrite Ea; reflexivity).
  rewrite !Hidx. cbn [bind]. cbv zeta.
  destruct (Hf i a (proj2 Hi) Ea) as (Hwf & Hsize & Hrows).
  unfold backend.cast, backend.shape_tuple.
  set (size := backend.sizen a) in *.
  repeat match goal with
  | |- context [Z.of_nat ?n :: map Z.of_nat ?sh] =>
      change (Z.of_nat n :: map Z.of_nat sh) with (map Z.of_nat (n :: sh))
  end.
  rewrite (reshape_of_nat (backend.eye size)), (reshape_of_nat a (1 :: tshape a)).
  unfold backend.sizen at 1. cbn [backend.eye tshape].
  destruct (Nat.eqb_spec (prod (size :: tshape a)) (prod [size; size])) as [_ | Hne];
    [| exfalso; apply Hne; cbn [prod fold_right]; unfold size, backend.sizen, prod; lia].
  cbn [bind].
  destruct (Nat.eqb_spec (prod (1 :: tshape a)) (backend.sizen a)) as [_ | Hne];
    [| exfalso; apply Hne; cbn [prod fold_right]; unfold backend.sizen, prod; lia].
  cbn [bind]. unfold backend.tile. cbn [tshape tdata length].
  rewrite length_map, Nat.eqb_refl, tile_shape.
  cbn [backend.tile_data seq map concat Nat.mul skipn].
  rewrite app_nil_r, tile_data_ones
    by (rewrite firstn_all2; [exact Hwf | rewrite Hwf; apply le_n]).
  rewrite firstn_all2 by (rewrite Hwf; apply le_n).
  cbn [bind]. unfold backend.add, backend.sub.
  rewrite !binop_same_shape by reflexivity.
  cbn [bind tshape tdata backend.scale backend.tmap].
  rewrite !setitem_update by lia. cbn [bind].
  unfold index_list. rewrite nth_error_map_seq by lia. cbn [bind].
  rewrite (vmap_at f args i size (tshape a) _ (gp i)); [| lia |].
  2:{ intros b Hb. unfold size in *. rewrite (shifted_row Cadd a s0 b Hwf Hb).
      apply Hrows. exact Hb. }
  rewrite (stack_uniform _ (osh i)).
  2:{ destruct size; [lia | discriminate]. }
  2:{ intros t Ht. apply in_map_iff in Ht. destruct Ht as [b [<- Hb]].
      apply in_seq in Hb. apply Hrows. lia. }
  cbn [bind].
  rewrite (vmap_at f args i size (tshape a) _ (gm i)); [| lia |].
  2:{ intros b Hb. unfold size in *. rewrite (shifted_row Csub a s0 b Hwf Hb).
      apply Hrows. exact Hb. }
  rewrite (stack_uniform _ (osh i)).
  2:{ destruct size; [lia | discriminate]. }
  2:{ intros t Ht. apply in_map_iff in Ht. destruct Ht as [b [<- Hb]].
      apply in_seq in Hb. apply Hrows. lia. }
  cbn [bind]. rewrite binop_same_shape by (cbn [tshape]; rewrite !length_map; reflexivity).
  cbn [bind tshape tdata]. rewrite !length_map, length_seq. reflexivity.
Qed.

(** X13.  With [argnums = [0; ..; m-1]] and a scalar-valued [f], the gradient
    with respect to each of the first [m] arguments is the parameter-shift
    quotient, in the shape of that argument; a tuple for [m > 1], the one
    gradient for [m = 1]. *)
Theorem parameter_shift_grad_leading_arguments (f : pyfun) (jit : bool) (s0 s1 : R)
    (args : list tensor) (m : nat) :
  1 <= m -> m <= length args ->
  (forall i a, i < m -> nth_error args i = Some a ->
     wf a /\ 1 <= backend.sizen a
     /\ forall k, k < backend.sizen a ->
          exists yp ym,
            f (update args i (shift_by Cadd a s0 k)) = Ok (scalar yp)
            /\ f (update args i (shift_by Csub a s0 k)) = Ok (scalar ym)) ->
  parameter_shift_grad f (ASeq (seq 0 m)) jit (s0, s1) args
  = Ok (if 1 <? m
        then Tuple (map (shift_gradient f s0 s1 args) (seq 0 m))
        else Single (shift_gradient f s0 s1 args 0)).
Proof.
  intros Hm1 Hm Hf.
  set (yp := fun i k => value_of (f (update args i
                 (shift_by Cadd (nth i args (scalar C0)) s0 k)))).
  set (ym := fun i k => value_of (f (update args i
                 (shift_by Csub (nth i args (scalar C0)) s0 k)))).
  rewrite (parameter_shift_grad_rounds f jit s0 s1 args m
             (fun i k => scalar (yp i k)) (fun i k => scalar (ym i k)) (fun _ => [])).
  - rewrite (mapM_Ok _ (shift_gradient f s0 s1 args)).
    + cbn [bind]. destruct (Nat.ltb_spec 1 m) as [_ | Hle]; [reflexivity|].
      assert (m = 1) by lia. subst m. reflexivity.
    + intros i Hi. apply in_seq in Hi.
      destruct (nth_error args i) as [a|] eqn:Ea; [| apply nth_error_None in Ea; lia].
      unfold index_list. rewrite Ea. cbn [bind].
      rewrite reshape_of_nat. unfold backend.div_float, backend.tmap, backend.sizen at 1.
      cbn [tshape tdata].
      destruct (Nat.eqb_spec (prod (tshape a)) (prod [backend.sizen a])) as [_ | Hne];
        [| exfalso; apply Hne; cbn [prod fold_right]; unfold backend.sizen, prod; lia].
      rewrite !concat_scalars, zip_with_map, map_map.
      unfold shift_gradient, yp, ym. rewrite (nth_error_nth _ _ (scalar C0) Ea).
      reflexivity.
  - exact Hm.
  - intros i a Hi Ea. destruct (Hf i a Hi Ea) as (Hwf & Hsize & Hrows).
    split; [exact Hwf|]. split; [exact Hsize|].
    intros k Hk. destruct (Hrows k Hk) as (p & q & Hp & Hq).
    unfold yp, ym. rewrite (nth_error_nth _ _ (scalar C0) Ea), Hp, Hq.
    repeat split; reflexivity.
Qed.

(** X14.  [f] has to return a scalar: where every output has one shape that
    does not hold exactly one entry, the differences cannot be reshaped to
    the shape of the argument and the gradient function raises. *)
Theorem parameter_shift_grad_vector_valued (f : pyfun) (jit : bool) (s0 s1 : R)
    (x : tensor) (rest : list tensor) (osh : list nat) :
  wf x -> 1 <= backend.sizen x -> prod osh <> 1 ->
  (forall k, k < backend.sizen x ->
     exists op om,
       f (shift_by Cadd x s0 k :: rest) = Ok op /\ tshape op = osh
       /\ f (shift_by Csub x s0 k :: rest) = Ok om /\ tshape om = osh) ->
  parameter_shift_grad f (AInt 0) jit (s0, s1) (x :: rest) = Raise BackendError.
Proof.
  intros Hwf Hsize Hosh Hf.
  set (gp := fun (_ k : nat) => match f (shift_by Cadd x s0 k :: rest) with
                                | Ok o => o
                                | Raise _ => scalar C0
                                end).
  set (gm := fun (_ k : nat) => match f (shift_by Csub x s0 k :: rest) with
                                | Ok o => o
                                | Raise _ => scalar C0
                                end).
  change (parameter_shift_grad f (AInt 0) jit (s0, s1) (x :: rest))
    with (parameter_shift_grad f (ASeq (seq 0 1)) jit (s0, s1) (x :: rest)).
  rewrite (parameter_shift_grad_rounds f jit s0 s1 (x :: rest) 1 gp gm (fun _ => osh)).
  - cbn [seq mapM index_list nth_error bind].
    rewrite reshape_of_nat. unfold backend.div_float, backend.tmap, backend.sizen at 1.
    cbn [tshape tdata].
    destruct (Nat.eqb_spec (prod (tshape x)) (prod (backend.sizen x :: osh))) as [He | _];
      [| reflexivity].
    exfalso. cbn [prod fold_right] in He. unfold backend.sizen, prod in *. nia.
  - simpl. lia.
  - intros i a Hi Ea. assert (i = 0) by lia. subst i.
    cbn [nth_error] in Ea. injection Ea as <-.
    split; [exact Hwf|]. split; [exact Hsize|].
    intros k Hk. destruct (Hf k Hk) as (op & om & Hp & Hps & Hq & Hqs).
    change (update (x :: rest) 0 (shift_by Cadd x s0 k)) with (shift_by Cadd x s0 k :: rest).
    change (update (x :: rest) 0 (shift_by Csub x s0 k)) with (shift_by Csub x s0 k :: rest).
    unfold gp, gm. rewrite Hp, Hq. repeat split; assumption.
Qed.

(** ** The second variant without random arguments *)

(** X15.  With [random_argnums=None] the second variant is the first one. *)
Theorem parameter_shift_grad_v2_no_random (random_split : tensor -> tensor * tensor)
    (f : pyfun) (argnums : int_or_seq) (jit : bool) (shifts : R * R) (args : list tensor) :
  parameter_shift_grad_v2 random_split f argnums jit None shifts args
  = parameter_shift_grad f argnums jit shifts args.
Proof.
  unfold parameter_shift_grad_v2, parameter_shift_grad. cbn [option_map].
  f_equal.
Qed.

(** ** The random keys of the second variant *)

Lemma split_keys_app (random_split : tensor -> tensor * tensor) (key : tensor) (a b : nat) :
  split_keys random_split key (a + b)
  = (fst (split_keys random_split (fst (split_keys random_split key a)) b),
     snd (split_keys random_split key a)
     ++ snd (split_keys random_split (fst (split_keys random_split key a)) b)).
Proof.
  revert key. induction a as [|a IH]; intros key.
  - cbn [Nat.add split_keys fst snd app].
    destruct (split_keys random_split key b); reflexivity.
  - cbn [Nat.add split_keys]. destruct (random_split key) as [key' subkey].
    rewrite IH. destruct (split_keys random_split key' a) as [k1 l1]. reflexivity.
Qed.

Lemma split_keys_length (random_split : tensor -> tensor * tensor) (key : tensor) (n : nat) :
  length (snd (split_keys random_split key n)) = n.
Proof.
  revert key. induction n as [|n IH]; intros key; [reflexivity|].
  cbn [split_keys]. destruct (random_split key) as [key' subkey].
  specialize (IH key'). destruct (split_keys random_split key' n) as [k1 l1].
  cbn [snd length] in *. rewrite IH. reflexivity.
Qed.

(** X16.  The plus batch and the minus batch of one random argument use the
    first [size] and the next [size] subkeys of one chain of [2 * size]
    splits that starts from the key passed in. *)
Theorem fill_keys_chain (random_split : tensor -> tensor * tensor) (args : list tensor)
    (size j : nat) (others : list nat) (nargs nargs2 : list tensor) :
  fill_keys random_split args size (j :: others) nargs nargs2
  = (key <- index_list args j ;;
     let subkeys := snd (split_keys random_split key (size + size)) in
     ks <- backend.stack (firstn size subkeys) ;;
     nargs <- setitem_list nargs j ks ;;
     ks2 <- backend.stack (skipn size subkeys) ;;
     nargs2 <- setitem_list nargs2 j ks2 ;;
     fill_keys random_split args size others nargs nargs2).
Proof.
  cbn [fill_keys]. destruct (index_list args j) as [key | e]; cbn [bind]; [| reflexivity].
  rewrite split_keys_app. cbn [snd].
  pose proof (split_keys_length random_split key size) as Hl.
  destruct (split_keys random_split key size) as [k1 l1]. cbn [fst snd] in *.
  subst size.
  rewrite firstn_app, Nat.sub_diag, firstn_0, app_nil_r, firstn_all.
  rewrite skipn_app, Nat.sub_diag, skipn_all. cbn [skipn app].
  destruct (split_keys random_split k1 (length l1)) as [k2 l2]. reflexivity.
Qed.


Lemma row_stack (sh : list nat) (rows : list tensor) (k : nat) (dflt : tensor) :
  (forall s, In s rows -> tshape s = sh /\ wf s) -> k < length rows ->
  row sh (concat (map tdata rows)) k = nth k rows dflt.
Proof.
  intros H Hk. unfold row.
  rewrite (block_of_rows (prod sh) rows k dflt); [| | exact Hk].
  - assert (Hin : In (nth k rows dflt) rows) by (apply nth_In; exact Hk).
    destruct (H _ Hin) as [<- _]. destruct (nth k rows dflt). reflexivity.
  - intros s Hs. destruct (H s Hs) as [Hsh Hwf]. unfold wf in Hwf. rewrite Hwf, Hsh.
    reflexivity.
Qed.

Lemma vmap_pair (f : pyfun) (k : nat) (sh sh' : list nat) (D D' : list C)
    (rest : list tensor) (g : nat -> tensor) :
  (forall b, b < k -> f (row sh D b :: row sh' D' b :: rest) = Ok (g b)) ->
  backend.vmap f (ASeq [0; 1]) (mkT (k :: sh) D :: mkT (k :: sh') D' :: rest)
  = backend.stack (map g (seq 0 k)).
Proof.
  intros Hf. unfold backend.vmap.
  cbn [as_seq index_list nth_error bind backend.shape0 tshape].
  erewrite mapM_Ok; [reflexivity|].
  intros b Hb. apply in_seq in Hb.
  cbn [enumerate length seq combine mapM].
  change (mem 0 [0; 1]) with true. change (mem 1 [0; 1]) with true. cbv iota.
  rewrite !getitem_row by lia. cbn [bind].
  rewrite slices_tail by (intros [|[|j]] Hj; [lia | lia | reflexivity]).
  cbn [bind]. apply Hf. lia.
Qed.

(** X17.  One differentiated argument and one random argument: component [k] of
    the gradient is (f(x + s0 e_k, key_k) - f(x - s0 e_k, key_(size+k))) / s1,
    with [key_0, key_1, ..] the subkeys of successive splits of the key
    passed in; the plus and the minus evaluation never share a subkey
    position. *)
Theorem parameter_shift_grad_v2_random_keys (random_split : tensor -> tensor * tensor)
    (f : pyfun) (jit : bool) (s0 s1 : R) (x key : tensor) (rest : list tensor)
    (ksh : list nat) :
  wf x -> 1 <= backend.sizen x ->
  (forall s, In s (snd (split_keys random_split key (backend.sizen x + backend.sizen x))) ->
             tshape s = ksh /\ wf s) ->
  (forall k, k < backend.sizen x ->
     exists yp ym,
       f (shift_by Cadd x s0 k
          :: nth k (snd (split_keys random_split key (backend.sizen x + backend.sizen x)))
                 (scalar C0)
          :: rest) = Ok (scalar yp)
       /\ f (shift_by Csub x s0 k
             :: nth (backend.sizen x + k)
                    (snd (split_keys random_split key (backend.sizen x + backend.sizen x)))
                    (scalar C0)
             :: rest) = Ok (scalar ym)) ->
  parameter_shift_grad_v2 random_split f (AInt 0) jit (Some (AInt 1)) (s0, s1)
    (x :: key :: rest)
  = Ok (Single (mkT (tshape x)
          (map (fun k =>
             Cdiv (Csub
                     (value_of (f (shift_by Cadd x s0 k
                        :: nth k (snd (split_keys random_split key
                                         (backend.sizen x + backend.sizen x))) (scalar C0)
                        :: rest)))
                     (value_of (f (shift_by Csub x s0 k
                        :: nth (backend.sizen x + k)
                               (snd (split_keys random_split key
                                       (backend.sizen x + backend.sizen x))) (scalar C0)
                        :: rest))))
                  (RtoC s1))
             (seq 0 (backend.sizen x))))).
Proof.
  intros Hwf Hsize Hkeys Hf.
  set (size := backend.sizen x) in *.
  set (subkeys := snd (split_keys random_split key (size + size))) in *.
  set (yp := fun k => value_of (f (shift_by Cadd x s0 k :: nth k subkeys (scalar C0) :: rest))).
  set (ym := fun k => value_of (f (shift_by Csub x s0 k
                                   :: nth (size + k) subkeys (scalar C0) :: rest))).
  assert (Hp : forall k, k < size ->
             f (shift_by Cadd x s0 k :: nth k subkeys (scalar C0) :: rest)
             = Ok (scalar (yp k))).
  { intros k Hk. destruct (Hf k Hk) as [a [b [Ha Hb]]]. unfold yp. rewrite Ha. reflexivity. }
  assert (Hm : forall k, k < size ->
             f (shift_by Csub x s0 k :: nth (size + k) subkeys (scalar C0) :: rest)
             = Ok (scalar (ym k))).
  { intros k Hk. destruct (Hf k Hk) as [a [b [Ha Hb]]]. unfold ym. rewrite Hb. reflexivity. }
  (* the two halves of the chain *)
  pose proof (split_keys_app random_split key size size) as Happ.
  pose proof (split_keys_length random_split key size) as Hl1.
  destruct (split_keys random_split key size) as [k1 l1] eqn:E1. cbn [fst snd] in *.
  pose proof (split_keys_length random_split k1 size) as Hl2.
  destruct (split_keys random_split k1 size) as [k2 l2] eqn:E2. cbn [fst snd] in *.
  assert (Hsub : subkeys = l1 ++ l2) by (unfold subkeys; rewrite Happ; reflexivity).
  assert (H1 : forall s, In s l1 -> tshape s = ksh /\ wf s).
  { intros s Hs. apply Hkeys. rewrite Hsub. apply in_or_app. left. exact Hs. }
  assert (H2 : forall s, In s l2 -> tshape s = ksh /\ wf s).
  { intros s Hs. apply Hkeys. rewrite Hsub. apply in_or_app. right. exact Hs. }
  assert (Hn1 : forall k, k < size -> nth k subkeys (scalar C0) = nth k l1 (scalar C0)).
  { intros k Hk. rewrite Hsub. apply app_nth1. lia. }
  assert (Hn2 : forall k, k < size -> nth (size + k) subkeys (scalar C0) = nth k l2 (scalar C0)).
  { intros k Hk. rewrite Hsub, app_nth2 by lia. f_equal. lia. }
  clearbody subkeys. clear Happ Hkeys Hf.
  unfold parameter_shift_grad_v2.
  replace (if jit then backend.jit f else f) with f by (destruct jit; reflexivity).
  cbn [option_map as_seq map app mapM index_list nth_error bind fst snd length Nat.ltb
       Nat.leb].
  cbv zeta. unfold backend.cast, backend.shape_tuple. fold size.
  repeat match goal with
  | |- context [Z.of_nat ?n :: map Z.of_nat ?sh] =>
      change (Z.of_nat n :: map Z.of_nat sh) with (map Z.of_nat (n :: sh))
  end.
  rewrite (reshape_of_nat (backend.eye size)), (reshape_of_nat x (1 :: tshape x)).
  unfold backend.sizen at 1. cbn [backend.eye tshape].
  destruct (Nat.eqb_spec (prod (size :: tshape x)) (prod [size; size])) as [_ | Hne];
    [| exfalso; apply Hne; cbn [prod fold_right]; unfold size, backend.sizen, prod; lia].
  cbn [bind].
  destruct (Nat.eqb_spec (prod (1 :: tshape x)) (backend.sizen x)) as [_ | Hne];
    [| exfalso; apply Hne; cbn [prod fold_right]; unfold backend.sizen, prod; lia].
  cbn [bind]. unfold backend.tile. cbn [tshape tdata length].
  rewrite length_map, Nat.eqb_refl, tile_shape.
  cbn [backend.tile_data seq map concat Nat.mul skipn].
  rewrite app_nil_r, tile_data_ones
    by (rewrite firstn_all2; [exact Hwf | rewrite Hwf; apply le_n]).
  rewrite firstn_all2 by (rewrite Hwf; apply le_n).
  cbn [bind]. unfold backend.add, backend.sub.
  rewrite !binop_same_shape by reflexivity.
  cbn [bind tshape tdata backend.scale backend.tmap setitem_list].
  cbn [fill_keys index_list nth_error bind]. rewrite E1, E2.
  assert (Hne1 : l1 <> []) by (intros ->; simpl in Hl1; lia).
  assert (Hne2 : l2 <> []) by (intros ->; simpl in Hl2; lia).
  rewrite (stack_uniform l1 ksh Hne1) by (intros; apply H1; assumption).
  cbn [bind setitem_list].
  rewrite (stack_uniform l2 ksh Hne2) by (intros; apply H2; assumption).
  cbn [bind setitem_list]. rewrite Hl1, Hl2.
  rewrite (vmap_pair f size (tshape x) ksh _ _ rest (fun b => scalar (yp b))).
  2:{ intros b Hb. unfold size in *. rewrite (shifted_row Cadd x s0 b Hwf Hb).
      rewrite (row_stack ksh l1 b (scalar C0) H1) by lia.
      rewrite <- Hn1 by exact Hb. apply Hp. exact Hb. }
  rewrite (stack_uniform _ []).
  2:{ destruct size; [lia | discriminate]. }
  2:{ intros t Ht. apply in_map_iff in Ht. destruct Ht as [b [<- _]]. reflexivity. }
  cbn [bind].
  rewrite (vmap_pair f size (tshape x) ksh _ _ rest (fun b => scalar (ym b))).
  2:{ intros b Hb. unfold size in *. rewrite (shifted_row Csub x s0 b Hwf Hb).
      rewrite (row_stack ksh l2 b (scalar C0) H2) by lia.
      rewrite <- Hn2 by exact Hb. apply Hm. exact Hb. }
  rewrite (stack_uniform _ []).
  2:{ destruct size; [lia | discriminate]. }
  2:{ intros t Ht. apply in_map_iff in Ht. destruct Ht as [b [<- _]]. reflexivity. }
  cbn [bind]. rewrite binop_same_shape by (cbn [tshape]; rewrite !length_map; reflexivity).
  cbn [bind tshape tdata]. rewrite !concat_scalars, zip_with_map.
  unfold backend.div_float, backend.tmap. cbn [tshape tdata].
  rewrite reshape_of_nat. unfold backend.sizen at 1. cbn [tshape].
  rewrite length_map, length_seq.
  destruct (Nat.eqb_spec (prod (tshape x)) (prod [size])) as [_ | Hne];
    [| exfalso; apply Hne; cbn [prod fold_right]; unfold size, backend.sizen, prod; lia].
  cbn [bind tdata]. rewrite map_map. reflexivity.
Qed.

(** ** dynamics_rhs with a Hamiltonian of the wrong size *)

Lemma matmul_shapes (a b : list nat) (A B : list C) (m k k' n : nat) :
  a = [m; k] -> b = [k'; n] -> k <> k' ->
  backend.matmul (mkT a A) (mkT b B) = Raise BackendError.
Proof.
  intros -> -> Hk. unfold backend.matmul, backend.tensordot1.
  cbn [tshape length Nat.eqb andb rev app].
  destruct (Nat.eqb_spec k k'); [contradiction | reflexivity].
Qed.

Lemma matmul_shape_ok (A B : list C) (m k n : nat) :
  exists D, backend.matmul (mkT [m; k] A) (mkT [k; n] B) = Ok (mkT [m; n] D).
Proof.
  unfold backend.matmul, backend.tensordot1.
  cbn [tshape length Nat.eqb andb rev app]. rewrite Nat.eqb_refl.
  eexists. reflexivity.
Qed.

(** X18.  A Hamiltonian that is not [d] x [d] for a state of dimension [d]:
    in both storage formats the energy raises, so the gradient is taken of
    a function that never returns. *)
Theorem dynamics_rhs_dimension_mismatch
    (grad : (tensor -> result tensor) -> tensor -> result tensor)
    (f : tensor -> tensor) (h : backend.matrix) (H : list C) (d r c : nat)
    (params : tensor) :
  (forall p, tshape (f p) = [d]) ->
  backend.entries h = mkT [r; c] H ->
  r <> d \/ c <> d ->
  dynamics_rhs grad f h params = grad (fun _ => Raise BackendError) params.
Proof.
  intros Hf Hh Hrc. unfold dynamics_rhs. f_equal.
  apply functional_extensionality. intros p.
  unfold backend.stop_gradient, backend.conj.
  rewrite (reshape_row (backend.tmap Cconj (f p)) d)
    by (unfold backend.sizen; cbn [backend.tmap tshape]; rewrite Hf; cbn; lia).
  rewrite (reshape_column (f p) d)
    by (unfold backend.sizen; rewrite Hf; cbn; lia).
  cbn [bind backend.tmap tdata].
  destruct h as [t | t]; cbn [backend.entries] in Hh; subst t;
    cbn [backend.is_sparse negb backend.sparse_dense_matmul backend.entries].
  - destruct (Nat.eq_dec d r) as [<- | Hdr].
    + destruct (matmul_shape_ok (map Cconj (tdata (f p))) H 1 d c) as [D ->].
      cbn [bind]. rewrite (matmul_shapes [1; c] [d; 1] _ _ 1 c d 1); try reflexivity.
      destruct Hrc; congruence.
    + rewrite (matmul_shapes [1; d] [r; c] _ _ 1 d r c); try reflexivity. exact Hdr.
  - unfold backend.sparse_dense_matmul. cbn [backend.entries].
    destruct (Nat.eq_dec c d) as [-> | Hcd].
    + destruct (matmul_shape_ok H (tdata (f p)) r d 1) as [D ->].
      cbn [bind]. rewrite (matmul_shapes [1; d] [r; 1] _ _ 1 d r 1); try reflexivity.
      destruct Hrc; congruence.
    + rewrite (matmul_shapes [r; c] [d; 1] _ _ r c d 1); try reflexivity. exact Hcd.
Qed.

(** ** Parameter shift with nothing to differentiate *)

(** X19.  An empty [argnums] does not give an empty tuple: no round runs and
    [grad_values[0]] raises, in both variants. *)
Theorem parameter_shift_grad_no_argnums (random_split : tensor -> tensor * tensor)
    (f : pyfun) (jit : bool) (random_argnums : option int_or_seq) (shifts : R * R)
    (args : list tensor) :
  parameter_shift_grad f (ASeq []) jit shifts args = Raise IndexError
  /\ parameter_shift_grad_v2 random_split f (ASeq []) jit random_argnums shifts args
     = Raise IndexError.
Proof. split; reflexivity. Qed.

(** ** adaptive_vmap over two vectorized arguments *)

Lemma split_tail_pair (s1 s2 c : nat) (rest : list tensor) (s : nat) :
  2 <= s ->
  mapM (fun '(i, arg) =>
          if mem i [0; 1] then
            '(arg, arg_rest) <-
               (if negb (s2 =? 0)
                then arg_rest <- backend.slice_last arg s2 ;;
                     arg' <- backend.slice_init arg s2 ;;
                     Ok (arg', Some arg_rest)
                else Ok (arg, None)) ;;
            arg <- backend.reshape arg
                     (map Z.of_nat (s1 :: c :: tl (backend.shape_tuple arg))) ;;
            Ok (arg, arg_rest)
          else Ok (arg, Some arg))
       (combine (seq s (length rest)) rest)
  = Ok (map (fun a => (a, Some a)) rest).
Proof.
  revert s. induction rest as [|a rest IH]; intros s Hs; [reflexivity|].
  cbn [length seq combine mapM map].
  replace (mem s [0; 1]) with false by (destruct s as [|[|s]]; [lia | lia | reflexivity]).
  cbn [bind]. rewrite IH by lia. reflexivity.
Qed.

Lemma chunk_call_pair (f : pyfun) (c s1 : nat) (sh sh' osh : list nat) (D D' : list C)
    (rest : list tensor) (g : nat -> tensor) (i : nat) :
  1 <= c -> i < s1 ->
  (forall k, k < s1 * c ->
     f (row sh D k :: row sh' D' k :: rest) = Ok (g k) /\ tshape (g k) = osh) ->
  (nreshape_args <- mapM (fun '(j, a) =>
       if mem j [0; 1] then backend.getitem a i else Ok a)
     (enumerate (mkT (s1 :: c :: sh) D :: mkT (s1 :: c :: sh') D' :: rest)) ;;
   backend.vmap f (ASeq [0; 1]) nreshape_args)
  = Ok (chunk_outputs g c osh i).
Proof.
  intros Hc Hi Hg.
  cbn [enumerate length seq combine mapM bind].
  change (mem 0 [0; 1]) with true. change (mem 1 [0; 1]) with true. cbv iota.
  rewrite !getitem_row by assumption. cbn [bind].
  rewrite slices_tail by (intros [|[|j]] Hj; [lia | lia | reflexivity]).
  cbn [bind].
  unfold row at 1 2. change (prod (c :: sh)) with (c * prod sh).
  change (prod (c :: sh')) with (c * prod sh').
  rewrite (vmap_pair f c sh sh' _ _ rest (fun b => g (i * c + b))).
  - rewrite (stack_uniform _ osh).
    + rewrite length_map, length_seq. unfold chunk_outputs.
      rewrite (map_seq_shift g (i * c) c). reflexivity.
    + destruct c; [lia | discriminate].
    + intros t Ht. apply in_map_iff in Ht. destruct Ht as [b [<- Hb]].
      apply in_seq in Hb. apply Hg. nia.
  - intros b Hb.
    replace (i * (c * prod sh)) with ((i * c) * prod sh) by lia.
    replace (i * (c * prod sh')) with ((i * c) * prod sh') by lia.
    rewrite !row_block by assumption. apply Hg. nia.
Qed.

Lemma chunk_pipeline_pair (f : pyfun) (c s1 : nat) (sh sh' osh : list nat) (D D' : list C)
    (rest : list tensor) (g : nat -> tensor) :
  1 <= c -> 1 <= s1 ->
  (forall k, k < s1 * c ->
     f (row sh D k :: row sh' D' k :: rest) = Ok (g k) /\ tshape (g k) = osh) ->
  mapM (fun i =>
          nreshape_args <- mapM (fun '(j, a) =>
              if mem j [0; 1] then backend.getitem a i else Ok a)
            (enumerate (mkT (s1 :: c :: sh) D :: mkT (s1 :: c :: sh') D' :: rest)) ;;
          backend.vmap f (ASeq [0; 1]) nreshape_args)
       (seq 0 s1)
  = Ok (map (chunk_outputs g c osh) (seq 0 s1))
  /\ backend.stack (map (chunk_outputs g c osh) (seq 0 s1))
     = Ok (mkT (s1 :: c :: osh) (concat (map tdata (map g (seq 0 (s1 * c)))))).
Proof.
  intros Hc Hs1 Hg. split.
  - apply mapM_Ok. intros i Hi. apply in_seq in Hi.
    apply (chunk_call_pair f c s1 sh sh' osh D D' rest g i);
      [assumption | lia | assumption].
  - rewrite (stack_uniform _ (c :: osh)).
    + rewrite length_map, length_seq, map_map. cbn [chunk_outputs tdata].
      do 2 f_equal. rewrite (map_map g tdata).
      rewrite <- (concat_map_seq_mul (fun k => tdata (g k)) c s1).
      f_equal. apply map_ext. intros i. rewrite map_map. reflexivity.
    + destruct s1; [lia | discriminate].
    + intros t Ht. apply in_map_iff in Ht. destruct Ht as [i [<- _]]. reflexivity.
Qed.

(** X20.  Two vectorized arguments with the same number of rows are split and
    chunked together: the wrapper and the plain vmap over both agree. *)
Theorem adaptive_vmap_two_batches
    (f : pyfun) (c n : nat) (sh sh' osh : list nat) (d d' : list C) (rest : list tensor) :
  1 <= c -> c <= n -> length osh <= 1 ->
  (forall k r r',
     backend.getitem (mkT (n :: sh) d) k = Ok r ->
     backend.getitem (mkT (n :: sh') d') k = Ok r' ->
     exists o, f (r :: r' :: rest) = Ok o /\ tshape o = osh) ->
  adaptive_vmap f (ASeq [0; 1]) (Some c) (mkT (n :: sh) d :: mkT (n :: sh') d' :: rest)
  = backend.vmap f (ASeq [0; 1]) (mkT (n :: sh) d :: mkT (n :: sh') d' :: rest)
  /\ exists out,
       backend.vmap f (ASeq [0; 1]) (mkT (n :: sh) d :: mkT (n :: sh') d' :: rest) = Ok out.
Proof.
  intros Hc Hn Hosh Hf.
  set (g := out_pair f rest sh sh' d d').
  assert (Hg : forall k, k < n ->
             f (row sh d k :: row sh' d' k :: rest) = Ok (g k) /\ tshape (g k) = osh).
  { intros k Hk.
    destruct (Hf k (row sh d k) (row sh' d' k) (getitem_row n sh d k Hk)
                (getitem_row n sh' d' k Hk)) as [o [Ho Hs]].
    unfold g, out_pair. rewrite Ho. auto. }
  rewrite (vmap_pair f n sh sh' d d' rest g) by (intros; apply Hg; assumption).
  rewrite (stack_uniform (map g (seq 0 n)) osh).
  2:{ destruct n; [lia | discriminate]. }
  2:{ intros t Ht. apply in_map_iff in Ht. destruct Ht as [k [<- Hk]].
      apply in_seq in Hk. apply Hg. lia. }
  rewrite length_map, length_seq.
  split; [| eexists; reflexivity].
  unfold adaptive_vmap.
  cbn [as_seq index_list nth_error bind backend.shape0 tshape].
  rewrite divmod_pos by assumption. cbn [bind].
  set (s1 := n / c). set (s2 := n mod c).
  assert (Hdiv : n = s1 * c + s2)
    by (unfold s1, s2; rewrite Nat.mul_comm; apply Nat.div_mod_eq).
  assert (Hs2 : s2 < c) by (apply Nat.mod_upper_bound; lia).
  assert (Hs1 : 1 <= s1) by (unfold s1; apply Nat.div_le_lower_bound; lia).
  cbn [enumerate length seq combine mapM bind].
  change (mem 0 [0; 1]) with true. change (mem 1 [0; 1]) with true. cbv iota.
  rewrite split_tail_pair by lia.
  destruct (Nat.eqb_spec s2 0) as [Hz | Hnz]; cbn [negb bind].
  - cbn [backend.shape_tuple tshape tl].
    rewrite !reshape_of_nat. unfold backend.sizen. cbn [tshape tdata].
    destruct (Nat.eqb_spec (prod (s1 :: c :: sh)) (prod (n :: sh))) as [_ | Hne];
      [| exfalso; apply Hne; cbn [prod fold_right]; nia].
    destruct (Nat.eqb_spec (prod (s1 :: c :: sh')) (prod (n :: sh'))) as [_ | Hne];
      [| exfalso; apply Hne; cbn [prod fold_right]; nia].
    cbn [bind map fst]. rewrite fst_tail.
    destruct (chunk_pipeline_pair f c s1 sh sh' osh d d' rest g Hc Hs1) as [Hloop Hstack].
    { intros k Hk. apply Hg. nia. }
    rewrite Hloop. cbn [bind]. rewrite Hstack. cbn [bind].
    cbn [backend.shape_tuple tshape index_list nth_error bind].
    rewrite (reshape_merge s1 c osh _ Hc Hs1 Hosh). cbn [bind].
    replace (s1 * c) with n by lia. reflexivity.
  - unfold backend.slice_last, backend.slice_init.
    cbn [tshape tdata bind backend.shape_tuple tl].
    replace (n - (n - s2)) with s2 by lia.
    replace (n - s2) with (s1 * c) by lia.
    rewrite !reshape_of_nat. unfold backend.sizen. cbn [tshape tdata].
    destruct (Nat.eqb_spec (prod (s1 :: c :: sh)) (prod (s1 * c :: sh))) as [_ | Hne];
      [| exfalso; apply Hne; cbn [prod fold_right]; nia].
    cbn [bind].
    destruct (Nat.eqb_spec (prod (s1 :: c :: sh')) (prod (s1 * c :: sh'))) as [_ | Hne];
      [| exfalso; apply Hne; cbn [prod fold_right]; nia].
    cbn [bind map fst flat_map snd app]. rewrite fst_tail, rest_args_tail.
    destruct (chunk_pipeline_pair f c s1 sh sh' osh (firstn (s1 * c * prod sh) d)
                (firstn (s1 * c * prod sh') d') rest g Hc Hs1) as [Hloop Hstack].
    { intros k Hk. rewrite !row_firstn by assumption. apply Hg. nia. }
    rewrite Hloop. cbn [bind]. rewrite Hstack. cbn [bind].
    cbn [backend.shape_tuple tshape index_list nth_error bind].
    rewrite (reshape_merge s1 c osh _ Hc Hs1 Hosh). cbn [bind].
    rewrite (vmap_pair f s2 sh sh' _ _ rest (fun b => g (s1 * c + b))).
    2:{ intros b Hb. rewrite !row_skip. apply Hg. nia. }
    rewrite (stack_uniform _ osh).
    2:{ destruct s2; [lia | discriminate]. }
    2:{ intros t Ht. apply in_map_iff in Ht. destruct Ht as [k [<- Hk]].
        apply in_seq in Hk. apply Hg. lia. }
    rewrite length_map, length_seq. cbn [bind].
    unfold backend.concat. cbn [tshape forallb].
    destruct (shape_eq_dec osh osh) as [_ | Hne]; [| congruence].
    cbn [andb map backend.lead tshape hd fold_right tdata concat].
    rewrite app_nil_r, Nat.add_0_r, rows_split, <- Hdiv. reflexivity.
Qed.

(** ** The further properties at concrete inputs *)

Lemma adaptive_vmap_broadcast_arguments_witness :
  adaptive_vmap MoreExamples.add_args (AInt 0) (Some 2)
    [MoreExamples.three_rows; Examples.one_row]
  = backend.vmap MoreExamples.add_args (AInt 0) [MoreExamples.three_rows; Examples.one_row]
  /\ exists out,
       backend.vmap MoreExamples.add_args (AInt 0)
         [MoreExamples.three_rows; Examples.one_row] = Ok out.
Proof.
  apply (adaptive_vmap_broadcast_arguments MoreExamples.add_args 2 3 [] [1] [C1; C0; C1]
           [Examples.one_row]); [lia | lia | simpl; lia |].
  intros k r H. unfold backend.getitem in H. cbn [tshape] in H.
  destruct (k <? 3); [| discriminate]. injection H as <-.
  eexists. split; reflexivity.
Defined.

Lemma adaptive_vmap_matrix_rows_witness :
  exists D,
    backend.vmap Examples.first_arg (AInt 0) [Examples.matrix_rows] = Ok (mkT [2; 1; 2] D)
    /\ adaptive_vmap Examples.first_arg (AInt 0) (Some 2) [Examples.matrix_rows]
       = Ok (mkT [2; 2] D).
Proof.
  apply (adaptive_vmap_matrix_rows Examples.first_arg 2 2 [1; 2] [1; 2] [C1; C0; C0; C1] []);
    [lia | lia | simpl; lia |].
  intros k r H. exists r. split; [reflexivity|].
  unfold backend.getitem in H. cbn [tshape] in H.
  destruct (k <? 2); [| discriminate]. injection H as <-. reflexivity.
Defined.

Lemma adaptive_vmap_zero_chunk_witness :
  adaptive_vmap Examples.first_arg (AInt 0) (Some 0) [Examples.one_row]
  = Raise ZeroDivisionError.
Proof.
  apply (adaptive_vmap_zero_chunk Examples.first_arg (AInt 0) [Examples.one_row] 0
           Examples.one_row 1 []); reflexivity.
Defined.

Lemma hamiltonian_evol_real_eigenvectors_witness :
  hamiltonian_evol MoreExamples.identity_eigh t_one (backend.eye 2) psi_up None
  = exact_evolutions (mkT [2] [C0; C1]) (backend.eye 2) psi_up t_one.
Proof.
  apply (hamiltonian_evol_real_eigenvectors MoreExamples.identity_eigh t_one
           (backend.eye 2) psi_up).
  unfold real_entries. cbn [MoreExamples.identity_eigh snd backend.eye tdata seq flat_map map
                            app Nat.eqb].
  repeat constructor.
Defined.

Lemma hamiltonian_evol_shape_witness :
  tshape (mkT [1; 2] (tdata (normalized code_state))) = [1; 2].
Proof.
  apply (hamiltonian_evol_shape eigh0 t_one h0 psi_up
           (mkT [1; 2] (tdata (normalized code_state))) code_value).
Defined.

Lemma code_state_positive : (0 < sum_norm2 code_state)%R.
Proof.
  pose proof decay_bounds as [Hd0 Hd1].
  unfold sum_norm2, code_state, Cnorm2. cbn [tdata map fold_right fst snd].
  set (d := decay) in *. clearbody d. nra.
Qed.

Lemma hamiltonian_evol_unit_norm_witness :
  sum_norm2 (normalized code_state) = 1%R.
Proof.
  apply (hamiltonian_evol_unit_norm eigh0 t_one h0 psi_up
           (mkT [1; 2] (tdata (normalized code_state))) 0 (normalized code_state)
           code_value).
  - reflexivity.
  - rewrite (normalized_positive code_state code_state_positive). apply R1_neq_R0.
Defined.

Lemma dynamics_matrix_overlaps_witness :
  exists out,
    dynamics_matrix Examples.jacobian Examples.jacobian Examples.state "fwd"
      Examples.one_param = Ok out
    /\ tshape out = [1; 1]
    /\ forall i j, i < 1 -> j < 1 ->
         nth (i * 1 + j) (tdata out) C0
         = inner (column [C1; Ci] 2 1 j) (column [C1; Ci] 2 1 i)
         /\ nth (i * 1 + j) (tdata out) C0 = Cconj (nth (j * 1 + i) (tdata out) C0).
Proof.
  apply (dynamics_matrix_overlaps Examples.jacobian Examples.jacobian Examples.state "fwd"
           Examples.one_param [C1; Ci] 2 1); [reflexivity | lia].
Defined.

Lemma qng_default_real_symmetric_witness :
  exists out,
    qng Examples.jacobian Examples.jacobian Examples.state "qng" (PStr "qng") "fwd"
        Examples.one_param = Ok out
    /\ forall i j, i < 1 -> j < 1 ->
         snd (nth (i * 1 + j) (tdata out) C0) = 0%R
         /\ nth (i * 1 + j) (tdata out) C0 = nth (j * 1 + i) (tdata out) C0.
Proof.
  apply (qng_default_real_symmetric Examples.jacobian Examples.jacobian Examples.state
           Examples.one_param [C1; C0] [C1; Ci] 2 1);
    [reflexivity | reflexivity | reflexivity | lia].
Defined.

Lemma vdot_hermitian_witness :
  _vdot (mkT [2] [C1; C0]) (mkT [2] [C1; Ci])
  = (r <- _vdot (mkT [2] [C1; Ci]) (mkT [2] [C1; C0]) ;; Ok (backend.conj r))
  /\ _vdot (mkT [2] [C1; Ci]) (mkT [2] [C1; Ci])
     = Ok (scalar (RtoC (sum_norm2 (mkT [2] [C1; Ci])))).
Proof.
  apply (vdot_hermitian [C1; Ci] [C1; C0] 2); reflexivity.
Defined.

Lemma qng2_other_kernels_witness :
  qng2 Examples.jacobian Examples.jacobian Examples.pullback Examples.state "spsa" PNone
       "rev" Examples.one_param
  = qng2 Examples.jacobian Examples.jacobian Examples.pullback Examples.state "dynamics"
         PNone "rev" Examples.one_param.
Proof.
  apply (qng2_other_kernels Examples.jacobian Examples.jacobian Examples.pullback
           Examples.state "spsa" PNone "rev" Examples.one_param).
  discriminate.
Defined.

Lemma parameter_shift_grad_leading_arguments_witness :
  parameter_shift_grad MoreExamples.sum_two (ASeq [0; 1]) false shifts_default
    [Examples.two_entries; Examples.one_param]
  = Ok (Tuple
          [shift_gradient MoreExamples.sum_two (PI / 2) 2
             [Examples.two_entries; Examples.one_param] 0;
           shift_gradient MoreExamples.sum_two (PI / 2) 2
             [Examples.two_entries; Examples.one_param] 1]).
Proof.
  apply (parameter_shift_grad_leading_arguments MoreExamples.sum_two false (PI / 2) 2
           [Examples.two_entries; Examples.one_param] 2); [lia | simpl; lia |].
  intros i a Hi Ea.
  destruct i as [|[|i]]; [| | lia]; cbn [nth_error] in Ea; injection Ea as <-.
  - split; [reflexivity|]. split; [cbv; lia|].
    intros k _. eexists. eexists. split; reflexivity.
  - split; [reflexivity|]. split; [cbv; lia|].
    intros k _. eexists. eexists. split; reflexivity.
Defined.

Lemma parameter_shift_grad_vector_valued_witness :
  parameter_shift_grad Examples.first_arg (AInt 0) false shifts_default
    [Examples.two_entries] = Raise BackendError.
Proof.
  apply (parameter_shift_grad_vector_valued Examples.first_arg false (PI / 2) 2
           Examples.two_entries [] [2]).
  - reflexivity.
  - cbv. lia.
  - cbv. lia.
  - intros k _. eexists. eexists. repeat split.
Defined.

Lemma parameter_shift_grad_v2_random_keys_witness :
  parameter_shift_grad_v2 Examples.no_split MoreExamples.sum_two (AInt 0) false
    (Some (AInt 1)) shifts_default [Examples.two_entries; Examples.one_param]
  = Ok (Single (mkT [2]
          (map (fun k =>
             Cdiv (Csub
                     (value_of (MoreExamples.sum_two
                        [shift_by Cadd Examples.two_entries (PI / 2) k;
                         nth k (snd (split_keys Examples.no_split Examples.one_param 4))
                             (scalar C0)]))
                     (value_of (MoreExamples.sum_two
                        [shift_by Csub Examples.two_entries (PI / 2) k;
                         nth (2 + k)
                             (snd (split_keys Examples.no_split Examples.one_param 4))
                             (scalar C0)])))
                  (RtoC 2))
             (seq 0 2)))).
Proof.
  apply (parameter_shift_grad_v2_random_keys Examples.no_split MoreExamples.sum_two false
           (PI / 2) 2 Examples.two_entries Examples.one_param [] [1]).
  - reflexivity.
  - cbv. lia.
  - intros s Hs.
    cbn [split_keys Examples.no_split snd In Examples.two_entries backend.sizen tshape prod
         fold_right Nat.mul Nat.add] in Hs.
    destruct Hs as [<- | [<- | [<- | [<- | []]]]]; split; reflexivity.
  - intros k _. eexists. eexists. split; reflexivity.
Defined.

Lemma hamiltonian_evol_scalar_time_witness :
  hamiltonian_evol eigh0 (scalar C1) h0 psi_up None = Raise TypeError.
Proof.
  apply (hamiltonian_evol_scalar_time eigh0 (scalar C1) h0 psi_up
           (mkT [2] [(3 / 5, 0); (0, 4 / 5)]%R) None); [reflexivity|].
  destruct code_steps as (E1 & E2 & E3 & _). cbn [eigh0 snd].
  rewrite E1. cbn [bind]. rewrite E2. cbn [bind]. exact E3.
Defined.

Lemma adaptive_vmap_two_batches_witness :
  adaptive_vmap MoreExamples.add_args (ASeq [0; 1]) (Some 2)
    [MoreExamples.three_rows; MoreExamples.three_rows]
  = backend.vmap MoreExamples.add_args (ASeq [0; 1])
      [MoreExamples.three_rows; MoreExamples.three_rows]
  /\ exists out,
       backend.vmap MoreExamples.add_args (ASeq [0; 1])
         [MoreExamples.three_rows; MoreExamples.three_rows] = Ok out.
Proof.
  apply (adaptive_vmap_two_batches MoreExamples.add_args 2 3 [] [] [] [C1; C0; C1]
           [C1; C0; C1] []); [lia | lia | simpl; lia |].
  intros k r r' H H'. unfold backend.getitem in H, H'. cbn [tshape] in H, H'.
  destruct (k <? 3); [| discriminate]. injection H as <-. injection H' as <-.
  eexists. split; reflexivity.
Defined.

Lemma dynamics_rhs_dimension_mismatch_witness :
  dynamics_rhs Examples.gradient Examples.state
    (backend.Dense (mkT [3; 3] (tdata (backend.eye 3)))) Examples.one_param
  = Examples.gradient (fun _ => Raise BackendError) Examples.one_param.
Proof.
  apply (dynamics_rhs_dimension_mismatch Examples.gradient Examples.state
           (backend.Dense (mkT [3; 3] (tdata (backend.eye 3))))
           (tdata (backend.eye 3)) 2 3 3 Examples.one_param).
  - intros p. reflexivity.
  - reflexivity.
  - left. lia.
Defined.
